(** * Checkers rules engine and minimax agent (anarcoiris/GamingRL)

    A shallow embedding of [env/rules.py] (class [CheckersRules], class
    [Move]), of [agent/heuristic_agent.py] (class [HeuristicAgent]) and of
    [board_to_observation] of [env/representation.py], followed by the
    properties of the specification that concern them and by further
    properties of the code.

    Conventions of the embedding.
    - A numpy board is a list of rows of integers; [getitem] and [setitem]
      are numpy's [board[r, c]] and [board[r, c] = v]: a negative index
      counts from the end, an index outside the shape raises [IndexError].
    - A Python exception is a constructor of [result]; code that can raise
      is written in the [result] monad.
    - [_generate_captures_recursive] recurses on a changed board; the
      embedding gives it the depth of recursion it may use ([fuel]) and
      raises [RecursionError] beyond it, as the interpreter does.
      [get_capture_moves] starts it with more fuel than it can use
      ([capture_fuel_sufficient]): one call more than the board has
      pieces. The interpreter's own limit on nested calls is not part of
      the embedding; a chain of jumps longer than that limit, which needs a
      board far larger than 8 x 8, makes the code raise [RecursionError]
      where [get_capture_moves] returns. On a board of at most 8 x 8
      squares the search nests at most 65 calls.
    - Scores are Python floats. Every score this program computes is an
      integer far below 2^53 or an infinity, where float arithmetic is
      exact, so a score is an integer or an infinity ([pyfloat]). *)

From Stdlib Require Import ZArith Lia Bool.
From stdpp Require Import base numbers list.

Local Open Scope Z_scope.

(** ** Exceptions *)

Inductive result (A : Type) : Type :=
  | Ok (a : A)
  | IndexError
  | RecursionError.
Arguments Ok {A} a.
Arguments IndexError {A}.
Arguments RecursionError {A}.

Definition bind {A B : Type} (m : result A) (k : A -> result B) : result B :=
  match m with
  | Ok a => k a
  | IndexError => IndexError
  | RecursionError => RecursionError
  end.

Notation "'let*' x ':=' m 'in' k" := (bind m (fun x => k))
  (at level 10, x pattern, m at level 100, k at level 200).

(** A loop whose body appends to one list of results. *)
Fixpoint flat_mapM {A B : Type} (f : A -> result (list B)) (l : list A)
  : result (list B) :=
  match l with
  | [] => Ok []
  | x :: xs =>
      let* ys := f x in
      let* zs := flat_mapM f xs in
      Ok (ys ++ zs)
  end.

(** A loop whose body appends to two lists of results. *)
Fixpoint gatherM {A B C : Type} (f : A -> result (list B * list C))
  (l : list A) : result (list B * list C) :=
  match l with
  | [] => Ok ([], [])
  | x :: xs =>
      let* p := f x in
      let* q := gatherM f xs in
      Ok (p.1 ++ q.1, p.2 ++ q.2)
  end.

(** A loop that updates a state. *)
Fixpoint foldM {A S : Type} (body : S -> A -> result S) (s : S) (l : list A)
  : result S :=
  match l with
  | [] => Ok s
  | x :: xs => let* s' := body s x in foldM body s' xs
  end.

(** ** Boards *)

(** A square [(row, col)], and a board: the rows of an integer array. *)
Abbreviation Pos := (Z * Z)%type.
Abbreviation Board := (list (list Z)).

Definition EMPTY : Z := 0.
Definition PLAYER1_MAN : Z := 1.
Definition PLAYER1_KING : Z := 2.
Definition PLAYER2_MAN : Z := -1.
Definition PLAYER2_KING : Z := -2.

(** numpy's index rule on an axis of length [n]. *)
Definition norm_index (n : nat) (i : Z) : result nat :=
  if (0 <=? i) && (i <? Z.of_nat n) then Ok (Z.to_nat i)
  else if (- Z.of_nat n <=? i) && (i <? 0) then Ok (Z.to_nat (i + Z.of_nat n))
  else IndexError.

(** [board[row, col]] *)
Definition getitem (board : Board) (row col : Z) : result Z :=
  let* i := norm_index (length board) row in
  match board !! i with
  | None => IndexError
  | Some r =>
      let* j := norm_index (length r) col in
      match r !! j with
      | None => IndexError
      | Some v => Ok v
      end
  end.

(** [board[row, col] = v], on a copy *)
Definition setitem (board : Board) (row col : Z) (v : Z) : result Board :=
  let* i := norm_index (length board) row in
  match board !! i with
  | None => IndexError
  | Some r =>
      let* j := norm_index (length r) col in
      Ok (<[i := <[j := v]> r]> board)
  end.

(** ** Moves *)

Record Move : Type := mkMove {
  from_pos : Pos;
  to_pos : Pos;
  captures : list Pos;
  promotion : bool
}.

(** [len(self.captures) + (1 if not self.captures else 0)] *)
Definition sequence_length (m : Move) : Z :=
  Z.of_nat (length (captures m))
  + (match captures m with [] => 1 | _ => 0 end).

(** ** The rules: class [CheckersRules] *)

Record CheckersRules : Type := mkRules {
  board_size : Z;
  capture_forced : bool;
  prefer_longest_capture : bool;
  king_on_last_row : bool
}.

Definition default_rules : CheckersRules := mkRules 8 true true true.

Section Rules.

Variable self : CheckersRules.

Definition is_valid_square (row col : Z) : bool :=
  if negb ((0 <=? row) && (row <? board_size self)
           && ((0 <=? col) && (col <? board_size self)))
  then false
  else (row + col) mod 2 =? 1.

Definition get_move_directions (piece_value : Z) (is_king : bool) : list (Z * Z) :=
  if is_king then [(-1, -1); (-1, 1); (1, -1); (1, 1)]
  else if piece_value >? 0 then [(1, -1); (1, 1)]
  else [(-1, -1); (-1, 1)].

(** The king of [player], as the source writes it. *)
Definition king_of (player : Z) : Z :=
  if player =? 1 then PLAYER1_KING else PLAYER2_KING.

Definition get_simple_moves (board : Board) (row col player : Z)
  : result (list Move) :=
  let* piece_value := getitem board row col in
  let is_king := Z.abs piece_value =? 2 in
  let directions := get_move_directions piece_value is_king in
  flat_mapM (fun d : Z * Z =>
    let new_row := row + d.1 in
    let new_col := col + d.2 in
    if negb (is_valid_square new_row new_col) then Ok []
    else
      let* target := getitem board new_row new_col in
      if target =? EMPTY then
        let promotion :=
          if negb is_king then
            if (player =? 1) && (new_row =? board_size self - 1) then true
            else if (player =? -1) && (new_row =? 0) then true
            else false
          else false in
        Ok [mkMove (row, col) (new_row, new_col) [] promotion]
      else Ok []) directions.

(** One direction of the loop of [_generate_captures_recursive]; [recurse]
    is the recursive call. The source also rebinds [directions] after a
    promotion, which does not change the list the running loop iterates. *)
Definition capture_step
  (recurse : Board -> Z -> Z -> list Pos -> result (list Move))
  (board : Board) (row col player : Z) (captures_so_far : list Pos)
  (is_king : bool) (d : Z * Z) : result (list Move) :=
  let jump_row := row + d.1 in
  let jump_col := col + d.2 in
  if negb (is_valid_square jump_row jump_col) then Ok []
  else
    let* jumped_piece := getitem board jump_row jump_col in
    if (jumped_piece =? EMPTY) || (jumped_piece * player >? 0) then Ok []
    else
      let land_row := jump_row + d.1 in
      let land_col := jump_col + d.2 in
      if negb (is_valid_square land_row land_col) then Ok []
      else
        let* landing := getitem board land_row land_col in
        if negb (landing =? EMPTY) then Ok []
        else
          let* moving := getitem board row col in
          let* b1 := setitem board land_row land_col moving in
          let* b2 := setitem b1 row col EMPTY in
          let* b3 := setitem b2 jump_row jump_col EMPTY in
          let new_promotion :=
            if negb is_king then
              if (player =? 1) && (land_row =? board_size self - 1) then true
              else if (player =? -1) && (land_row =? 0) then true
              else false
            else false in
          let* new_board :=
            if new_promotion
            then setitem b3 land_row land_col (king_of player)
            else Ok b3 in
          let new_captures := captures_so_far ++ [(jump_row, jump_col)] in
          let* additional_moves :=
            recurse new_board land_row land_col new_captures in
          match additional_moves with
          | _ :: _ => Ok additional_moves
          | [] =>
              Ok [mkMove (row, col) (land_row, land_col) new_captures
                    (new_promotion
                     || ((length captures_so_far =? 0)%nat && new_promotion))]
          end.

Fixpoint generate_captures_recursive (fuel : nat) (board : Board)
  (row col player : Z) (captures_so_far : list Pos) {struct fuel}
  : result (list Move) :=
  match fuel with
  | O => RecursionError
  | S fuel' =>
      let* piece_value := getitem board row col in
      let is_king := Z.abs piece_value =? 2 in
      let directions := get_move_directions piece_value is_king in
      flat_mapM
        (capture_step
           (fun b r c cs => generate_captures_recursive fuel' b r c player cs)
           board row col player captures_so_far is_king)
        directions
  end.

(** The number of pieces on the board, on squares of either colour. *)
Definition count_row (r : list Z) : nat :=
  length (filter (fun v => v ≠ 0) r).

Definition count_pieces (board : Board) : nat :=
  sum_list (count_row <$> board).

Definition get_capture_moves (board : Board) (row col player : Z)
  : result (list Move) :=
  generate_captures_recursive (S (count_pieces board)) board row col player [].

(** [range(n)] *)
Definition range (n : Z) : list Z := seqZ 0 n.

(** The squares in the order of the two nested loops. *)
Definition squares : list Pos :=
  r ← range (board_size self); c ← range (board_size self); [(r, c)].

(** The body of the loop of [get_legal_moves]: what one square adds to
    [all_moves] and to [capture_moves]. *)
Definition piece_moves (board : Board) (player : Z) (sq : Pos)
  : result (list Move * list Move) :=
  if negb (is_valid_square sq.1 sq.2) then Ok ([], [])
  else
    let* piece_value := getitem board sq.1 sq.2 in
    if piece_value =? 0 then Ok ([], [])
    else if ((player =? 1) && (piece_value >? 0))
            || ((player =? -1) && (piece_value <? 0)) then
      let* simple_moves := get_simple_moves board sq.1 sq.2 player in
      let* caps := get_capture_moves board sq.1 sq.2 player in
      Ok (simple_moves, caps)
    else Ok ([], []).

(** [(all_moves, capture_moves)] when the loop of [get_legal_moves] ends. *)
Definition collect_moves (board : Board) (player : Z)
  : result (list Move * list Move) :=
  gatherM (piece_moves board player) squares.

Definition capture_count (m : Move) : nat := length (captures m).

(** [max(len(m.captures) for m in capture_moves)] *)
Definition max_captures (capture_moves : list Move) : nat :=
  foldr Nat.max 0%nat (capture_count <$> capture_moves).

Definition get_legal_moves (board : Board) (player : Z) : result (list Move) :=
  let* collected := collect_moves board player in
  let all_moves := collected.1 in
  let capture_moves := collected.2 in
  if capture_forced self && negb (bool_decide (capture_moves = [])) then
    if prefer_longest_capture self then
      Ok (filter (fun m => capture_count m = max_captures capture_moves)
            capture_moves)
    else Ok capture_moves
  else Ok all_moves.

Definition apply_move (board : Board) (move : Move) (player : Z)
  : result Board :=
  let* b1 := foldM (fun b (cap : Pos) => setitem b cap.1 cap.2 EMPTY)
               board (captures move) in
  let* piece_value := getitem b1 (from_pos move).1 (from_pos move).2 in
  let* b2 := setitem b1 (to_pos move).1 (to_pos move).2 piece_value in
  let* b3 := setitem b2 (from_pos move).1 (from_pos move).2 EMPTY in
  if promotion move then
    if player =? 1
    then setitem b3 (to_pos move).1 (to_pos move).2 PLAYER1_KING
    else setitem b3 (to_pos move).1 (to_pos move).2 PLAYER2_KING
  else Ok b3.

(** The flags [(player_has_pieces, opponent_has_pieces)] after the loop of
    [is_terminal]. *)
Definition scan_pieces (board : Board) : result (bool * bool) :=
  foldM (fun (flags : bool * bool) (sq : Pos) =>
    if negb (is_valid_square sq.1 sq.2) then Ok flags
    else
      let* piece := getitem board sq.1 sq.2 in
      if piece >? 0 then Ok (true, flags.2)
      else if piece <? 0 then Ok (flags.1, true)
      else Ok flags) (false, false) squares.

Definition is_terminal (board : Board) (current_player : Z)
  : result (bool * option Z) :=
  let opponent := - current_player in
  let* flags := scan_pieces board in
  let player_has_pieces := flags.1 in
  let opponent_has_pieces := flags.2 in
  if negb opponent_has_pieces then Ok (true, Some current_player)
  else if negb player_has_pieces then Ok (true, Some opponent)
  else
    let* opponent_moves := get_legal_moves board opponent in
    if bool_decide (opponent_moves = []) then Ok (true, Some current_player)
    else
      let* player_moves := get_legal_moves board current_player in
      if bool_decide (player_moves = []) then Ok (true, Some opponent)
      else Ok (false, None).

End Rules.

(** ** Python floats, as far as this program uses them *)

Inductive pyfloat : Type :=
  | NegInf
  | Fin (z : Z)
  | PosInf.

(** [a < b] *)
Definition flt (a b : pyfloat) : bool :=
  match a, b with
  | NegInf, NegInf => false
  | NegInf, _ => true
  | Fin _, NegInf => false
  | Fin x, Fin y => x <? y
  | Fin _, PosInf => true
  | PosInf, _ => false
  end.

(** [a <= b] *)
Definition fle (a b : pyfloat) : bool := negb (flt b a).

(** [max(a, b)]: the first argument unless the second is greater. *)
Definition fmax (a b : pyfloat) : pyfloat := if flt a b then b else a.

(** [min(a, b)]: the first argument unless the second is smaller. *)
Definition fmin (a b : pyfloat) : pyfloat := if flt b a then b else a.

(** ** The agent: class [HeuristicAgent] *)

(** The dictionary of [Move.to_dict], the form in which the environment
    hands the legal moves to the agent. *)
Record Action : Type := mkAction {
  a_from : Pos;
  a_to : Pos;
  a_captures : list Pos;
  a_promotion : bool;
  a_sequence_length : Z
}.

Definition to_dict (m : Move) : Action :=
  mkAction (from_pos m) (to_pos m) (captures m) (promotion m)
    (sequence_length m).

Definition dict_to_move (d : Action) : Move :=
  mkMove (a_from d) (a_to d) (a_captures d) (a_promotion d).

(** [depth] is the number of plies of the search, at least one:
    [select_action] searches below each candidate to [depth - 1]. The field
    [search_player] is written by [select_action] and never read; it is left
    out. *)
Record HeuristicAgent : Type := mkAgent {
  rules : CheckersRules;
  depth : nat
}.

Definition W_MAN : Z := 10.
Definition W_KING : Z := 15.
Definition W_CENTER : Z := 1.

(** [r in center_rows], [c in center_cols] *)
Definition in_center (i : Z) : bool := (i =? 3) || (i =? 4).

(** The value of a piece on square [(r, c)], before its sign. *)
Definition piece_score (r c piece : Z) : Z :=
  (if Z.abs piece =? 2 then W_KING else W_MAN)
  + (if in_center r && in_center c then W_CENTER else 0).

(** The body of the loops of [evaluate_board] on
    [(score, p1_pieces, p2_pieces)]. *)
Definition eval_cell (acc : Z * Z * Z) (r c piece : Z) : Z * Z * Z :=
  if piece =? 0 then acc
  else
    let value := piece_score r c piece in
    if piece >? 0 then (acc.1.1 + value, acc.1.2 + 1, acc.2)
    else (acc.1.1 - value, acc.1.2, acc.2 + 1).

Fixpoint eval_row (r c : Z) (row : list Z) (acc : Z * Z * Z) : Z * Z * Z :=
  match row with
  | [] => acc
  | piece :: rest => eval_row r (c + 1) rest (eval_cell acc r c piece)
  end.

Fixpoint eval_rows (r : Z) (board : Board) (acc : Z * Z * Z) : Z * Z * Z :=
  match board with
  | [] => acc
  | row :: rest => eval_rows (r + 1) rest (eval_row r 0 row acc)
  end.

Definition evaluate_board (board : Board) : pyfloat :=
  let sums := eval_rows 0 board (0, 0, 0) in
  let score := sums.1.1 in
  let p1_pieces := sums.1.2 in
  let p2_pieces := sums.2 in
  if (p1_pieces =? 0) && (p2_pieces >? 0) then Fin (-10000)
  else if (p2_pieces =? 0) && (p1_pieces >? 0) then Fin 10000
  else Fin score.

(** [lst[0]] *)
Definition random_choice {A : Type} (lst : list A) : result A :=
  match lst with
  | x :: _ => Ok x
  | [] => IndexError
  end.

(** The loop of a maximizing node over its children; a child is the
    recursive call on one move, waiting for its window. *)
Fixpoint max_loop (children : list (pyfloat -> pyfloat -> result pyfloat))
  (max_eval alpha beta : pyfloat) : result pyfloat :=
  match children with
  | [] => Ok max_eval
  | child :: rest =>
      let* eval := child alpha beta in
      let max_eval := fmax max_eval eval in
      let alpha := fmax alpha eval in
      if fle beta alpha then Ok max_eval
      else max_loop rest max_eval alpha beta
  end.

(** The loop of a minimizing node. *)
Fixpoint min_loop (children : list (pyfloat -> pyfloat -> result pyfloat))
  (min_eval alpha beta : pyfloat) : result pyfloat :=
  match children with
  | [] => Ok min_eval
  | child :: rest =>
      let* eval := child alpha beta in
      let min_eval := fmin min_eval eval in
      let beta := fmin beta eval in
      if fle beta alpha then Ok min_eval
      else min_loop rest min_eval alpha beta
  end.

(** The score of a finished game: [10000.0 + depth], [-10000.0 - depth]
    or [0.0]. *)
Definition terminal_score (winner : option Z) (depth : nat) : pyfloat :=
  if bool_decide (winner = Some 1) then Fin (10000 + Z.of_nat depth)
  else if bool_decide (winner = Some (-1)) then Fin (-10000 - Z.of_nat depth)
  else Fin 0.

Section Agent.

Variable self : HeuristicAgent.

Fixpoint minimax (depth : nat) (board : Board) (alpha beta : pyfloat)
  (current_player_eval : Z) {struct depth} : result pyfloat :=
  let* t := is_terminal (rules self) board current_player_eval in
  if t.1 then Ok (terminal_score t.2 depth)
  else
    match depth with
    | O => Ok (evaluate_board board)
    | S depth' =>
        let* legal_moves :=
          get_legal_moves (rules self) board current_player_eval in
        match legal_moves with
        | [] => Ok (if current_player_eval =? 1 then Fin (-10000) else Fin 10000)
        | _ :: _ =>
            if current_player_eval =? 1 then
              max_loop
                ((fun move a b =>
                    let* next_board := apply_move board move 1 in
                    minimax depth' next_board a b (-1)) <$> legal_moves)
                NegInf alpha beta
            else
              min_loop
                ((fun move a b =>
                    let* next_board := apply_move board move (-1) in
                    minimax depth' next_board a b 1) <$> legal_moves)
                PosInf alpha beta
        end
    end.

(** The comparison of the loop of [select_action]. *)
Definition keep_best (player : Z) (best : pyfloat * Action)
  (score : pyfloat) (action_dict : Action) : pyfloat * Action :=
  if player =? 1 then
    if flt best.1 score then (score, action_dict) else best
  else
    if flt score best.1 then (score, action_dict) else best.

(** [(best_score, best_action)] when the loop of [select_action] ends. *)
Definition search_root (board : Board) (legal_actions : list Action)
  (player : Z) : result (pyfloat * Action) :=
  let best_score := if player =? 1 then NegInf else PosInf in
  let* best_action := random_choice legal_actions in
  foldM (fun best action_dict =>
    let move := dict_to_move action_dict in
    let* next_board := apply_move board move player in
    let* score :=
      minimax (depth self - 1) next_board NegInf PosInf (player * -1) in
    Ok (keep_best player best score action_dict))
    (best_score, best_action) legal_actions.

(** [None] is Python's [None]. *)
Definition select_action (board : Board) (legal_actions : list Action)
  (player : Z) : result (option Action) :=
  match legal_actions with
  | [] => Ok None
  | [only] => Ok (Some only)
  | _ =>
      let* best := search_root board legal_actions player in
      Ok (Some best.2)
  end.

End Agent.

(** ** Exhaustive minimax

    The search of the specification's equivalence property: the same
    recursion as [minimax], with every child searched and no window. *)

Section Exhaustive.

Variable self : HeuristicAgent.

(** The maximum of the children's values. *)
Fixpoint max_all (children : list (result pyfloat)) (max_eval : pyfloat)
  : result pyfloat :=
  match children with
  | [] => Ok max_eval
  | child :: rest => let* eval := child in max_all rest (fmax max_eval eval)
  end.

(** The minimum of the children's values. *)
Fixpoint min_all (children : list (result pyfloat)) (min_eval : pyfloat)
  : result pyfloat :=
  match children with
  | [] => Ok min_eval
  | child :: rest => let* eval := child in min_all rest (fmin min_eval eval)
  end.

Fixpoint minimax_exhaustive (depth : nat) (board : Board)
  (current_player_eval : Z) {struct depth} : result pyfloat :=
  let* t := is_terminal (rules self) board current_player_eval in
  if t.1 then Ok (terminal_score t.2 depth)
  else
    match depth with
    | O => Ok (evaluate_board board)
    | S depth' =>
        let* legal_moves :=
          get_legal_moves (rules self) board current_player_eval in
        match legal_moves with
        | [] => Ok (if current_player_eval =? 1 then Fin (-10000) else Fin 10000)
        | _ :: _ =>
            if current_player_eval =? 1 then
              max_all
                ((fun move =>
                    let* next_board := apply_move board move 1 in
                    minimax_exhaustive depth' next_board (-1)) <$> legal_moves)
                NegInf
            else
              min_all
                ((fun move =>
                    let* next_board := apply_move board move (-1) in
                    minimax_exhaustive depth' next_board 1) <$> legal_moves)
                PosInf
        end
    end.

Definition search_root_exhaustive (board : Board)
  (legal_actions : list Action) (player : Z) : result (pyfloat * Action) :=
  let best_score := if player =? 1 then NegInf else PosInf in
  let* best_action := random_choice legal_actions in
  foldM (fun best action_dict =>
    let move := dict_to_move action_dict in
    let* next_board := apply_move board move player in
    let* score :=
      minimax_exhaustive (depth self - 1) next_board (player * -1) in
    Ok (keep_best player best score action_dict))
    (best_score, best_action) legal_actions.

Definition select_action_exhaustive (board : Board)
  (legal_actions : list Action) (player : Z) : result (option Action) :=
  match legal_actions with
  | [] => Ok None
  | [only] => Ok (Some only)
  | _ =>
      let* best := search_root_exhaustive board legal_actions player in
      Ok (Some best.2)
  end.

End Exhaustive.

(** ** Well-formed boards *)

(** A cell holds one of the five values of the data model. *)
Definition valid_cell (v : Z) : bool := (-2 <=? v) && (v <=? 2).

(** A board of [n] rows of [n] valid cells. *)
Definition valid_board (n : Z) (board : Board) : bool :=
  (Z.of_nat (length board) =? n)
  && forallb (fun r => (Z.of_nat (length r) =? n) && forallb valid_cell r)
       board.

(** ** The observation: [board_to_observation] of [env/representation.py] *)

(** [obs[ch, row, col] = v] on the tensor of four planes; [1] stands for
    the float [1.0], [0] for [0.0]. *)
Definition setitem3 (obs : list Board) (ch : nat) (row col v : Z)
  : result (list Board) :=
  match obs !! ch with
  | None => IndexError
  | Some plane =>
      let* plane' := setitem plane row col v in
      Ok (<[ch := plane']> obs)
  end.

(** [np.zeros((4, 8, 8))] *)
Definition zeros_4_8_8 : list Board := replicate 4 (replicate 8 (replicate 8 0)).

(** The squares of the two loops over [range(8)]. *)
Definition squares8 : list Pos := r ← range 8; c ← range 8; [(r, c)].

(** The body of the loops of [board_to_observation]. *)
Definition observe_cell (board : Board) (current_player : Z)
  (obs : list Board) (sq : Pos) : result (list Board) :=
  let* piece := getitem board sq.1 sq.2 in
  if piece =? 0 then Ok obs
  else if current_player =? 1 then
    if piece =? 1 then setitem3 obs 0 sq.1 sq.2 1
    else if piece =? 2 then setitem3 obs 1 sq.1 sq.2 1
    else if piece =? -1 then setitem3 obs 2 sq.1 sq.2 1
    else if piece =? -2 then setitem3 obs 3 sq.1 sq.2 1
    else Ok obs
  else
    if piece =? -1 then setitem3 obs 0 sq.1 sq.2 1
    else if piece =? -2 then setitem3 obs 1 sq.1 sq.2 1
    else if piece =? 1 then setitem3 obs 2 sq.1 sq.2 1
    else if piece =? 2 then setitem3 obs 3 sq.1 sq.2 1
    else Ok obs.

Definition board_to_observation (board : Board) (current_player : Z)
  : result (list Board) :=
  foldM (observe_cell board current_player) zeros_4_8_8 squares8.

(** * The vocabulary of the properties *)

(** 1 for a piece, 0 for an empty cell. *)
Definition nz (v : Z) : nat := if decide (v = 0) then 0%nat else 1%nat.

(** The square [(r, c)] is on a board of [n] rows and columns. *)
Definition on_board (n r c : Z) : Prop := 0 <= r < n /\ 0 <= c < n.

(** [jump self b row col player is_king d nb promo]: the piece on [(row, col)]
    of [b] passes the tests of [capture_step] in direction [d]; [nb] is the
    board after the jump and [promo] tells whether the jump promotes the
    piece. *)
Inductive jump (self : CheckersRules) (b : Board) (row col player : Z)
  (is_king : bool) (d : Z * Z) (nb : Board) (promo : bool) : Prop :=
  | jump_intro (jumped moving : Z) (b1 b2 b3 : Board) :
      is_valid_square self (row + d.1) (col + d.2) = true ->
      getitem b (row + d.1) (col + d.2) = Ok jumped ->
      jumped <> 0 -> ~ jumped * player > 0 ->
      is_valid_square self (row + d.1 + d.1) (col + d.2 + d.2) = true ->
      getitem b (row + d.1 + d.1) (col + d.2 + d.2) = Ok 0 ->
      getitem b row col = Ok moving ->
      setitem b (row + d.1 + d.1) (col + d.2 + d.2) moving = Ok b1 ->
      setitem b1 row col 0 = Ok b2 ->
      setitem b2 (row + d.1) (col + d.2) 0 = Ok b3 ->
      promo = (if negb is_king then
                 if (player =? 1) && (row + d.1 + d.1 =? board_size self - 1)
                 then true
                 else if (player =? -1) && (row + d.1 + d.1 =? 0) then true
                 else false
               else false) ->
      (if promo
       then setitem b3 (row + d.1 + d.1) (col + d.2 + d.2) (king_of player)
       else Ok b3) = Ok nb ->
      jump self b row col player is_king d nb promo.

(** The move that ends a sequence with this jump. *)
Definition last_move (row col : Z) (captures_so_far : list Pos) (d : Z * Z)
  (promo : bool) : Move :=
  mkMove (row, col) (row + d.1 + d.1, col + d.2 + d.2)
    (captures_so_far ++ [(row + d.1, col + d.2)])
    (promo || ((length captures_so_far =? 0)%nat && promo)).

(** Every square a move names is on the board. *)
Definition applicable (n : Z) (m : Move) : Prop :=
  on_board n (from_pos m).1 (from_pos m).2
  /\ on_board n (to_pos m).1 (to_pos m).2
  /\ Forall (fun q : Pos => on_board n q.1 q.2) (captures m).

(** The square [q] holds a piece of the opponent of [player]. *)
Definition opponent_piece (b : Board) (player : Z) (q : Pos) : Prop :=
  exists v, getitem b q.1 q.2 = Ok v /\ v * player < 0.

(** The board of the forced-capture test: a man of player +1 on (2, 1), a
    man of player -1 on (3, 2). *)
Definition board_of_one_jump : Board :=
  [[0; 0; 0; 0; 0; 0; 0; 0];
   [0; 0; 0; 0; 0; 0; 0; 0];
   [0; 1; 0; 0; 0; 0; 0; 0];
   [0; 0; -1; 0; 0; 0; 0; 0];
   [0; 0; 0; 0; 0; 0; 0; 0];
   [0; 0; 0; 0; 0; 0; 0; 0];
   [0; 0; 0; 0; 0; 0; 0; 0];
   [0; 0; 0; 0; 0; 0; 0; 0]].

(** A double jump for the man on (2, 1), a single jump for the man on
    (2, 5). *)
Definition board_of_two_jumps : Board :=
  [[0; 0; 0; 0; 0; 0; 0; 0];
   [0; 0; 0; 0; 0; 0; 0; 0];
   [0; 1; 0; 0; 0; 1; 0; 0];
   [0; 0; -1; 0; 0; 0; -1; 0];
   [0; 0; 0; 0; 0; 0; 0; 0];
   [0; 0; 0; 0; -1; 0; 0; 0];
   [0; 0; 0; 0; 0; 0; 0; 0];
   [0; 0; 0; 0; 0; 0; 0; 0]].

(** A double jump that ends on the last row: the man on (3, 2) over (4, 3)
    and (6, 5). *)
Definition board_of_promoting_jumps : Board :=
  [[0; 0; 0; 0; 0; 0; 0; 0];
   [0; 0; 0; 0; 0; 0; 0; 0];
   [0; 0; 0; 0; 0; 0; 0; 0];
   [0; 0; 1; 0; 0; 0; 0; 0];
   [0; 0; 0; -1; 0; 0; 0; 0];
   [0; 0; 0; 0; 0; 0; 0; 0];
   [0; 0; 0; 0; 0; -1; 0; 0];
   [0; 0; 0; 0; 0; 0; 0; 0]].

(** Player -1 has no piece. *)
Definition board_of_player1_only : Board :=
  [[0; 0; 0; 0; 0; 0; 0; 0];
   [0; 0; 0; 0; 0; 0; 0; 0];
   [0; 1; 0; 0; 0; 0; 0; 0];
   [0; 0; 0; 0; 0; 0; 0; 0];
   [0; 0; 0; 0; 0; 0; 0; 0];
   [0; 0; 0; 0; 0; 0; 0; 0];
   [0; 0; 0; 0; 0; 0; 0; 0];
   [0; 0; 0; 0; 0; 0; 0; 0]].

(** Player +1 has no piece. *)
Definition board_of_player2_only : Board :=
  [[0; 0; 0; 0; 0; 0; 0; 0];
   [0; 0; 0; 0; 0; 0; 0; 0];
   [0; 0; 0; 0; 0; 0; 0; 0];
   [0; 0; 0; 0; 0; 0; 0; 0];
   [0; 0; 0; 0; 0; 0; 0; 0];
   [0; 0; 0; 0; -1; 0; 0; 0];
   [0; 0; 0; 0; 0; 0; 0; 0];
   [0; 0; 0; 0; 0; 0; 0; 0]].

(** A double jump through the last row: the man on (5, 2) over (6, 3) to
    (7, 4), then over (6, 5) to (5, 6). *)
Definition board_of_promotion_mid_sequence : Board :=
  [[0; 0; 0; 0; 0; 0; 0; 0];
   [0; 0; 0; 0; 0; 0; 0; 0];
   [0; 0; 0; 0; 0; 0; 0; 0];
   [0; 0; 0; 0; 0; 0; 0; 0];
   [0; 0; 0; 0; 0; 0; 0; 0];
   [0; 0; 1; 0; 0; 0; 0; 0];
   [0; 0; 0; -1; 0; -1; 0; 0];
   [0; 0; 0; 0; 0; 0; 0; 0]].

(** The second board of [test_eval_center_control]: one man each, the man of
    player +1 on the center square (3, 4). *)
Definition board_of_center_man : Board :=
  [[0; 0; 0; 0; 0; 0; 0; -1];
   [0; 0; 0; 0; 0; 0; 0; 0];
   [0; 0; 0; 0; 0; 0; 0; 0];
   [0; 0; 0; 0; 1; 0; 0; 0];
   [0; 0; 0; 0; 0; 0; 0; 0];
   [0; 0; 0; 0; 0; 0; 0; 0];
   [0; 0; 0; 0; 0; 0; 0; 0];
   [0; 0; 0; 0; 0; 0; 0; 0]].

(** The first board of [test_evaluate_material_balance]: one man each, on
    (0, 1) and (7, 0). *)
Definition board_of_corner_men : Board :=
  [[0; 1; 0; 0; 0; 0; 0; 0];
   [0; 0; 0; 0; 0; 0; 0; 0];
   [0; 0; 0; 0; 0; 0; 0; 0];
   [0; 0; 0; 0; 0; 0; 0; 0];
   [0; 0; 0; 0; 0; 0; 0; 0];
   [0; 0; 0; 0; 0; 0; 0; 0];
   [0; 0; 0; 0; 0; 0; 0; 0];
   [-1; 0; 0; 0; 0; 0; 0; 0]].

(** The bonus of [evaluate_board] for a piece on [(r, c)]. *)
Definition center_bonus (r c : Z) : Z :=
  if in_center r && in_center c then W_CENTER else 0.

(** Sums of [(score, p1_pieces, p2_pieces)]. *)
Definition tadd (a b : Z * Z * Z) : Z * Z * Z :=
  (a.1.1 + b.1.1, a.1.2 + b.1.2, a.2 + b.2).

(** What one cell adds to the sums. *)
Definition contribution (r c piece : Z) : Z * Z * Z :=
  eval_cell (0, 0, 0) r c piece.

Definition is_fin (x : pyfloat) : Prop := exists z, x = Fin z.

(** What a search with window [(alpha, beta)] that returns [r] tells about
    the exact value [v]: [r] is [v] inside the window, a bound on [v] from
    above at or below [alpha], a bound from below at or above [beta]. *)
Definition ab_sound (alpha beta r v : pyfloat) : Prop :=
  (flt alpha r = true -> flt r beta = true -> r = v)
  /\ (flt alpha r = false -> fle v r = true)
  /\ (flt r beta = false -> fle r v = true).

(** The state of the loop of a maximizing node entered with [alpha0], after
    some children: [best] is what the pruned loop holds, [exact] what the
    exhaustive loop holds. *)
Definition max_state (alpha0 best exact : pyfloat) : Prop :=
  best <> PosInf /\ exact <> PosInf
  /\ (flt alpha0 best = true -> best = exact)
  /\ (flt alpha0 best = false -> fle exact best = true).

(** The same for a minimizing node entered with [beta0]. *)
Definition min_state (beta0 best exact : pyfloat) : Prop :=
  best <> NegInf /\ exact <> NegInf
  /\ (flt best beta0 = true -> best = exact)
  /\ (flt best beta0 = false -> fle best exact = true).

(** The pruned search [child] below [m] is sound for the exhaustive search
    [exact] below it. *)
Definition child_sound {M : Type}
  (child : M -> pyfloat -> pyfloat -> result pyfloat)
  (exact : M -> result pyfloat) (m : M) : Prop :=
  exists v, exact m = Ok (Fin v)
    /\ forall a b, flt a b = true ->
         exists r, child m a b = Ok (Fin r) /\ ab_sound a b (Fin r) (Fin v).

(** The score [select_action] gives to a candidate: the pruned search of the
    board after the move, with the full window. *)
Definition action_score (self : HeuristicAgent) (board : Board) (player : Z)
  (action_dict : Action) : result pyfloat :=
  let* next_board := apply_move board (dict_to_move action_dict) player in
  minimax self (depth self - 1) next_board NegInf PosInf (player * -1).

(** The score the exhaustive search gives to a candidate. *)
Definition action_score_exhaustive (self : HeuristicAgent) (board : Board)
  (player : Z) (action_dict : Action) : result pyfloat :=
  let* next_board := apply_move board (dict_to_move action_dict) player in
  minimax_exhaustive self (depth self - 1) next_board (player * -1).

(** A position without captures: two moves for the man of player +1. *)
Definition board_of_two_choices : Board :=
  [[0; 0; 0; 0; 0; 0; 0; 0];
   [0; 0; 0; 0; 0; 0; 0; 0];
   [0; 1; 0; 0; 0; 0; 0; 0];
   [0; 0; 0; 0; 0; 0; 0; 0];
   [0; 0; 0; 0; 0; 0; 0; 0];
   [0; 0; 0; 0; -1; 0; 0; 0];
   [0; 0; 0; 0; 0; 0; 0; 0];
   [0; 0; 0; 0; 0; 0; 0; 0]].

(** The agent of the default rules that searches [d] plies. *)
Definition agent_of_depth (d : nat) : HeuristicAgent := mkAgent default_rules d.

(** What the code makes of a non-capturing move [m] of [player] on [b]. *)
Definition simple_step (self : CheckersRules) (b : Board) (player : Z)
  (m : Move) : Prop :=
  exists piece,
    getitem b (from_pos m).1 (from_pos m).2 = Ok piece
    /\ (player = 1 /\ piece > 0 \/ player = -1 /\ piece < 0)
    /\ is_valid_square self (from_pos m).1 (from_pos m).2 = true
    /\ is_valid_square self (to_pos m).1 (to_pos m).2 = true
    /\ getitem b (to_pos m).1 (to_pos m).2 = Ok 0
    /\ Z.abs ((to_pos m).1 - (from_pos m).1) = 1
    /\ Z.abs ((to_pos m).2 - (from_pos m).2) = 1
    /\ (Z.abs piece <> 2 -> (to_pos m).1 - (from_pos m).1 = player)
    /\ (promotion m = true <->
        Z.abs piece <> 2
        /\ (to_pos m).1 = if player =? 1 then board_size self - 1 else 0).

(** What [apply_move] makes of a move from [(fr, fc)] to [(tr, tc)] that
    captures nothing: the piece leaves its square and stands, as it was or
    as the king of [player], on the destination. *)
Definition relocated (b b' : Board) (m : Move) (player piece : Z) : Prop :=
  getitem b' (from_pos m).1 (from_pos m).2 = Ok 0
  /\ getitem b' (to_pos m).1 (to_pos m).2 =
       Ok (if promotion m then king_of player else piece)
  /\ forall r c, 0 <= r -> 0 <= c ->
       (r, c) <> from_pos m -> (r, c) <> to_pos m ->
       getitem b' r c = getitem b r c.

(** The last jump of a capture move: [to_pos] is two diagonal steps from
    [from_pos], over the last captured square, between playable squares. *)
Definition ends_with_jump (self : CheckersRules) (m : Move) : Prop :=
  exists d : Z * Z,
    Z.abs d.1 = 1 /\ Z.abs d.2 = 1
    /\ to_pos m = ((from_pos m).1 + d.1 + d.1, (from_pos m).2 + d.2 + d.2)
    /\ last (captures m) = Some ((from_pos m).1 + d.1, (from_pos m).2 + d.2)
    /\ is_valid_square self (to_pos m).1 (to_pos m).2 = true
    /\ is_valid_square self ((from_pos m).1 + d.1) ((from_pos m).2 + d.2) = true.

(** The number of cells of the board whose value satisfies [P]. *)
Definition count_where (P : Z -> bool) (b : Board) : nat :=
  sum_list ((fun r : list Z => length (filter (fun v => P v = true) r)) <$> b).

(** [v] is a piece of the opponent of [player]. *)
Definition is_opponent (player v : Z) : bool := v * player <? 0.

(** 1 for [true], 0 for [false]. *)
Definition ind (x : bool) : nat := if x then 1%nat else 0%nat.

(** Neither end of the move is a piece of the opponent that the move does
    not capture. *)
Definition ends_off_opponent (b : Board) (player : Z) (m : Move) : Prop :=
  forall q v, q = from_pos m \/ q = to_pos m ->
    getitem b q.1 q.2 = Ok v -> v * player < 0 -> q ∈ captures m.

(** The board with the colours exchanged: [-board]. *)
Definition swap_colours (b : Board) : Board := map (map Z.opp) b.

(** The sums [(score, p1_pieces, p2_pieces)] seen from the other side. *)
Definition mirror (t : Z * Z * Z) : Z * Z * Z := (- t.1.1, t.2, t.1.2).

(** Both indices are accepted by an array of [n] rows and [n] columns:
    numpy counts a negative index from the end. *)
Definition in_range (n : Z) (q : Pos) : Prop :=
  - n <= q.1 < n /\ - n <= q.2 < n.

(** [v] is a piece of [player]. *)
Definition is_own (player v : Z) : bool := v * player >? 0.

(** The move starts on a piece of the player and ends on an empty square of
    the board. *)
Definition starts_on_own_piece (b : Board) (player : Z) (m : Move) : Prop :=
  exists piece,
    getitem b (from_pos m).1 (from_pos m).2 = Ok piece
    /\ piece * player > 0
    /\ getitem b (to_pos m).1 (to_pos m).2 = Ok 0.

(** The piece of [player] on the playable square [q] can jump in direction
    [d]: over a piece of the opponent, onto an empty playable square. *)
Definition can_jump (self : CheckersRules) (b : Board) (player : Z)
  (q : Pos) (d : Z * Z) : Prop :=
  exists piece jumped,
    is_valid_square self q.1 q.2 = true
    /\ getitem b q.1 q.2 = Ok piece
    /\ (player = 1 /\ piece > 0 \/ player = -1 /\ piece < 0)
    /\ Z.abs d.1 = 1 /\ Z.abs d.2 = 1
    /\ (Z.abs piece <> 2 -> d.1 = player)
    /\ is_valid_square self (q.1 + d.1) (q.2 + d.2) = true
    /\ getitem b (q.1 + d.1) (q.2 + d.2) = Ok jumped
    /\ jumped * player < 0
    /\ is_valid_square self (q.1 + d.1 + d.1) (q.2 + d.2 + d.2) = true
    /\ getitem b (q.1 + d.1 + d.1) (q.2 + d.2 + d.2) = Ok 0.

(** [obs[ch, row, col]] *)
Definition getitem3 (obs : list Board) (ch : nat) (row col : Z) : result Z :=
  match obs !! ch with
  | None => IndexError
  | Some plane => getitem plane row col
  end.

(** The channel of a piece for the player who looks at the board: own men,
    own kings, the opponent's men, the opponent's kings. Every player value
    other than 1 looks as player -1. *)
Definition channel_of (current_player piece : Z) : option nat :=
  let own := if current_player =? 1 then 1 else -1 in
  if piece =? own then Some 0%nat
  else if piece =? 2 * own then Some 1%nat
  else if piece =? - own then Some 2%nat
  else if piece =? -2 * own then Some 3%nat
  else None.

(** The tensor after the squares [done]: four well-formed planes, a [1]
    exactly in the channel of each piece met so far. *)
Definition observed (board : Board) (current_player : Z) (done : list Pos)
  (obs : list Board) : Prop :=
  length obs = 4%nat
  /\ Forall (fun plane => valid_board 8 plane = true) obs
  /\ forall (ch : nat) r c piece,
       (ch < 4)%nat -> on_board 8 r c -> getitem board r c = Ok piece ->
       getitem3 obs ch r c
       = Ok (if decide ((r, c) ∈ done /\ channel_of current_player piece = Some ch)
             then 1 else 0).

(** * Properties *)

(** ** The monad and its loops *)

Lemma bind_Ok {A B : Type} (m : result A) (k : A -> result B) (b : B) :
  bind m k = Ok b <-> exists a, m = Ok a /\ k a = Ok b.
Proof.
  split.
  - destruct m as [a| |]; simpl; intros H; try discriminate. eauto.
  - intros (a & -> & H). exact H.
Qed.

(** Inversion of a successful computation, one [let*] at a time. *)
Ltac inv_bind H :=
  let a := fresh "x" in
  let E := fresh "E" in
  apply bind_Ok in H; destruct H as (a & E & H).

Lemma flat_mapM_Forall {A B : Type} (P : B -> Prop)
  (f : A -> result (list B)) (l : list A) (ys : list B) :
  (forall x zs, x ∈ l -> f x = Ok zs -> Forall P zs) ->
  flat_mapM f l = Ok ys -> Forall P ys.
Proof.
  revert ys. induction l as [|x xs IH]; simpl; intros ys Hf H.
  - injection H as <-. constructor.
  - inv_bind H. inv_bind H. injection H as <-.
    apply Forall_app. split.
    + eapply Hf; [left | eassumption].
    + apply IH; [|assumption]. intros y zs Hy. apply Hf. now right.
Qed.

Lemma flat_mapM_total {A B : Type} (f : A -> result (list B)) (l : list A) :
  (forall x, x ∈ l -> exists zs, f x = Ok zs) ->
  exists ys, flat_mapM f l = Ok ys.
Proof.
  induction l as [|x xs IH]; simpl; intros Hf.
  - eauto.
  - destruct (Hf x) as [zs ->]; [left|]. simpl.
    destruct IH as [ys ->]; [intros y Hy; apply Hf; now right|]. simpl. eauto.
Qed.

Lemma flat_mapM_ext {A B : Type} (f g : A -> result (list B)) (l : list A) :
  (forall x, x ∈ l -> f x = g x) -> flat_mapM f l = flat_mapM g l.
Proof.
  induction l as [|x xs IH]; simpl; intros Hfg; [reflexivity|].
  rewrite Hfg by left. rewrite IH; [reflexivity|].
  intros y Hy. apply Hfg. now right.
Qed.

Lemma gatherM_Forall {A B C : Type} (P : B -> Prop) (Q : C -> Prop)
  (f : A -> result (list B * list C)) (l : list A) (r : list B * list C) :
  (forall x p, x ∈ l -> f x = Ok p -> Forall P p.1 /\ Forall Q p.2) ->
  gatherM f l = Ok r -> Forall P r.1 /\ Forall Q r.2.
Proof.
  revert r. induction l as [|x xs IH]; simpl; intros r Hf H.
  - injection H as <-. split; constructor.
  - inv_bind H. inv_bind H. injection H as <-. simpl.
    destruct (Hf x x0) as [H1 H2]; [left|assumption|].
    destruct (IH x1) as [H3 H4]; [|assumption|].
    + intros y p Hy. apply Hf. now right.
    + split; apply Forall_app; auto.
Qed.

Lemma gatherM_total {A B C : Type} (f : A -> result (list B * list C))
  (l : list A) :
  (forall x, x ∈ l -> exists p, f x = Ok p) ->
  exists r, gatherM f l = Ok r.
Proof.
  induction l as [|x xs IH]; simpl; intros Hf.
  - eauto.
  - destruct (Hf x) as [p ->]; [left|]. simpl.
    destruct IH as [r ->]; [intros y Hy; apply Hf; now right|]. simpl. eauto.
Qed.

Lemma foldM_invariant {A S : Type} (I : S -> Prop)
  (body : S -> A -> result S) (l : list A) (s s' : S) :
  (forall t x t', x ∈ l -> I t -> body t x = Ok t' -> I t') ->
  I s -> foldM body s l = Ok s' -> I s'.
Proof.
  revert s. induction l as [|x xs IH]; simpl; intros s Hb Hs H.
  - injection H as <-. exact Hs.
  - inv_bind H. eapply IH; [| |eassumption].
    + intros t y t' Hy. apply Hb. now right.
    + eapply Hb; [left|eassumption..].
Qed.

Lemma foldM_total {A S : Type} (I : S -> Prop)
  (body : S -> A -> result S) (l : list A) (s : S) :
  (forall t x, x ∈ l -> I t -> exists t', body t x = Ok t' /\ I t') ->
  I s -> exists s', foldM body s l = Ok s' /\ I s'.
Proof.
  revert s. induction l as [|x xs IH]; simpl; intros s Hb Hs.
  - eauto.
  - destruct (Hb s x) as (t' & -> & Ht'); [left|assumption|]. simpl.
    apply IH; [|assumption]. intros t y Hy. apply Hb. now right.
Qed.

(** ** Boards: reading and writing *)

Lemma norm_index_nonneg (n : nat) (i : Z) :
  0 <= i -> norm_index n i = if i <? Z.of_nat n then Ok (Z.to_nat i) else IndexError.
Proof.
  intros Hi. unfold norm_index.
  destruct (Z.leb_spec 0 i); [|lia]. simpl.
  destruct (Z.ltb_spec i (Z.of_nat n)); [reflexivity|].
  destruct (Z.ltb_spec i 0); [lia|]. now rewrite andb_false_r.
Qed.

Lemma norm_index_lt (n : nat) (i : Z) (k : nat) :
  norm_index n i = Ok k -> (k < n)%nat.
Proof.
  unfold norm_index.
  destruct (Z.leb_spec 0 i), (Z.ltb_spec i (Z.of_nat n)); simpl;
    try (intros [= <-]; lia);
    destruct (Z.leb_spec (- Z.of_nat n) i), (Z.ltb_spec i 0); simpl;
    intros [= <-]; lia.
Qed.

Lemma is_valid_square_on_board (self : CheckersRules) (r c : Z) :
  is_valid_square self r c = true -> on_board (board_size self) r c.
Proof.
  unfold is_valid_square, on_board.
  destruct (Z.leb_spec 0 r), (Z.ltb_spec r (board_size self)),
    (Z.leb_spec 0 c), (Z.ltb_spec c (board_size self)); simpl;
    try discriminate; lia.
Qed.

Lemma valid_board_length (n : Z) (b : Board) :
  valid_board n b = true -> Z.of_nat (length b) = n.
Proof. unfold valid_board. intros [H _]%andb_prop. lia. Qed.

Lemma valid_board_row (n : Z) (b : Board) (i : nat) (r : list Z) :
  valid_board n b = true -> b !! i = Some r ->
  Z.of_nat (length r) = n /\ forallb valid_cell r = true.
Proof.
  unfold valid_board. intros [_ H]%andb_prop Hr.
  rewrite forallb_forall in H.
  apply list_elem_of_lookup_2, list_elem_of_In, H in Hr.
  apply andb_prop in Hr as [H1 H2]. split; [lia | assumption].
Qed.

Lemma valid_board_intro (n : Z) (b : Board) :
  Z.of_nat (length b) = n ->
  (forall i r, b !! i = Some r ->
     Z.of_nat (length r) = n /\ forallb valid_cell r = true) ->
  valid_board n b = true.
Proof.
  intros Hlen Hrows. unfold valid_board. apply andb_true_intro. split; [lia|].
  apply forallb_forall. intros r [i Hi]%list_elem_of_In%list_elem_of_lookup_1.
  destruct (Hrows i r Hi) as [H1 H2]. apply andb_true_intro. split; [lia|assumption].
Qed.

Lemma getitem_valid (n : Z) (b : Board) (r c : Z) :
  valid_board n b = true -> on_board n r c ->
  exists v, getitem b r c = Ok v /\ valid_cell v = true.
Proof.
  intros Hb [Hr Hc]. unfold getitem.
  pose proof (valid_board_length _ _ Hb) as Hlen.
  rewrite norm_index_nonneg by lia.
  destruct (Z.ltb_spec r (Z.of_nat (length b))); [|lia]. cbn [bind].
  destruct (lookup_lt_is_Some_2 b (Z.to_nat r)) as [row Hrow]; [lia|].
  rewrite Hrow. destruct (valid_board_row _ _ _ _ Hb Hrow) as [Hl Hcells].
  rewrite norm_index_nonneg by lia.
  destruct (Z.ltb_spec c (Z.of_nat (length row))); [|lia]. cbn [bind].
  destruct (lookup_lt_is_Some_2 row (Z.to_nat c)) as [v Hv]; [lia|].
  rewrite Hv. exists v. split; [reflexivity|].
  rewrite forallb_forall in Hcells. apply Hcells.
  eapply list_elem_of_In, list_elem_of_lookup_2, Hv.
Qed.

Lemma setitem_valid (n : Z) (b : Board) (r c v : Z) :
  valid_board n b = true -> on_board n r c -> valid_cell v = true ->
  exists b', setitem b r c v = Ok b' /\ valid_board n b' = true.
Proof.
  intros Hb [Hr Hc] Hv. unfold setitem.
  pose proof (valid_board_length _ _ Hb) as Hlen.
  rewrite norm_index_nonneg by lia.
  destruct (Z.ltb_spec r (Z.of_nat (length b))); [|lia]. cbn [bind].
  destruct (lookup_lt_is_Some_2 b (Z.to_nat r)) as [row Hrow]; [lia|].
  rewrite Hrow. destruct (valid_board_row _ _ _ _ Hb Hrow) as [Hl Hcells].
  rewrite norm_index_nonneg by lia.
  destruct (Z.ltb_spec c (Z.of_nat (length row))); [|lia]. cbn [bind].
  eexists. split; [reflexivity|].
  apply valid_board_intro.
  - rewrite length_insert. lia.
  - intros i r' Hi.
    destruct (decide (i = Z.to_nat r)) as [->|Hne].
    + rewrite list_lookup_insert_eq in Hi by lia. injection Hi as <-.
      split; [rewrite length_insert; lia|].
      apply forallb_forall. intros w [j Hj]%list_elem_of_In%list_elem_of_lookup_1.
      destruct (decide (j = Z.to_nat c)) as [->|Hnej].
      * rewrite list_lookup_insert_eq in Hj by lia. now injection Hj as <-.
      * rewrite list_lookup_insert_ne in Hj by congruence.
        rewrite forallb_forall in Hcells. apply Hcells.
        eapply list_elem_of_In, list_elem_of_lookup_2, Hj.
    + rewrite list_lookup_insert_ne in Hi by congruence.
      eapply valid_board_row; eassumption.
Qed.

(** Reading after writing, for indices that do not count from the end. *)
Lemma getitem_setitem (b b' : Board) (r c v r' c' : Z) :
  setitem b r c v = Ok b' -> 0 <= r -> 0 <= c -> 0 <= r' -> 0 <= c' ->
  getitem b' r' c' = if decide (r = r' /\ c = c') then Ok v else getitem b r' c'.
Proof.
  unfold setitem, getitem. intros H Hr Hc Hr' Hc'.
  rewrite norm_index_nonneg in H by lia.
  destruct (Z.ltb_spec r (Z.of_nat (length b))); [|discriminate]. cbn [bind] in H.
  destruct (b !! Z.to_nat r) as [row|] eqn:Hrow; [|discriminate].
  rewrite norm_index_nonneg in H by lia.
  destruct (Z.ltb_spec c (Z.of_nat (length row))); [|discriminate]. cbn [bind] in H.
  injection H as <-. rewrite length_insert.
  rewrite (norm_index_nonneg _ r') by lia.
  destruct (Z.ltb_spec r' (Z.of_nat (length b))); cbn [bind].
  2:{ case_decide; [lia | reflexivity]. }
  destruct (decide (Z.to_nat r = Z.to_nat r')) as [Heq|Hne].
  - assert (r = r') as <- by lia.
    rewrite list_lookup_insert_eq by lia. rewrite Hrow. rewrite length_insert.
    rewrite (norm_index_nonneg _ c') by lia.
    destruct (Z.ltb_spec c' (Z.of_nat (length row))); cbn [bind].
    2:{ case_decide; [lia | reflexivity]. }
    destruct (decide (Z.to_nat c = Z.to_nat c')) as [Heqc|Hnec].
    + assert (c = c') as <- by lia.
      rewrite list_lookup_insert_eq by lia. case_decide; [reflexivity|lia].
    + rewrite list_lookup_insert_ne by assumption.
      case_decide; [lia | reflexivity].
  - rewrite list_lookup_insert_ne by assumption.
    case_decide; [lia | reflexivity].
Qed.

Lemma count_row_insert (row : list Z) (j : nat) (old v : Z) :
  row !! j = Some old ->
  (count_row (<[j := v]> row) + nz old = count_row row + nz v)%nat.
Proof.
  unfold count_row. revert j. induction row as [|w row IH]; intros j Hj.
  - discriminate.
  - destruct j as [|j]; simpl in *.
    + injection Hj as ->. rewrite !filter_cons. unfold nz.
      repeat case_decide; simpl; lia.
    + specialize (IH j Hj). rewrite !filter_cons.
      case_decide; simpl; lia.
Qed.

Lemma count_pieces_insert (b : Board) (i : nat) (row row' : list Z) :
  b !! i = Some row ->
  (count_pieces (<[i := row']> b) + count_row row
   = count_pieces b + count_row row')%nat.
Proof.
  unfold count_pieces. revert i. induction b as [|r b IH]; intros i Hi.
  - discriminate.
  - destruct i as [|i]; cbn in *.
    + injection Hi as ->. lia.
    + specialize (IH i Hi). rewrite <- !Nat.add_assoc. f_equal. exact IH.
Qed.

(** Writing [v] over [old] changes the number of pieces by their difference. *)
Lemma count_pieces_setitem (b b' : Board) (r c v old : Z) :
  setitem b r c v = Ok b' -> getitem b r c = Ok old ->
  (count_pieces b' + nz old = count_pieces b + nz v)%nat.
Proof.
  unfold setitem, getitem. intros H G.
  destruct (norm_index (length b) r) as [i| |]; try discriminate. simpl in *.
  destruct (b !! i) as [row|] eqn:Hrow; [|discriminate].
  destruct (norm_index (length row) c) as [j| |]; try discriminate. simpl in *.
  destruct (row !! j) as [w|] eqn:Hw; [|discriminate].
  injection G as ->. injection H as <-.
  pose proof (count_pieces_insert b i row (<[j := v]> row) Hrow).
  pose proof (count_row_insert row j old v Hw). lia.
Qed.

(** ** One jump of a capture sequence *)

Section Jump.

Variable self : CheckersRules.

Lemma capture_step_Ok
  (recurse : Board -> Z -> Z -> list Pos -> result (list Move))
  (b : Board) (row col player : Z) (caps : list Pos) (is_king : bool)
  (d : Z * Z) (ms : list Move) :
  capture_step self recurse b row col player caps is_king d = Ok ms ->
  ms = [] \/
  exists nb promo more,
    jump self b row col player is_king d nb promo
    /\ recurse nb (row + d.1 + d.1) (col + d.2 + d.2)
         (caps ++ [(row + d.1, col + d.2)]) = Ok more
    /\ ms = match more with
            | [] => [last_move row col caps d promo]
            | _ :: _ => more
            end.
Proof.
  unfold capture_step. intros H.
  destruct (is_valid_square self (row + d.1) (col + d.2)) eqn:Hjv; cbn [negb] in H.
  2:{ left. now injection H. }
  inv_bind H. rename x into jumped.
  unfold EMPTY in *.
  destruct (Z.eqb_spec jumped 0) as [|Hnz]; cbn [orb] in H.
  { left. now injection H. }
  destruct (Z.gtb_spec (jumped * player) 0) as [|Hopp].
  { left. now injection H. }
  destruct (is_valid_square self (row + d.1 + d.1) (col + d.2 + d.2)) eqn:Hlv;
    cbn [negb] in H.
  2:{ left. now injection H. }
  inv_bind H. rename x into landing.
  destruct (Z.eqb_spec landing 0) as [->|]; cbn [negb] in H.
  2:{ left. now injection H. }
  inv_bind H. inv_bind H. inv_bind H. inv_bind H. inv_bind H. inv_bind H.
  right. eexists x3, _, x4. split; [|split; [eassumption|]].
  - econstructor; try eassumption; try reflexivity; lia.
  - destruct x4; now injection H.
Qed.

(** Induction over the capture sequences: an invariant [I] of the search
    that every jump keeps gives [P] for every move found. *)
Lemma generate_captures_ind (player : Z)
  (I : Board -> Z -> Z -> list Pos -> Prop) (P : Move -> Prop) :
  (forall b row col caps d nb promo moving,
     I b row col caps ->
     getitem b row col = Ok moving ->
     d ∈ get_move_directions moving (Z.abs moving =? 2) ->
     jump self b row col player (Z.abs moving =? 2) d nb promo ->
     I nb (row + d.1 + d.1) (col + d.2 + d.2) (caps ++ [(row + d.1, col + d.2)])
     /\ P (last_move row col caps d promo)) ->
  forall fuel b row col caps ms,
    I b row col caps ->
    generate_captures_recursive self fuel b row col player caps = Ok ms ->
    Forall P ms.
Proof.
  intros Hstep. induction fuel as [|fuel IH]; intros b row col caps ms HI H.
  - discriminate.
  - cbn [generate_captures_recursive] in H. inv_bind H. rename x into moving.
    eapply flat_mapM_Forall; [|exact H].
    intros d zs Hd Hzs.
    apply capture_step_Ok in Hzs as [->|(nb & promo & more & Hj & Hrec & ->)].
    + constructor.
    + destruct (Hstep _ _ _ _ _ _ _ _ HI E Hd Hj) as [HI' HP].
      destruct more as [|m more].
      * repeat constructor. exact HP.
      * eapply IH; eassumption.
Qed.

(** The cells of the board after a jump. *)
Lemma jump_getitem (b : Board) (row col player : Z) (is_king : bool)
  (d : Z * Z) (nb : Board) (promo : bool) (moving : Z) :
  jump self b row col player is_king d nb promo ->
  getitem b row col = Ok moving -> 0 <= row -> 0 <= col ->
  forall r c, 0 <= r -> 0 <= c ->
    getitem nb r c =
      if decide (r = row + d.1 + d.1 /\ c = col + d.2 + d.2)
      then Ok (if promo then king_of player else moving)
      else if decide (r = row + d.1 /\ c = col + d.2) then Ok 0
      else if decide (r = row /\ c = col) then Ok 0
      else getitem b r c.
Proof.
  intros [jumped moving' b1 b2 b3 Hjv Hj Hnz Hopp Hlv Hl Hm H1 H2 H3 Hp Hnb]
    Hmoving Hrow Hcol r c Hr Hc.
  assert (moving' = moving) as -> by congruence.
  apply is_valid_square_on_board in Hjv as [Hjr Hjc].
  apply is_valid_square_on_board in Hlv as [Hlr Hlc].
  assert (Hne : ~ (row + d.1 + d.1 = row + d.1 /\ col + d.2 + d.2 = col + d.2)).
  { intros [e1 e2]. rewrite e1, e2 in Hl. congruence. }
  assert (Hb3 : getitem b3 r c =
    if decide (r = row + d.1 + d.1 /\ c = col + d.2 + d.2) then Ok moving
    else if decide (r = row + d.1 /\ c = col + d.2) then Ok 0
    else if decide (r = row /\ c = col) then Ok 0
    else getitem b r c).
  { rewrite (getitem_setitem _ _ _ _ _ _ _ H3) by lia.
    rewrite (getitem_setitem _ _ _ _ _ _ _ H2) by lia.
    rewrite (getitem_setitem _ _ _ _ _ _ _ H1) by lia.
    repeat case_decide; try reflexivity; lia. }
  destruct promo.
  - rewrite (getitem_setitem _ _ _ _ _ _ _ Hnb) by lia. rewrite Hb3.
    repeat case_decide; try reflexivity; lia.
  - injection Hnb as <-. exact Hb3.
Qed.

End Jump.

Section JumpValid.

Variable self : CheckersRules.

Lemma setitem_valid_board (n : Z) (b b' : Board) (r c v : Z) :
  valid_board n b = true -> on_board n r c -> valid_cell v = true ->
  setitem b r c v = Ok b' -> valid_board n b' = true.
Proof.
  intros Hb Hrc Hv H.
  destruct (setitem_valid n b r c v Hb Hrc Hv) as (b'' & H' & Hb'').
  congruence.
Qed.

Lemma valid_cell_king_of (player : Z) : valid_cell (king_of player) = true.
Proof. unfold king_of. now destruct (player =? 1). Qed.

(** A jump on a well-formed board gives a well-formed board. *)
Lemma jump_valid_board (b : Board) (row col player : Z) (is_king : bool)
  (d : Z * Z) (nb : Board) (promo : bool) :
  valid_board (board_size self) b = true ->
  on_board (board_size self) row col ->
  jump self b row col player is_king d nb promo ->
  valid_board (board_size self) nb = true.
Proof.
  intros Hb Hrc
    [jumped moving b1 b2 b3 Hjv Hj Hnz Hopp Hlv Hl Hm H1 H2 H3 Hp Hnb].
  apply is_valid_square_on_board in Hjv, Hlv.
  destruct (getitem_valid _ _ _ _ Hb Hrc) as (m' & Hm' & Hvm).
  assert (m' = moving) as -> by congruence.
  pose proof (setitem_valid_board _ _ _ _ _ _ Hb Hlv Hvm H1) as Hb1.
  pose proof (setitem_valid_board _ _ _ _ _ 0 Hb1 Hrc eq_refl H2) as Hb2.
  pose proof (setitem_valid_board _ _ _ _ _ 0 Hb2 Hjv eq_refl H3) as Hb3.
  destruct promo.
  - eapply setitem_valid_board; [exact Hb3|exact Hlv| |exact Hnb].
    apply valid_cell_king_of.
  - now injection Hnb as <-.
Qed.

(** A jump takes one piece off the board; a promotion of an absent piece
    would put one on. *)
Lemma jump_count_pieces (b : Board) (row col player : Z) (is_king : bool)
  (d : Z * Z) (nb : Board) (promo : bool) (moving : Z) :
  jump self b row col player is_king d nb promo ->
  getitem b row col = Ok moving -> 0 <= row -> 0 <= col ->
  (count_pieces nb + nz moving + 1
   = count_pieces b + nz (if promo then king_of player else moving))%nat.
Proof.
  intros [jumped moving' b1 b2 b3 Hjv Hj Hnz Hopp Hlv Hl Hm H1 H2 H3 Hp Hnb]
    Hmoving Hrow Hcol.
  assert (moving' = moving) as -> by congruence.
  apply is_valid_square_on_board in Hjv as [Hjr Hjc].
  apply is_valid_square_on_board in Hlv as [Hlr Hlc].
  assert (Hne : ~ (row + d.1 + d.1 = row + d.1 /\ col + d.2 + d.2 = col + d.2)).
  { intros [e1 e2]. rewrite e1, e2 in Hl. congruence. }
  pose proof (count_pieces_setitem _ _ _ _ _ _ H1 Hl) as C1.
  assert (G1 : getitem b1 row col = Ok moving).
  { rewrite (getitem_setitem _ _ _ _ _ _ _ H1) by lia.
    case_decide; [reflexivity | assumption]. }
  pose proof (count_pieces_setitem _ _ _ _ _ _ H2 G1) as C2.
  assert (G2 : getitem b2 (row + d.1) (col + d.2) = Ok jumped).
  { rewrite (getitem_setitem _ _ _ _ _ _ _ H2) by lia.
    rewrite (getitem_setitem _ _ _ _ _ _ _ H1) by lia.
    repeat case_decide; try assumption; lia. }
  pose proof (count_pieces_setitem _ _ _ _ _ _ H3 G2) as C3.
  assert (G3 : getitem b3 (row + d.1 + d.1) (col + d.2 + d.2) = Ok moving).
  { rewrite (getitem_setitem _ _ _ _ _ _ _ H3) by lia.
    rewrite (getitem_setitem _ _ _ _ _ _ _ H2) by lia.
    rewrite (getitem_setitem _ _ _ _ _ _ _ H1) by lia.
    repeat case_decide; try reflexivity; lia. }
  assert (nz jumped = 1%nat) as Hj1 by (unfold nz; case_decide; [lia|reflexivity]).
  assert (nz 0 = 0%nat) as Hz by reflexivity.
  destruct promo.
  - pose proof (count_pieces_setitem _ _ _ _ _ _ Hnb G3) as C4. lia.
  - injection Hnb as <-. lia.
Qed.

(** On a well-formed board one direction of the loop raises nothing,
    provided the recursive call does not. *)
Lemma capture_step_total
  (recurse : Board -> Z -> Z -> list Pos -> result (list Move))
  (b : Board) (row col player : Z) (caps : list Pos) (is_king : bool)
  (d : Z * Z) :
  valid_board (board_size self) b = true ->
  on_board (board_size self) row col ->
  (forall nb promo, jump self b row col player is_king d nb promo ->
     exists more, recurse nb (row + d.1 + d.1) (col + d.2 + d.2)
                    (caps ++ [(row + d.1, col + d.2)]) = Ok more) ->
  exists ms, capture_step self recurse b row col player caps is_king d = Ok ms.
Proof.
  intros Hb Hrc Hrec. unfold capture_step.
  destruct (is_valid_square self (row + d.1) (col + d.2)) eqn:Hjv; cbn [negb];
    [|eauto].
  pose proof (is_valid_square_on_board _ _ _ Hjv) as Hjo.
  destruct (getitem_valid _ _ _ _ Hb Hjo) as (jumped & Hj & _).
  rewrite Hj. cbn [bind]. unfold EMPTY.
  destruct (Z.eqb_spec jumped 0) as [|Hnz]; cbn [orb]; [eauto|].
  destruct (Z.gtb_spec (jumped * player) 0) as [|Hopp]; [eauto|].
  destruct (is_valid_square self (row + d.1 + d.1) (col + d.2 + d.2)) eqn:Hlv;
    cbn [negb]; [|eauto].
  pose proof (is_valid_square_on_board _ _ _ Hlv) as Hlo.
  destruct (getitem_valid _ _ _ _ Hb Hlo) as (landing & Hl & _).
  rewrite Hl. cbn [bind].
  destruct (Z.eqb_spec landing 0) as [->|]; cbn [negb]; [|eauto].
  destruct (getitem_valid _ _ _ _ Hb Hrc) as (moving & Hm & Hvm).
  rewrite Hm. cbn [bind].
  destruct (setitem_valid _ _ _ _ _ Hb Hlo Hvm) as (b1 & H1 & Hb1).
  rewrite H1. cbn [bind].
  destruct (setitem_valid _ _ _ _ 0 Hb1 Hrc eq_refl) as (b2 & H2 & Hb2).
  rewrite H2. cbn [bind].
  destruct (setitem_valid _ _ _ _ 0 Hb2 Hjo eq_refl) as (b3 & H3 & Hb3).
  rewrite H3. cbn [bind].
  set (promo := if negb is_king then _ else false).
  assert (exists nb, (if promo
            then setitem b3 (row + d.1 + d.1) (col + d.2 + d.2) (king_of player)
            else Ok b3) = Ok nb) as [nb Hnb].
  { destruct promo; [|eauto].
    destruct (setitem_valid _ _ _ _ _ Hb3 Hlo (valid_cell_king_of player))
      as (nb & Hnb & _). eauto. }
  rewrite Hnb. cbn [bind].
  destruct (Hrec nb promo) as [more Hmore].
  { econstructor; try eassumption; try reflexivity; lia. }
  rewrite Hmore. cbn [bind]. destruct more; eauto.
Qed.

(** With more fuel than there are pieces besides the moving one, the search
    of the capture sequences raises nothing on a well-formed board. *)
Lemma generate_captures_total (player : Z) (fuel : nat) :
  forall (b : Board) (row col : Z) (caps : list Pos) (moving : Z),
    valid_board (board_size self) b = true ->
    on_board (board_size self) row col ->
    getitem b row col = Ok moving ->
    (count_pieces b < fuel + nz moving)%nat ->
    exists ms,
      generate_captures_recursive self fuel b row col player caps = Ok ms.
Proof.
  induction fuel as [|fuel IH]; intros b row col caps moving Hb Hrc Hm Hcount.
  - (* no fuel: the bound leaves no room for a jump, but none is made *)
    exfalso. unfold nz in Hcount. case_decide; [lia|].
    assert (count_pieces b = 0)%nat as Hz by lia.
    clear Hcount. revert Hm Hz. unfold getitem, count_pieces.
    destruct (norm_index (length b) row) as [i| |]; try discriminate.
    cbn [bind]. destruct (b !! i) as [r|] eqn:Hr; [|discriminate].
    destruct (norm_index (length r) col) as [j| |]; try discriminate.
    cbn [bind]. destruct (r !! j) as [v|] eqn:Hv; [|discriminate].
    intros [= ->] Hsum.
    pose proof (count_pieces_insert b i r [] Hr) as C.
    pose proof (count_row_insert r j moving 0 Hv) as C'.
    unfold count_pieces in C. unfold nz in C'.
    repeat case_decide; try lia. cbn in C. lia.
  - cbn [generate_captures_recursive]. rewrite Hm. cbn [bind].
    apply flat_mapM_total. intros d Hd.
    apply capture_step_total; [assumption..|].
    intros nb promo Hj.
    destruct Hrc as [Hr Hc].
    pose proof (jump_count_pieces _ _ _ _ _ _ _ _ _ Hj Hm ltac:(lia) ltac:(lia))
      as Hcnt.
    pose proof (jump_getitem self _ _ _ _ _ _ _ _ _ Hj Hm ltac:(lia) ltac:(lia)
                  (row + d.1 + d.1) (col + d.2 + d.2)) as Hnew.
    pose proof (jump_valid_board _ _ _ _ _ _ _ _ Hb (conj Hr Hc) Hj) as Hnb.
    destruct Hj as [jumped moving' b1 b2 b3 Hjv _ _ _ Hlv _ _ _ _ _ _ _].
    pose proof (is_valid_square_on_board _ _ _ Hlv) as Hlo.
    rewrite decide_True in Hnew by (split; reflexivity).
    pose proof Hlo as [Hlr Hlc].
    eapply IH; [exact Hnb | exact Hlo | apply Hnew; lia | lia].
Qed.

End JumpValid.

(** ** More fuel changes nothing *)

Section Fuel.

Variable self : CheckersRules.

Lemma flat_mapM_mono {A B : Type} (f g : A -> result (list B)) (l : list A)
  (ys : list B) :
  (forall x zs, x ∈ l -> f x = Ok zs -> g x = Ok zs) ->
  flat_mapM f l = Ok ys -> flat_mapM g l = Ok ys.
Proof.
  revert ys. induction l as [|x xs IH]; cbn [flat_mapM]; intros ys Hfg H.
  - exact H.
  - inv_bind H. inv_bind H. injection H as <-.
    rewrite (Hfg x x0) by (left || assumption). cbn [bind].
    rewrite (IH x1); [reflexivity| |assumption].
    intros y zs Hy. apply Hfg. now right.
Qed.

Lemma capture_step_mono
  (rec1 rec2 : Board -> Z -> Z -> list Pos -> result (list Move))
  (b : Board) (row col player : Z) (caps : list Pos) (is_king : bool)
  (d : Z * Z) (ms : list Move) :
  (forall nb r c cs more, rec1 nb r c cs = Ok more -> rec2 nb r c cs = Ok more) ->
  capture_step self rec1 b row col player caps is_king d = Ok ms ->
  capture_step self rec2 b row col player caps is_king d = Ok ms.
Proof.
  intros Hrec. unfold capture_step.
  destruct (negb (is_valid_square self (row + d.1) (col + d.2))); [tauto|].
  destruct (getitem b (row + d.1) (col + d.2)) as [jumped| |]; cbn [bind];
    [|tauto..].
  destruct ((jumped =? EMPTY) || (jumped * player >? 0)); [tauto|].
  destruct (negb (is_valid_square self (row + d.1 + d.1) (col + d.2 + d.2)));
    [tauto|].
  destruct (getitem b (row + d.1 + d.1) (col + d.2 + d.2)) as [landing| |];
    cbn [bind]; [|tauto..].
  destruct (negb (landing =? EMPTY)); [tauto|].
  destruct (getitem b row col) as [moving| |]; cbn [bind]; [|tauto..].
  destruct (setitem b _ _ moving) as [b1| |]; cbn [bind]; [|tauto..].
  destruct (setitem b1 _ _ EMPTY) as [b2| |]; cbn [bind]; [|tauto..].
  destruct (setitem b2 _ _ EMPTY) as [b3| |]; cbn [bind]; [|tauto..].
  destruct (if (if negb is_king then _ else false) then _ else Ok b3)
    as [nb| |]; cbn [bind]; [|tauto..].
  destruct (rec1 nb _ _ _) as [more| |] eqn:H1; cbn [bind]; [|discriminate..].
  rewrite (Hrec _ _ _ _ _ H1). tauto.
Qed.

Lemma generate_captures_fuel_mono (player : Z) (fuel fuel' : nat) :
  (fuel <= fuel')%nat ->
  forall b row col caps ms,
    generate_captures_recursive self fuel b row col player caps = Ok ms ->
    generate_captures_recursive self fuel' b row col player caps = Ok ms.
Proof.
  revert fuel'. induction fuel as [|fuel IH]; intros fuel' Hle b row col caps ms H.
  - discriminate.
  - destruct fuel' as [|fuel']; [lia|].
    cbn [generate_captures_recursive] in *.
    destruct (getitem b row col) as [moving| |]; cbn [bind] in *;
      [|discriminate..].
    eapply flat_mapM_mono; [|exact H].
    intros d zs _. apply capture_step_mono.
    intros nb r c cs more. apply IH. lia.
Qed.

(** [get_capture_moves] gives the search all the fuel it can use: on a
    well-formed board it raises nothing, and any larger fuel gives the same
    moves. *)
Lemma capture_fuel_sufficient (b : Board) (row col player : Z) :
  valid_board (board_size self) b = true ->
  on_board (board_size self) row col ->
  exists ms,
    get_capture_moves self b row col player = Ok ms
    /\ forall fuel, (count_pieces b < fuel)%nat ->
         generate_captures_recursive self fuel b row col player [] = Ok ms.
Proof.
  intros Hb Hrc.
  destruct (getitem_valid _ _ _ _ Hb Hrc) as (moving & Hm & _).
  destruct (generate_captures_total self player (S (count_pieces b))
              b row col [] moving Hb Hrc Hm ltac:(lia)) as [ms Hms].
  exists ms. split; [exact Hms|].
  intros fuel Hfuel. eapply generate_captures_fuel_mono; [|exact Hms]. lia.
Qed.

End Fuel.

(** ** The moves of a position *)

Section LegalMoves.

Variable self : CheckersRules.

Lemma get_simple_moves_total (b : Board) (row col player : Z) :
  valid_board (board_size self) b = true ->
  on_board (board_size self) row col ->
  exists ms, get_simple_moves self b row col player = Ok ms.
Proof.
  intros Hb Hrc. unfold get_simple_moves.
  destruct (getitem_valid _ _ _ _ Hb Hrc) as (moving & -> & _). cbn [bind].
  apply flat_mapM_total. intros d _.
  destruct (is_valid_square self (row + d.1) (col + d.2)) eqn:Hv; cbn [negb];
    [|eauto].
  apply is_valid_square_on_board in Hv.
  destruct (getitem_valid _ _ _ _ Hb Hv) as (target & -> & _). cbn [bind].
  destruct (target =? EMPTY); eauto.
Qed.

(** A simple move goes from the piece to an empty neighbour, captures
    nothing, and promotes exactly a man that reaches its last row. *)
Lemma get_simple_moves_spec (b : Board) (row col player : Z) (ms : list Move) :
  get_simple_moves self b row col player = Ok ms ->
  Forall (fun m =>
    from_pos m = (row, col) /\ captures m = []
    /\ is_valid_square self (to_pos m).1 (to_pos m).2 = true
    /\ getitem b (to_pos m).1 (to_pos m).2 = Ok 0
    /\ exists moving, getitem b row col = Ok moving
         /\ promotion m =
              negb (Z.abs moving =? 2)
              && (((player =? 1) && ((to_pos m).1 =? board_size self - 1))
                  || ((player =? -1) && ((to_pos m).1 =? 0)))) ms.
Proof.
  unfold get_simple_moves. intros H. inv_bind H. rename x into moving.
  eapply flat_mapM_Forall; [|exact H].
  intros d zs _ Hzs. cbv beta in Hzs.
  destruct (is_valid_square self (row + d.1) (col + d.2)) eqn:Hv;
    cbn [negb] in Hzs.
  2:{ injection Hzs as <-. constructor. }
  inv_bind Hzs. unfold EMPTY in *.
  destruct (Z.eqb_spec x 0) as [->|].
  2:{ injection Hzs as <-. constructor. }
  injection Hzs as <-. repeat constructor; cbn; try assumption.
  exists moving. split; [assumption|].
  destruct (Z.abs moving =? 2), (player =? 1), (player =? -1),
    (row + d.1 =? board_size self - 1), (row + d.1 =? 0); reflexivity.
Qed.

Lemma generate_captures_applicable (player : Z) (fuel : nat) (b : Board)
  (row col : Z) (ms : list Move) :
  on_board (board_size self) row col ->
  generate_captures_recursive self fuel b row col player [] = Ok ms ->
  Forall (fun m => applicable (board_size self) m /\ captures m <> []) ms.
Proof.
  intros Hrc H.
  eapply (generate_captures_ind self player
            (fun _ r c caps => on_board (board_size self) r c
               /\ Forall (fun q : Pos => on_board (board_size self) q.1 q.2) caps));
    [|split; [exact Hrc|constructor]|exact H].
  clear. intros b row col caps d nb promo moving [Hrc Hcaps] _ _ Hj.
  destruct Hj as [jumped moving' b1 b2 b3 Hjv _ _ _ Hlv _ _ _ _ _ _ _].
  apply is_valid_square_on_board in Hjv, Hlv.
  assert (Forall (fun q : Pos => on_board (board_size self) q.1 q.2)
            (caps ++ [(row + d.1, col + d.2)])) as Hcaps'.
  { apply Forall_app. split; [assumption|]. repeat constructor; apply Hjv. }
  repeat split; try assumption; try apply Hrc; try apply Hlv.
  cbn. now destruct caps.
Qed.

Lemma piece_moves_total (b : Board) (player : Z) (sq : Pos) :
  valid_board (board_size self) b = true ->
  exists p, piece_moves self b player sq = Ok p.
Proof.
  intros Hb. unfold piece_moves.
  destruct (is_valid_square self sq.1 sq.2) eqn:Hv; cbn [negb]; [|eauto].
  apply is_valid_square_on_board in Hv.
  destruct (getitem_valid _ _ _ _ Hb Hv) as (piece & -> & _). cbn [bind].
  destruct (piece =? 0); [eauto|].
  destruct ((player =? 1) && (piece >? 0) || (player =? -1) && (piece <? 0));
    [|eauto].
  destruct (get_simple_moves_total b sq.1 sq.2 player Hb Hv) as [sm ->].
  destruct (capture_fuel_sufficient self b sq.1 sq.2 player Hb Hv)
    as (cm & -> & _).
  cbn [bind]. eauto.
Qed.

(** What the loop of [get_legal_moves] collects for one square. *)
Lemma piece_moves_Ok (b : Board) (player : Z) (sq : Pos)
  (p : list Move * list Move) :
  piece_moves self b player sq = Ok p ->
  p = ([], []) \/
  exists piece,
    is_valid_square self sq.1 sq.2 = true
    /\ getitem b sq.1 sq.2 = Ok piece
    /\ (player = 1 /\ piece > 0 \/ player = -1 /\ piece < 0)
    /\ get_simple_moves self b sq.1 sq.2 player = Ok p.1
    /\ get_capture_moves self b sq.1 sq.2 player = Ok p.2.
Proof.
  unfold piece_moves. intros H.
  destruct (is_valid_square self sq.1 sq.2) eqn:Hv; cbn [negb] in H.
  2:{ left. now injection H. }
  inv_bind H. rename x into piece.
  destruct (piece =? 0). { left. now injection H. }
  destruct (Z.eqb_spec player 1), (Z.gtb_spec piece 0),
    (Z.eqb_spec player (-1)), (Z.ltb_spec piece 0); cbn in H;
    try (left; now injection H);
    (inv_bind H; inv_bind H; injection H as <-; right; exists piece; cbn;
     repeat split; try assumption; lia).
Qed.

Lemma collect_moves_total (b : Board) (player : Z) :
  valid_board (board_size self) b = true ->
  exists collected, collect_moves self b player = Ok collected.
Proof.
  intros Hb. apply gatherM_total. intros sq _. now apply piece_moves_total.
Qed.

Lemma collect_moves_applicable (b : Board) (player : Z)
  (collected : list Move * list Move) :
  collect_moves self b player = Ok collected ->
  Forall (fun m => applicable (board_size self) m /\ captures m = [])
    collected.1
  /\ Forall (fun m => applicable (board_size self) m /\ captures m <> [])
       collected.2.
Proof.
  apply gatherM_Forall. intros sq p _ Hp.
  apply piece_moves_Ok in Hp
    as [->|(piece & Hv & Hpiece & _ & Hs & Hc)]; [split; constructor|].
  pose proof (is_valid_square_on_board _ _ _ Hv) as Ho.
  split.
  - apply get_simple_moves_spec in Hs.
    eapply Forall_impl; [exact Hs|]. cbn.
    intros m (Hfrom & Hcap & Hto & _). split; [|assumption].
    unfold applicable. rewrite Hfrom, Hcap. cbn.
    apply is_valid_square_on_board in Hto. repeat split; try apply Ho; try apply Hto.
    constructor.
  - eapply generate_captures_applicable; eassumption.
Qed.

(** The three outcomes of the policy of [get_legal_moves]. *)
Lemma get_legal_moves_Ok (b : Board) (player : Z) (ms : list Move) :
  get_legal_moves self b player = Ok ms <->
  exists collected,
    collect_moves self b player = Ok collected
    /\ ms = if capture_forced self && negb (bool_decide (collected.2 = []))
            then if prefer_longest_capture self
                 then filter (fun m => capture_count m = max_captures collected.2)
                        collected.2
                 else collected.2
            else collected.1.
Proof.
  unfold get_legal_moves. rewrite bind_Ok.
  split; intros (collected & Hc & H); exists collected; (split; [exact Hc|]).
  - destruct (capture_forced self && _), (prefer_longest_capture self);
      now injection H.
  - destruct (capture_forced self && _), (prefer_longest_capture self);
      now subst.
Qed.

Lemma get_legal_moves_total (b : Board) (player : Z) :
  valid_board (board_size self) b = true ->
  exists ms, get_legal_moves self b player = Ok ms.
Proof.
  intros Hb. destruct (collect_moves_total b player Hb) as [collected Hc].
  eexists. apply get_legal_moves_Ok. eauto.
Qed.

Lemma get_legal_moves_applicable (b : Board) (player : Z) (ms : list Move) :
  get_legal_moves self b player = Ok ms ->
  Forall (applicable (board_size self)) ms.
Proof.
  intros (collected & Hc & ->)%get_legal_moves_Ok.
  destruct (collect_moves_applicable _ _ _ Hc) as [H1 H2].
  assert (Forall (applicable (board_size self)) collected.1) as H1'
    by (eapply Forall_impl; [exact H1|]; cbn; tauto).
  assert (Forall (applicable (board_size self)) collected.2) as H2'
    by (eapply Forall_impl; [exact H2|]; cbn; tauto).
  destruct (capture_forced self && _), (prefer_longest_capture self);
    try assumption.
  rewrite Forall_forall in H2' |- *.
  intros m [_ Hm]%list_elem_of_filter. now apply H2'.
Qed.

End LegalMoves.

(** ** Applying a move *)

Lemma apply_move_total (n : Z) (b : Board) (m : Move) (player : Z) :
  valid_board n b = true -> applicable n m ->
  exists b', apply_move b m player = Ok b' /\ valid_board n b' = true.
Proof.
  intros Hb (Hfrom & Hto & Hcaps). unfold apply_move.
  destruct (foldM_total (fun b1 => valid_board n b1 = true)
              (fun b1 (cap : Pos) => setitem b1 cap.1 cap.2 EMPTY)
              (captures m) b) as (b1 & -> & Hb1); [|assumption|].
  { intros t q Hq Ht. apply setitem_valid; [assumption| |reflexivity].
    rewrite Forall_forall in Hcaps. now apply Hcaps. }
  cbn [bind].
  destruct (getitem_valid _ _ _ _ Hb1 Hfrom) as (piece & -> & Hpiece).
  cbn [bind].
  destruct (setitem_valid _ _ _ _ _ Hb1 Hto Hpiece) as (b2 & -> & Hb2).
  cbn [bind].
  destruct (setitem_valid _ _ _ _ EMPTY Hb2 Hfrom eq_refl) as (b3 & -> & Hb3).
  cbn [bind].
  destruct (promotion m); [|eauto].
  destruct (player =? 1); apply setitem_valid; auto.
Qed.

(** ** Captures are distinct opponent pieces *)

Section Captures.

Variable self : CheckersRules.

Lemma generate_captures_distinct (player : Z) (fuel : nat) (b : Board)
  (row col piece : Z) (ms : list Move) :
  player = 1 \/ player = -1 ->
  0 <= row -> 0 <= col ->
  getitem b row col = Ok piece -> piece * player > 0 ->
  generate_captures_recursive self fuel b row col player [] = Ok ms ->
  Forall (fun m => NoDup (captures m)
                   /\ Forall (opponent_piece b player) (captures m)) ms.
Proof.
  intros Hplayer Hrow Hcol Hpiece Hown H.
  eapply (generate_captures_ind self player
    (fun b' r c caps =>
       0 <= r /\ 0 <= c
       /\ (exists mv, getitem b' r c = Ok mv /\ mv * player > 0)
       /\ NoDup caps
       /\ (forall q : Pos, q ∈ caps ->
             0 <= q.1 /\ 0 <= q.2 /\ opponent_piece b player q
             /\ (getitem b' q.1 q.2 = Ok 0 \/ q = (r, c)))
       /\ (forall r' c' v, 0 <= r' -> 0 <= c' ->
             getitem b' r' c' = Ok v -> v * player < 0 ->
             getitem b r' c' = Ok v)));
    [|split; [exact Hrow|]; split; [exact Hcol|]; split; [eauto|];
      split; [apply NoDup_nil_2|];
      split; [intros q Hq; now apply elem_of_nil in Hq|intros; assumption]
     |exact H].
  clear fuel row col piece ms Hrow Hcol Hpiece Hown H.
  intros b' row col caps d nb promo moving
    (Hrow & Hcol & (mv & Hmv & Hown) & Hnd & Hcaps & Hopp) Hm _ Hj.
  assert (mv = moving) as -> by congruence.
  pose proof (jump_getitem self _ _ _ _ _ _ _ _ _ Hj Hm Hrow Hcol) as G.
  destruct Hj as [jumped moving' b1 b2 b3 Hjv Hjp Hnz Hnown Hlv Hl _ _ _ _ _ _].
  apply is_valid_square_on_board in Hjv as [Hjr Hjc].
  apply is_valid_square_on_board in Hlv as [Hlr Hlc].
  assert (Hjopp : jumped * player < 0) by (destruct Hplayer; subst; lia).
  assert (Hking : king_of player * player > 0)
    by (destruct Hplayer; subst; reflexivity).
  assert (Hnotin : (row + d.1, col + d.2) ∉ caps).
  { intros Hin. destruct (Hcaps _ Hin) as (_ & _ & _ & [Hz|Heq]); cbn in *.
    - congruence.
    - injection Heq as Hr Hc. rewrite Hr, Hc in Hjp. 
      assert (jumped = moving) by congruence. subst. lia. }
  assert (Hdist : ~ (row + d.1 + d.1 = row + d.1 /\ col + d.2 + d.2 = col + d.2)).
  { intros [e1 e2]. rewrite e1, e2 in Hl. congruence. }
  assert (Hnew : NoDup (caps ++ [(row + d.1, col + d.2)])
    /\ forall q : Pos, q ∈ caps ++ [(row + d.1, col + d.2)] ->
         0 <= q.1 /\ 0 <= q.2 /\ opponent_piece b player q
         /\ (getitem nb q.1 q.2 = Ok 0
             \/ q = (row + d.1 + d.1, col + d.2 + d.2))).
  { split.
    - apply NoDup_app. split; [assumption|]. split; [|apply NoDup_singleton].
      intros q Hq ->%list_elem_of_singleton. contradiction.
    - intros q [Hq| ->%list_elem_of_singleton]%elem_of_app.
      + destruct (Hcaps _ Hq) as (Hq1 & Hq2 & Hqo & Hqz).
        repeat split; try assumption.
        rewrite G by assumption. destruct q as [qr qc]; cbn in *.
        repeat case_decide; auto.
        * right. f_equal; lia.
        * destruct Hqz as [Hz|Heq]; [now left|]. injection Heq; lia.
      + cbn. repeat split; try lia.
        * exists jumped. split; [|assumption]. cbn.
          apply Hopp; try assumption; lia.
        * left. rewrite G by lia. repeat case_decide; try reflexivity; lia. }
  destruct Hnew as [Hnd' Hcaps'].
  split.
  - split; [lia|]. split; [lia|]. split.
    { exists (if promo then king_of player else moving). split.
      - rewrite G by lia. now rewrite decide_True by tauto.
      - destruct promo; assumption. }
    split; [assumption|]. split; [assumption|].
    intros r' c' v Hr' Hc' Hv Hvopp. rewrite G in Hv by assumption.
    repeat case_decide; try (injection Hv as <-; destruct promo; lia).
    now apply Hopp.
  - cbn. split; [assumption|].
    apply Forall_forall. intros q Hq. now apply Hcaps'.
Qed.

End Captures.

(** ** The policy of [get_legal_moves] *)

Section Policy.

Variable self : CheckersRules.


Lemma max_captures_attained (l : list Move) :
  l <> [] -> exists m, m ∈ l /\ capture_count m = max_captures l.
Proof.
  unfold max_captures. induction l as [|x l IH]; intros Hne; [congruence|].
  destruct l as [|y l].
  - exists x. split; [left|]. cbn. lia.
  - destruct IH as (m & Hm & Hmax); [congruence|].
    cbn [fmap list_fmap foldr] in *.
    destruct (Nat.max_spec (capture_count x)
                (Nat.max (capture_count y) (foldr Nat.max 0%nat (capture_count <$> l))))
      as [[_ ->]|[_ ->]].
    + exists m. split; [now right|exact Hmax].
    + exists x. split; [left|reflexivity].
Qed.

Lemma collect_moves_distinct (b : Board) (player : Z)
  (collected : list Move * list Move) :
  player = 1 \/ player = -1 ->
  collect_moves self b player = Ok collected ->
  let good m := NoDup (captures m)
                /\ Forall (opponent_piece b player) (captures m) in
  Forall good collected.1 /\ Forall good collected.2.
Proof.
  intros Hplayer H good. revert H.
  apply gatherM_Forall. intros sq p _ Hp.
  apply piece_moves_Ok in Hp
    as [->|(piece & Hv & Hpiece & Hsign & Hs & Hc)]; [split; constructor|].
  pose proof (is_valid_square_on_board _ _ _ Hv) as [Hr Hcl].
  split.
  - apply get_simple_moves_spec in Hs.
    eapply Forall_impl; [exact Hs|]. cbn.
    intros m (_ & Hcap & _). unfold good. rewrite Hcap.
    split; [apply NoDup_nil_2 | constructor].
  - eapply generate_captures_distinct; try exact Hc; try eassumption; lia.
Qed.

End Policy.

(** What [get_legal_moves] returns when captures are forced and there is
    one. *)
Lemma forced_capture_policy (self : CheckersRules) (b : Board) (player : Z)
  (all_moves capture_moves : list Move) :
  capture_forced self = true ->
  collect_moves self b player = Ok (all_moves, capture_moves) ->
  capture_moves <> [] ->
  exists ms,
    get_legal_moves self b player = Ok ms
    /\ ms <> []
    /\ Forall (fun m => captures m <> []) ms.
Proof.
  intros Hforced Hcollect Hne.
  destruct (collect_moves_applicable self _ _ _ Hcollect) as [_ Hcaps].
  cbn [fst snd] in Hcaps.
  assert (Hcaps' : Forall (fun m => captures m <> []) capture_moves)
    by (eapply Forall_impl; [exact Hcaps|]; cbn beta; tauto).
  exists (if prefer_longest_capture self
          then filter (fun m => capture_count m = max_captures capture_moves)
                 capture_moves
          else capture_moves).
  split.
  { apply get_legal_moves_Ok. exists (all_moves, capture_moves).
    split; [assumption|]. cbn [fst snd].
    now rewrite Hforced, bool_decide_eq_false_2 by assumption. }
  destruct (prefer_longest_capture self); [|split; assumption].
  split.
  - destruct (max_captures_attained capture_moves Hne) as (m & Hm & Hmax).
    intros Hnil.
    assert (m ∈ filter (fun m => capture_count m = max_captures capture_moves)
                  capture_moves) as Hin
      by (apply list_elem_of_filter; auto).
    rewrite Hnil in Hin. now apply elem_of_nil in Hin.
  - rewrite Forall_forall in Hcaps' |- *.
    intros m [_ Hm]%list_elem_of_filter. now apply Hcaps'.
Qed.

(** C4. Forced capture: when captures are forced and the player has a
    capture sequence, [get_legal_moves] returns capture moves only. *)
Theorem forced_capture_only (self : CheckersRules) (b : Board) (player : Z)
  (all_moves capture_moves : list Move) :
  valid_board (board_size self) b = true ->
  capture_forced self = true ->
  collect_moves self b player = Ok (all_moves, capture_moves) ->
  capture_moves <> [] ->
  exists ms,
    get_legal_moves self b player = Ok ms
    /\ ms <> []
    /\ Forall (fun m => captures m <> []) ms.
Proof. intros _. apply forced_capture_policy. Qed.

Lemma forced_capture_only_witness :
  exists ms,
    get_legal_moves default_rules board_of_one_jump 1 = Ok ms
    /\ ms <> []
    /\ Forall (fun m => captures m <> []) ms.
Proof.
  apply (forced_capture_only default_rules board_of_one_jump 1
           [mkMove (2, 1) (3, 0) [] false]
           [mkMove (2, 1) (4, 3) [(3, 2)] false]).
  - reflexivity.
  - reflexivity.
  - vm_compute. reflexivity.
  - discriminate.
Defined.



(** C10. The captures of a legal move are pairwise distinct squares, each
    holding a piece of the opponent on the board the move was generated
    for. *)
Theorem captures_distinct_opponent_pieces (self : CheckersRules) (b : Board)
  (player : Z) :
  valid_board (board_size self) b = true ->
  player = 1 \/ player = -1 ->
  exists ms,
    get_legal_moves self b player = Ok ms
    /\ Forall (fun m => NoDup (captures m)
                        /\ Forall (opponent_piece b player) (captures m)) ms.
Proof.
  intros Hb Hplayer.
  destruct (get_legal_moves_total self b player Hb) as [ms Hms].
  exists ms. split; [assumption|].
  apply get_legal_moves_Ok in Hms as (collected & Hc & ->).
  destruct (collect_moves_distinct self _ _ _ Hplayer Hc) as [H1 H2].
  destruct (capture_forced self && _), (prefer_longest_capture self);
    try assumption.
  rewrite Forall_forall in H2 |- *.
  intros m [_ Hm]%list_elem_of_filter. now apply H2.
Qed.

Lemma captures_distinct_opponent_pieces_witness :
  exists ms,
    get_legal_moves default_rules board_of_two_jumps 1 = Ok ms
    /\ Forall (fun m => NoDup (captures m)
                        /\ Forall (opponent_piece board_of_two_jumps 1)
                             (captures m)) ms.
Proof.
  apply (captures_distinct_opponent_pieces default_rules board_of_two_jumps 1).
  - reflexivity.
  - left. reflexivity.
Defined.

(** ** Conservation of pieces *)

(** The loop of [apply_move] over the captures. *)
Lemma clear_captures (n : Z) (caps : list Pos) :
  forall b : Board,
    valid_board n b = true ->
    Forall (fun q : Pos => on_board n q.1 q.2) caps ->
    NoDup caps ->
    Forall (fun q : Pos => exists v, getitem b q.1 q.2 = Ok v /\ v <> 0) caps ->
    exists b1,
      foldM (fun b0 (cap : Pos) => setitem b0 cap.1 cap.2 EMPTY) b caps = Ok b1
      /\ valid_board n b1 = true
      /\ (count_pieces b1 + length caps = count_pieces b)%nat
      /\ forall r c, 0 <= r -> 0 <= c ->
           getitem b1 r c = if decide ((r, c) ∈ caps) then Ok 0
                            else getitem b r c.
Proof.
  induction caps as [|q caps IH]; intros b Hb Hon Hnd Hocc.
  - exists b. cbn [foldM]. split; [reflexivity|]. split; [assumption|].
    split; [cbn; lia|]. intros r c _ _. rewrite decide_False; [reflexivity|]. apply not_elem_of_nil.
  - apply Forall_cons in Hon as [Hq Hon].
    apply NoDup_cons in Hnd as [Hnotin Hnd].
    apply Forall_cons in Hocc as [(v & Hv & Hvnz) Hocc].
    destruct (setitem_valid n b q.1 q.2 EMPTY Hb Hq eq_refl) as (b0 & Hset & Hb0).
    cbn [foldM]. rewrite Hset. cbn [bind].
    destruct Hq as [Hq1 Hq2].
    destruct (IH b0 Hb0 Hon Hnd) as (b1 & Hfold & Hb1 & Hcount & Hget).
    { rewrite Forall_forall in Hocc, Hon |- *. intros p Hp.
      destruct (Hocc p Hp) as (w & Hw & Hwnz). exists w. split; [|assumption].
      destruct (Hon p Hp) as [Hp1 Hp2].
      rewrite (getitem_setitem _ _ _ _ _ _ _ Hset) by lia.
      rewrite decide_False; [assumption|].
      intros [e1 e2]. apply Hnotin. destruct p, q; cbn in *. now subst. }
    exists b1. split; [assumption|]. split; [assumption|]. split.
    + pose proof (count_pieces_setitem _ _ _ _ _ _ Hset Hv) as C.
      unfold EMPTY, nz in C. repeat case_decide; try lia. cbn [length]. lia.
    + intros r c Hr Hc. rewrite Hget by assumption.
      rewrite (getitem_setitem _ _ _ _ _ _ _ Hset) by lia.
      destruct q as [qr qc]; cbn [fst snd] in *.
      destruct (decide ((r, c) ∈ caps)) as [Hin|Hnin].
      * rewrite decide_True by now right. reflexivity.
      * destruct (decide (qr = r /\ qc = c)) as [[-> ->]|Hne].
        -- rewrite decide_True by left. reflexivity.
        -- rewrite decide_False; [reflexivity|].
           intros [Heq|Hin]%elem_of_cons; [|contradiction].
           injection Heq as -> ->. tauto.
Qed.

(** X22. What [apply_move] does with a move in order: a move whose squares
    are on the board, that starts on a piece, ends on an empty square and
    captures pairwise distinct pieces other than the moving one, takes
    exactly its captures off the board and carries the moving piece, as it
    is or as the king of [player], to its destination; every other cell is
    unchanged. *)
Theorem apply_move_conserves_pieces (n : Z) (b : Board) (m : Move)
  (player piece : Z) :
  valid_board n b = true ->
  applicable n m ->
  getitem b (from_pos m).1 (from_pos m).2 = Ok piece -> piece <> 0 ->
  getitem b (to_pos m).1 (to_pos m).2 = Ok 0 ->
  NoDup (captures m) ->
  from_pos m ∉ captures m ->
  Forall (fun q : Pos => exists v, getitem b q.1 q.2 = Ok v /\ v <> 0)
    (captures m) ->
  exists b',
    apply_move b m player = Ok b'
    /\ (count_pieces b' + length (captures m) = count_pieces b)%nat
    /\ getitem b' (from_pos m).1 (from_pos m).2 = Ok 0
    /\ getitem b' (to_pos m).1 (to_pos m).2 =
         Ok (if promotion m
             then if player =? 1 then PLAYER1_KING else PLAYER2_KING
             else piece)
    /\ (forall q : Pos, q ∈ captures m -> getitem b' q.1 q.2 = Ok 0)
    /\ (forall r c, 0 <= r -> 0 <= c ->
          (r, c) <> from_pos m -> (r, c) <> to_pos m -> (r, c) ∉ captures m ->
          getitem b' r c = getitem b r c).
Proof.
  intros Hb (Hfrom & Hto & Hon) Hpiece Hnz Hempty Hnd Hfromnot Hocc.
  destruct (clear_captures n (captures m) b Hb Hon Hnd Hocc)
    as (b1 & Hfold & Hb1 & Hcount & Hget).
  unfold apply_move. rewrite Hfold. cbn [bind].
  destruct (from_pos m) as [fr fc] eqn:Efrom, (to_pos m) as [tr tc] eqn:Eto.
  cbn [fst snd] in *.
  destruct Hfrom as [Hfr Hfc], Hto as [Htr Htc].
  assert (Htonot : (tr, tc) ∉ captures m).
  { intros Hin. rewrite Forall_forall in Hocc.
    destruct (Hocc _ Hin) as (v & Hv & Hvnz). cbn in Hv. congruence. }
  assert (Hft : ~ (tr = fr /\ tc = fc)).
  { intros [-> ->]. congruence. }
  assert (G1f : getitem b1 fr fc = Ok piece).
  { rewrite Hget by lia. now rewrite decide_False. }
  assert (G1t : getitem b1 tr tc = Ok 0).
  { rewrite Hget by lia. now rewrite decide_False. }
  rewrite G1f. cbn [bind].
  assert (valid_cell piece = true) as Hvp.
  { destruct (getitem_valid n b1 fr fc Hb1 (conj Hfr Hfc)) as (p' & Hp' & Hv).
    congruence. }
  destruct (setitem_valid n b1 tr tc piece Hb1 (conj Htr Htc) Hvp)
    as (b2 & H2 & Hb2).
  rewrite H2. cbn [bind].
  destruct (setitem_valid n b2 fr fc EMPTY Hb2 (conj Hfr Hfc) eq_refl)
    as (b3 & H3 & Hb3).
  rewrite H3. cbn [bind].
  pose proof (count_pieces_setitem _ _ _ _ _ _ H2 G1t) as C2.
  assert (G2f : getitem b2 fr fc = Ok piece).
  { rewrite (getitem_setitem _ _ _ _ _ _ _ H2) by lia.
    now rewrite decide_False. }
  pose proof (count_pieces_setitem _ _ _ _ _ _ H3 G2f) as C3.
  assert (G3 : forall r c, 0 <= r -> 0 <= c ->
    getitem b3 r c =
      if decide (fr = r /\ fc = c) then Ok 0
      else if decide (tr = r /\ tc = c) then Ok piece
      else if decide ((r, c) ∈ captures m) then Ok 0
      else getitem b r c).
  { intros r c Hr Hc.
    rewrite (getitem_setitem _ _ _ _ _ _ _ H3) by lia.
    rewrite (getitem_setitem _ _ _ _ _ _ _ H2) by lia.
    now rewrite Hget by lia. }
  assert (nz piece = 1%nat) as Hnzp
    by (unfold nz; case_decide; [contradiction|reflexivity]).
  assert (nz 0 = 0%nat) as Hnz0 by reflexivity.
  unfold EMPTY in *.
  set (king := if player =? 1 then PLAYER1_KING else PLAYER2_KING).
  assert (Hking : valid_cell king = true /\ nz king = 1%nat)
    by (unfold king; destruct (player =? 1); split; reflexivity).
  destruct Hking as [Hvk Hnzk].
  assert (exists b',
    (if promotion m
     then if player =? 1 then setitem b3 tr tc PLAYER1_KING
          else setitem b3 tr tc PLAYER2_KING
     else Ok b3) = Ok b'
    /\ (count_pieces b' = count_pieces b3)%nat
    /\ forall r c, 0 <= r -> 0 <= c ->
         getitem b' r c =
           if decide (tr = r /\ tc = c)
           then Ok (if promotion m then king else piece)
           else getitem b3 r c) as (b' & Hb' & C4 & G4).
  { destruct (promotion m).
    - destruct (setitem_valid n b3 tr tc king Hb3 (conj Htr Htc) Hvk)
        as (b' & H4 & _).
      exists b'. split; [unfold king in H4; now destruct (player =? 1)|].
      split.
      + assert (getitem b3 tr tc = Ok piece) as G3t.
        { rewrite G3 by lia. rewrite decide_False by lia.
          now rewrite decide_True. }
        pose proof (count_pieces_setitem _ _ _ _ _ _ H4 G3t). lia.
      + intros r c Hr Hc. now rewrite (getitem_setitem _ _ _ _ _ _ _ H4) by lia.
    - exists b3. split; [reflexivity|]. split; [reflexivity|].
      intros r c Hr Hc. case_decide as Heq; [|reflexivity].
      destruct Heq as [<- <-]. rewrite G3 by lia.
      rewrite decide_False by lia. now rewrite decide_True. }
  exists b'. split; [exact Hb'|]. split; [lia|]. split.
  { rewrite G4 by lia. rewrite decide_False by lia.
    rewrite G3 by lia. now rewrite decide_True. }
  split.
  { rewrite G4 by lia. now rewrite decide_True. }
  split.
  - intros [qr qc] Hq. cbn [fst snd].
    rewrite Forall_forall in Hon. destruct (Hon _ Hq) as [[? ?] [? ?]].
    cbn [fst snd] in *.
    assert (~ (tr = qr /\ tc = qc)) by (intros [<- <-]; contradiction).
    rewrite G4 by lia. rewrite decide_False by assumption.
    rewrite G3 by lia. case_decide; [reflexivity|].
    rewrite decide_False by assumption. now rewrite decide_True.
  - intros r c Hr Hc Hnf Hnt Hnc.
    assert (~ (tr = r /\ tc = c)) by (intros [<- <-]; now apply Hnt).
    assert (~ (fr = r /\ fc = c)) by (intros [<- <-]; now apply Hnf).
    rewrite G4 by lia. rewrite decide_False by assumption.
    rewrite G3 by lia. rewrite !decide_False by assumption. reflexivity.
Qed.

Lemma apply_move_conserves_pieces_witness :
  exists b',
    apply_move board_of_one_jump (mkMove (2, 1) (4, 3) [(3, 2)] false) 1 = Ok b'
    /\ (count_pieces b' + 1 = count_pieces board_of_one_jump)%nat
    /\ getitem b' 2 1 = Ok 0
    /\ getitem b' 4 3 = Ok 1
    /\ (forall q : Pos, q ∈ [(3, 2)] -> getitem b' q.1 q.2 = Ok 0)
    /\ (forall r c, 0 <= r -> 0 <= c ->
          (r, c) <> (2, 1) -> (r, c) <> (4, 3) -> (r, c) ∉ [(3, 2)] ->
          getitem b' r c = getitem board_of_one_jump r c).
Proof.
  apply (apply_move_conserves_pieces 8 board_of_one_jump
           (mkMove (2, 1) (4, 3) [(3, 2)] false) 1 1).
  - reflexivity.
  - unfold applicable, on_board. cbn. repeat split; try lia.
    repeat constructor; cbn; lia.
  - reflexivity.
  - lia.
  - reflexivity.
  - apply NoDup_singleton.
  - cbn. intros H. apply list_elem_of_singleton in H. discriminate H.
  - repeat constructor. exists (-1). split; [reflexivity | lia].
Defined.

(** C2 at its failing input. [get_legal_moves] returns a double jump whose
    [from_pos] is the square where its last jump starts, an empty square of
    the board: the search builds the move in its innermost call. Applying
    it removes the two captured men, leaves the jumping man where it was
    and puts a king on the destination: of three pieces two remain, not
    one, and no piece has been relocated. *)
Lemma apply_move_conservation_counterexample :
  let m := mkMove (5, 4) (7, 6) [(4, 3); (6, 5)] true in
  get_legal_moves default_rules board_of_promoting_jumps 1 = Ok [m]
  /\ exists b',
       apply_move board_of_promoting_jumps m 1 = Ok b'
       /\ count_pieces board_of_promoting_jumps = 3%nat
       /\ length (captures m) = 2%nat
       /\ count_pieces b' = 2%nat
       /\ count_pieces b'
          <> (count_pieces board_of_promoting_jumps - length (captures m))%nat
       /\ getitem b' 3 2 = Ok PLAYER1_MAN
       /\ getitem b' 7 6 = Ok PLAYER1_KING.
Proof.
  split; [vm_compute; reflexivity|].
  eexists. split; [vm_compute; reflexivity|].
  repeat split. vm_compute. discriminate.
Qed.

(** ** Terminal positions *)

(** C1 at its failing inputs. With player -1 to move, [is_terminal] names as
    winner the player that has no piece left: the loop sets
    [player_has_pieces] for the pieces of player +1 and
    [opponent_has_pieces] for those of player -1, whoever is to move. With
    player +1 to move the winner is the one the claim names. *)
Lemma is_terminal_winner_has_no_pieces :
  is_terminal default_rules board_of_player1_only (-1) = Ok (true, Some (-1))
  /\ is_terminal default_rules board_of_player2_only (-1) = Ok (true, Some 1)
  /\ is_terminal default_rules board_of_player1_only 1 = Ok (true, Some 1)
  /\ is_terminal default_rules board_of_player2_only 1 = Ok (true, Some (-1)).
Proof. repeat split; vm_compute; reflexivity. Qed.

(** ** Promotion *)

(** C3 at its failing input. The man on (5, 2) jumps to (7, 4), its last
    row, and from there, as a king, over (6, 5) to (5, 6). The search puts
    the king on the board it continues on, but the move it returns has
    [promotion = false], and applying the move leaves no king on (5, 6). *)
Lemma promotion_mid_sequence_lost :
  let m := mkMove (7, 4) (5, 6) [(6, 3); (6, 5)] false in
  get_legal_moves default_rules board_of_promotion_mid_sequence 1 = Ok [m]
  /\ promotion m = false
  /\ exists b',
       apply_move board_of_promotion_mid_sequence m 1 = Ok b'
       /\ getitem b' 5 6 = Ok EMPTY
       /\ getitem b' 5 2 = Ok PLAYER1_MAN.
Proof.
  split; [vm_compute; reflexivity|]. split; [reflexivity|].
  eexists. split; [vm_compute; reflexivity|]. split; reflexivity.
Qed.

(** ** The agent without candidates *)

(** C7. With no legal action [select_action] returns [None], which is not an
    action; and it returns [None] in no other case. *)
Theorem select_action_empty_is_signalled (self : HeuristicAgent) (b : Board)
  (player : Z) :
  select_action self b [] player = Ok None
  /\ (forall a, select_action self b [] player <> Ok (Some a))
  /\ (forall legal_actions,
        select_action self b legal_actions player = Ok None ->
        legal_actions = []).
Proof.
  split; [reflexivity|]. split; [discriminate|].
  intros [|a [|a' l]] H; [reflexivity|discriminate|].
  unfold select_action in H.
  destruct (search_root self b (a :: a' :: l) player); discriminate.
Qed.

(** ** The static evaluation *)

Ltac triple_eq := cbn; rewrite !pair_equal_spec; lia.

Lemma eval_cell_tadd (acc : Z * Z * Z) (r c piece : Z) :
  eval_cell acc r c piece = tadd acc (contribution r c piece).
Proof.
  destruct acc as [[s p1] p2]. unfold contribution, eval_cell, tadd.
  destruct (piece =? 0), (piece >? 0); triple_eq.
Qed.

Lemma tadd_assoc (a b c : Z * Z * Z) : tadd (tadd a b) c = tadd a (tadd b c).
Proof. unfold tadd. triple_eq. Qed.

Lemma tadd_comm (a b : Z * Z * Z) : tadd a b = tadd b a.
Proof. unfold tadd. triple_eq. Qed.

Lemma tadd_swap (a x y z : Z * Z * Z) :
  tadd (tadd (tadd a x) y) z = tadd (tadd (tadd a z) y) x.
Proof. unfold tadd. triple_eq. Qed.

Lemma tadd_zero (a : Z * Z * Z) : tadd a (0, 0, 0) = a.
Proof. destruct a as [[s p1] p2]. unfold tadd. triple_eq. Qed.

Lemma eval_row_tadd (r : Z) (row : list Z) :
  forall c acc, eval_row r c row acc = tadd acc (eval_row r c row (0, 0, 0)).
Proof.
  induction row as [|piece row IH]; intros c acc; cbn [eval_row].
  - now rewrite tadd_zero.
  - rewrite (IH (c + 1) (eval_cell acc r c piece)),
      (IH (c + 1) (eval_cell (0, 0, 0) r c piece)), (eval_cell_tadd acc).
    apply tadd_assoc.
Qed.

Lemma eval_rows_tadd (b : Board) :
  forall r acc, eval_rows r b acc = tadd acc (eval_rows r b (0, 0, 0)).
Proof.
  induction b as [|row b IH]; intros r acc; cbn [eval_rows].
  - now rewrite tadd_zero.
  - rewrite (IH (r + 1) (eval_row r 0 row acc)),
      (IH (r + 1) (eval_row r 0 row (0, 0, 0))), (eval_row_tadd r row 0 acc).
    apply tadd_assoc.
Qed.

Lemma eval_row_insert (r : Z) (row : list Z) (old v : Z) :
  forall (j : nat) (c : Z) (acc : Z * Z * Z),
    row !! j = Some old ->
    tadd (eval_row r c (<[j := v]> row) acc) (contribution r (c + Z.of_nat j) old)
    = tadd (eval_row r c row acc) (contribution r (c + Z.of_nat j) v).
Proof.
  induction row as [|w row IH]; intros j c acc Hj; [discriminate|].
  destruct j as [|j]; cbn [eval_row] in *.
  - injection Hj as ->. cbn [insert list_insert eval_row].
    replace (c + Z.of_nat 0) with c by lia.
    rewrite (eval_row_tadd r row (c + 1) (eval_cell acc r c v)),
      (eval_row_tadd r row (c + 1) (eval_cell acc r c old)), !eval_cell_tadd.
    apply tadd_swap.
  - cbn [insert list_insert eval_row].
    replace (c + Z.of_nat (S j)) with (c + 1 + Z.of_nat j) by lia.
    now apply IH.
Qed.

Lemma eval_rows_insert (b : Board) (row : list Z) (old v : Z) (j : nat) :
  forall (i : nat) (r : Z) (acc : Z * Z * Z),
    b !! i = Some row -> row !! j = Some old ->
    tadd (eval_rows r (<[i := <[j := v]> row]> b) acc)
      (contribution (r + Z.of_nat i) (Z.of_nat j) old)
    = tadd (eval_rows r b acc) (contribution (r + Z.of_nat i) (Z.of_nat j) v).
Proof.
  induction b as [|w b IH]; intros i r acc Hi Hj; [discriminate|].
  destruct i as [|i].
  - injection Hi as ->. cbn [insert list_insert eval_rows].
    replace (r + Z.of_nat 0) with r by lia.
    rewrite (eval_rows_tadd b (r + 1) (eval_row r 0 (<[j:=v]> row) acc)),
      (eval_rows_tadd b (r + 1) (eval_row r 0 row acc)).
    pose proof (eval_row_insert r row old v j 0 acc Hj) as E.
    rewrite Z.add_0_l in E.
    rewrite (eval_row_tadd r (<[j:=v]> row) 0 acc), (eval_row_tadd r row 0 acc).
    rewrite (eval_row_tadd r (<[j:=v]> row) 0 acc), (eval_row_tadd r row 0 acc) in E.
    revert E.
    generalize (eval_row r 0 (<[j:=v]> row) (0, 0, 0)) (eval_row r 0 row (0, 0, 0))
      (eval_rows (r + 1) b (0, 0, 0)) (contribution r (Z.of_nat j) old)
      (contribution r (Z.of_nat j) v).
    clear. intros x y z o n. unfold tadd. cbn. rewrite !pair_equal_spec. lia.
  - cbn [insert list_insert eval_rows].
    replace (r + Z.of_nat (S i)) with (r + 1 + Z.of_nat i) by lia.
    now apply IH.
Qed.

(** Writing [v] over [old] on [(r, c)] exchanges their contributions. *)
Lemma eval_rows_setitem (b b' : Board) (r c v old : Z) (acc : Z * Z * Z) :
  0 <= r -> 0 <= c ->
  setitem b r c v = Ok b' -> getitem b r c = Ok old ->
  tadd (eval_rows 0 b' acc) (contribution r c old)
  = tadd (eval_rows 0 b acc) (contribution r c v).
Proof.
  unfold setitem, getitem. intros Hr Hc H G.
  rewrite norm_index_nonneg in H, G by lia.
  destruct (r <? Z.of_nat (length b)); [|discriminate]. cbn [bind] in *.
  destruct (b !! Z.to_nat r) as [row|] eqn:Hrow; [|discriminate].
  rewrite norm_index_nonneg in H, G by lia.
  destruct (c <? Z.of_nat (length row)); [|discriminate]. cbn [bind] in *.
  destruct (row !! Z.to_nat c) as [w|] eqn:Hw; [|discriminate].
  injection G as ->. injection H as <-.
  pose proof (eval_rows_insert b row old v (Z.to_nat c) (Z.to_nat r) 0 acc
                Hrow Hw) as E.
  now rewrite Z.add_0_l, !Z2Nat.id in E by lia.
Qed.

Lemma getitem_lookup (b : Board) (i j : nat) (row : list Z) (v : Z) :
  b !! i = Some row -> row !! j = Some v ->
  getitem b (Z.of_nat i) (Z.of_nat j) = Ok v.
Proof.
  intros Hi Hj. unfold getitem.
  pose proof (lookup_lt_Some _ _ _ Hi). pose proof (lookup_lt_Some _ _ _ Hj).
  rewrite norm_index_nonneg by lia.
  destruct (Z.ltb_spec (Z.of_nat i) (Z.of_nat (length b))); [|lia].
  cbn [bind]. rewrite Nat2Z.id, Hi.
  rewrite norm_index_nonneg by lia.
  destruct (Z.ltb_spec (Z.of_nat j) (Z.of_nat (length row))); [|lia].
  cbn [bind]. now rewrite Nat2Z.id, Hj.
Qed.

Lemma eval_row_empty (r : Z) (row : list Z) :
  (forall j v, row !! j = Some v -> v = 0) ->
  forall c acc, eval_row r c row acc = acc.
Proof.
  induction row as [|w row IH]; intros Hz c acc; [reflexivity|].
  cbn [eval_row]. rewrite (Hz 0%nat w eq_refl). cbn.
  apply IH. intros j v Hj. apply (Hz (S j) v Hj).
Qed.

(** A board without pieces adds nothing. *)
Lemma eval_rows_empty (b : Board) :
  (forall i row j v, b !! i = Some row -> row !! j = Some v -> v = 0) ->
  forall r acc, eval_rows r b acc = acc.
Proof.
  induction b as [|row b IH]; intros Hz r acc; [reflexivity|].
  cbn [eval_rows]. rewrite eval_row_empty.
  - apply IH. intros i row' j v Hi. apply (Hz (S i) row' j v Hi).
  - intros j v. apply (Hz 0%nat row j v eq_refl).
Qed.

Lemma getitem_on_board (n : Z) (b : Board) (r c v : Z) :
  valid_board n b = true -> 0 <= r -> 0 <= c ->
  getitem b r c = Ok v -> on_board n r c.
Proof.
  intros Hb Hr Hc. unfold getitem.
  pose proof (valid_board_length _ _ Hb) as Hlen.
  rewrite norm_index_nonneg by lia.
  destruct (Z.ltb_spec r (Z.of_nat (length b))); [|discriminate]. cbn [bind].
  destruct (b !! Z.to_nat r) as [row|] eqn:Hrow; [|discriminate].
  destruct (valid_board_row _ _ _ _ Hb Hrow) as [Hl _].
  rewrite norm_index_nonneg by lia.
  destruct (Z.ltb_spec c (Z.of_nat (length row))); [|discriminate].
  intros _. unfold on_board. lia.
Qed.

Lemma setitem_of_getitem (b : Board) (r c v w : Z) :
  getitem b r c = Ok v -> exists b', setitem b r c w = Ok b'.
Proof.
  unfold getitem, setitem.
  destruct (norm_index (length b) r) as [i| |]; try discriminate. cbn [bind].
  destruct (b !! i) as [row|]; [|discriminate].
  destruct (norm_index (length row) c) as [j| |]; try discriminate. cbn [bind].
  eauto.
Qed.

(** C8, as amended. With one man of each player and no other piece, the
    evaluation is the center bonus of the man of player +1 minus that of
    the man of player -1: it is 0.0 exactly when both men, or neither, stand
    in the center. *)
Theorem evaluate_board_one_man_each (b : Board) (r1 c1 r2 c2 : Z) :
  0 <= r1 -> 0 <= c1 -> 0 <= r2 -> 0 <= c2 ->
  getitem b r1 c1 = Ok PLAYER1_MAN ->
  getitem b r2 c2 = Ok PLAYER2_MAN ->
  (forall r c v, 0 <= r -> 0 <= c -> getitem b r c = Ok v -> v <> 0 ->
     (r, c) = (r1, c1) \/ (r, c) = (r2, c2)) ->
  evaluate_board b = Fin (center_bonus r1 c1 - center_bonus r2 c2)
  /\ (evaluate_board b = Fin 0 <-> center_bonus r1 c1 = center_bonus r2 c2).
Proof.
  intros Hr1 Hc1 Hr2 Hc2 H1 H2 Hrest.
  assert (Hne : ~ (r1 = r2 /\ c1 = c2)).
  { intros [-> ->]. rewrite H1 in H2. discriminate. }
  destruct (setitem_of_getitem b r1 c1 _ 0 H1) as [b1 S1].
  assert (G1 : getitem b1 r2 c2 = Ok PLAYER2_MAN).
  { rewrite (getitem_setitem _ _ _ _ _ _ _ S1) by lia.
    now rewrite decide_False. }
  destruct (setitem_of_getitem b1 r2 c2 _ 0 G1) as [b2 S2].
  pose proof (eval_rows_setitem _ _ _ _ _ _ (0, 0, 0) Hr1 Hc1 S1 H1) as E1.
  pose proof (eval_rows_setitem _ _ _ _ _ _ (0, 0, 0) Hr2 Hc2 S2 G1) as E2.
  rewrite (eval_rows_empty b2) in E2.
  2:{ intros i row j v Hi Hj.
      pose proof (getitem_lookup _ _ _ _ _ Hi Hj) as G.
      rewrite (getitem_setitem _ _ _ _ _ _ _ S2) in G by lia.
      rewrite (getitem_setitem _ _ _ _ _ _ _ S1) in G by lia.
      repeat case_decide; try congruence.
      destruct (decide (v = 0)) as [|Hv]; [assumption|].
      destruct (Hrest (Z.of_nat i) (Z.of_nat j) v ltac:(lia) ltac:(lia) G Hv) as [[= ? ?]|[= ? ?]];
        lia. }
  assert (Hsums : eval_rows 0 b (0, 0, 0)
                  = (center_bonus r1 c1 - center_bonus r2 c2, 1, 1)).
  { revert E1 E2.
    destruct (eval_rows 0 b (0, 0, 0)) as [[s p1] p2].
    destruct (eval_rows 0 b1 (0, 0, 0)) as [[s' p1'] p2'].
    unfold tadd, contribution, eval_cell, piece_score, center_bonus,
      PLAYER1_MAN, PLAYER2_MAN, W_MAN, W_KING, W_CENTER.
    cbn. intros [= ? ? ?] [= ? ? ?]. rewrite !pair_equal_spec. lia. }
  assert (Heval : evaluate_board b
                  = Fin (center_bonus r1 c1 - center_bonus r2 c2)).
  { unfold evaluate_board. now rewrite Hsums. }
  split; [exact Heval|]. rewrite Heval.
  split; [intros [= ?]; lia | intros ->; f_equal; lia].
Qed.

Lemma evaluate_board_one_man_each_witness :
  evaluate_board board_of_corner_men = Fin (center_bonus 0 1 - center_bonus 7 0)
  /\ (evaluate_board board_of_corner_men = Fin 0
      <-> center_bonus 0 1 = center_bonus 7 0).
Proof.
  apply (evaluate_board_one_man_each board_of_corner_men 0 1 7 0);
    try lia; try reflexivity.
  intros r c v Hr Hc G.
  destruct (getitem_on_board 8 board_of_corner_men r c v eq_refl Hr Hc G)
    as [[_ Hr8] [_ Hc8]].
  assert (r = 0 \/ r = 1 \/ r = 2 \/ r = 3 \/ r = 4 \/ r = 5 \/ r = 6 \/ r = 7)
    as Hrs by lia.
  assert (c = 0 \/ c = 1 \/ c = 2 \/ c = 3 \/ c = 4 \/ c = 5 \/ c = 6 \/ c = 7)
    as Hcs by lia.
  revert G.
  destruct Hrs as [->|[->|[->|[->|[->|[->|[->| ->]]]]]]];
    destruct Hcs as [->|[->|[->|[->|[->|[->|[->| ->]]]]]]];
    (intros G Hv; vm_compute in G;
     first [congruence | now left | now right]).
Defined.

(** C8, as stated, fails: a man in the center is worth one point more. *)
Lemma evaluate_board_one_man_each_counterexample :
  getitem board_of_center_man 3 4 = Ok PLAYER1_MAN
  /\ getitem board_of_center_man 0 7 = Ok PLAYER2_MAN
  /\ count_pieces board_of_center_man = 2%nat
  /\ evaluate_board board_of_center_man = Fin 1
  /\ evaluate_board board_of_center_man <> Fin 0.
Proof. repeat split. discriminate. Qed.

(** ** Alpha-beta pruning *)

(** Floats by cases, their comparisons as integer propositions. *)
Ltac float_clean :=
  repeat match goal with
         | H : _ /\ _ |- _ => destruct H
         | H : true = true -> _ |- _ => specialize (H eq_refl)
         | H : false = false -> _ |- _ => specialize (H eq_refl)
         | H : false = true -> _ |- _ => clear H
         | H : true = false -> _ |- _ => clear H
         | H : true = false |- _ => discriminate H
         | H : false = true |- _ => discriminate H
         | H : PosInf <> PosInf |- _ => now contradict H
         | H : NegInf <> NegInf |- _ => now contradict H
         | H : Fin ?a = Fin ?b |- _ =>
             let E := fresh "E" in
             assert (E : a = b) by (now injection H); clear H
         | H : NegInf = Fin _ |- _ => discriminate H
         | H : PosInf = Fin _ |- _ => discriminate H
         | H : Fin _ = NegInf |- _ => discriminate H
         | H : Fin _ = PosInf |- _ => discriminate H
         | H : NegInf = PosInf |- _ => discriminate H
         | H : PosInf = NegInf |- _ => discriminate H
         end.

Ltac float_cases :=
  repeat match goal with
         | H : is_fin _ |- _ => destruct H as [? ->]
         end;
  float_clean;
  repeat match goal with
         | x : pyfloat |- _ => destruct x; cbn [flt negb] in *; float_clean
         end;
  repeat match goal with
         | |- context [?a <? ?b] =>
             destruct (Z.ltb_spec a b); cbn [flt negb] in *; float_clean
         | H : context [?a <? ?b] |- _ =>
             destruct (Z.ltb_spec a b); cbn [flt negb] in *; float_clean
         end.

Ltac float_solve :=
  unfold ab_sound, max_state, min_state, is_fin, fle, fmax, fmin in *;
  float_cases;
  repeat match goal with
         | |- _ /\ _ => split
         | |- _ -> _ => intro; float_clean
         end;
  first [ discriminate | reflexivity | lia | f_equal; lia
        | eexists; reflexivity | congruence ].

Lemma ab_sound_exact (alpha beta v : pyfloat) : ab_sound alpha beta v v.
Proof. float_solve. Qed.

Lemma ab_sound_full_window (r v : Z) :
  ab_sound NegInf PosInf (Fin r) (Fin v) -> r = v.
Proof. intros (H & _ & _). specialize (H eq_refl eq_refl). congruence. Qed.

(** One more child, searched with the window the loop has reached, and no
    break: the state of the loop is kept. *)
Lemma max_state_step (alpha0 beta best ex : pyfloat) (r v : Z) :
  flt (fmax alpha0 best) beta = true ->
  max_state alpha0 best ex ->
  ab_sound (fmax alpha0 best) beta (Fin r) (Fin v) ->
  flt (fmax alpha0 (fmax best (Fin r))) beta = true ->
  max_state alpha0 (fmax best (Fin r)) (fmax ex (Fin v)).
Proof. intros Hwin Hst Hab Hnb. float_solve. Qed.

(** One more child and a break: the result is a bound from below. *)
Lemma max_state_break (alpha0 beta best ex : pyfloat) (r v vz : Z) :
  flt (fmax alpha0 best) beta = true ->
  max_state alpha0 best ex ->
  ab_sound (fmax alpha0 best) beta (Fin r) (Fin v) ->
  fle beta (fmax (fmax alpha0 best) (Fin r)) = true ->
  fle (fmax ex (Fin v)) (Fin vz) = true ->
  ab_sound alpha0 beta (fmax best (Fin r)) (Fin vz).
Proof. intros Hwin Hst Hab Hbr Hle. float_solve. Qed.

Lemma min_state_step (alpha beta0 best ex : pyfloat) (r v : Z) :
  flt alpha (fmin beta0 best) = true ->
  min_state beta0 best ex ->
  ab_sound alpha (fmin beta0 best) (Fin r) (Fin v) ->
  flt alpha (fmin beta0 (fmin best (Fin r))) = true ->
  min_state beta0 (fmin best (Fin r)) (fmin ex (Fin v)).
Proof. intros Hwin Hst Hab Hnb. float_solve. Qed.

Lemma min_state_break (alpha beta0 best ex : pyfloat) (r v vz : Z) :
  flt alpha (fmin beta0 best) = true ->
  min_state beta0 best ex ->
  ab_sound alpha (fmin beta0 best) (Fin r) (Fin v) ->
  fle (fmin (fmin beta0 best) (Fin r)) alpha = true ->
  fle (Fin vz) (fmin ex (Fin v)) = true ->
  ab_sound alpha beta0 (fmin best (Fin r)) (Fin vz).
Proof. intros Hwin Hst Hab Hbr Hle. float_solve. Qed.

Lemma fmax_assoc (a b c : pyfloat) : fmax (fmax a b) c = fmax a (fmax b c).
Proof. float_solve. Qed.

Lemma fmin_assoc (a b c : pyfloat) : fmin (fmin a b) c = fmin a (fmin b c).
Proof. float_solve. Qed.

Lemma fmax_NegInf_r (a : pyfloat) : fmax a NegInf = a.
Proof. now destruct a. Qed.

Lemma fmin_PosInf_r (a : pyfloat) : fmin a PosInf = a.
Proof. now destruct a. Qed.

Section Loops.

Context {M : Type}.
Variable child : M -> pyfloat -> pyfloat -> result pyfloat.
Variable exact : M -> result pyfloat.

Lemma max_all_total (ms : list M) :
  (forall m, m ∈ ms -> child_sound child exact m) ->
  forall acc, acc <> PosInf ->
  exists V, max_all (exact <$> ms) acc = Ok V
    /\ fle acc V = true /\ V <> PosInf
    /\ (is_fin acc \/ ms <> [] -> is_fin V).
Proof.
  induction ms as [|m ms IH]; intros Hs acc Hacc.
  - exists acc. cbn. split; [reflexivity|]. split; [clear; float_solve|].
    split; [assumption|]. intros [?|?]; [assumption|congruence].
  - destruct (Hs m) as (v & Hv & _); [left|].
    cbn [fmap list_fmap max_all]. rewrite Hv. cbn [bind].
    destruct (IH (fun x Hx => Hs x (list_elem_of_further _ _ _ Hx))
                (fmax acc (Fin v))) as (V & HV & Hle & Hne & Hfin).
    { clear -Hacc. float_solve. }
    exists V. split; [exact HV|].
    assert (is_fin V) as HfV by (apply Hfin; left; clear -Hacc; float_solve).
    clear Hfin HV IH Hs Hv. float_solve.
Qed.

Lemma min_all_total (ms : list M) :
  (forall m, m ∈ ms -> child_sound child exact m) ->
  forall acc, acc <> NegInf ->
  exists V, min_all (exact <$> ms) acc = Ok V
    /\ fle V acc = true /\ V <> NegInf
    /\ (is_fin acc \/ ms <> [] -> is_fin V).
Proof.
  induction ms as [|m ms IH]; intros Hs acc Hacc.
  - exists acc. cbn. split; [reflexivity|]. split; [clear; float_solve|].
    split; [assumption|]. intros [?|?]; [assumption|congruence].
  - destruct (Hs m) as (v & Hv & _); [left|].
    cbn [fmap list_fmap min_all]. rewrite Hv. cbn [bind].
    destruct (IH (fun x Hx => Hs x (list_elem_of_further _ _ _ Hx))
                (fmin acc (Fin v))) as (V & HV & Hle & Hne & Hfin).
    { clear -Hacc. float_solve. }
    exists V. split; [exact HV|].
    assert (is_fin V) as HfV by (apply Hfin; left; clear -Hacc; float_solve).
    clear Hfin HV IH Hs Hv. float_solve.
Qed.

(** The loop of a maximizing node: pruned against exhaustive. *)
Lemma max_loop_sound (ms : list M) :
  (forall m, m ∈ ms -> child_sound child exact m) ->
  forall alpha0 beta best ex,
    flt (fmax alpha0 best) beta = true ->
    max_state alpha0 best ex ->
    exists R V,
      max_loop (child <$> ms) best (fmax alpha0 best) beta = Ok R
      /\ max_all (exact <$> ms) ex = Ok V
      /\ ab_sound alpha0 beta R V
      /\ (ms <> [] -> is_fin R /\ is_fin V).
Proof.
  induction ms as [|m ms IH]; intros Hs alpha0 beta best ex Hwin Hst.
  - exists best, ex. cbn. split; [reflexivity|]. split; [reflexivity|].
    split; [|congruence]. clear Hs. float_solve.
  - pose proof (fun x Hx => Hs x (list_elem_of_further _ _ _ Hx)) as Hs'.
    destruct (Hs m) as (v & Hv & Hchild); [left|].
    destruct (Hchild _ _ Hwin) as (r & Hr & Hsound).
    cbn [fmap list_fmap max_loop max_all]. rewrite Hr, Hv. cbn [bind].
    assert (Hex : fmax ex (Fin v) <> PosInf /\ is_fin (fmax ex (Fin v))
                  /\ is_fin (fmax best (Fin r))).
    { clear -Hst. float_solve. }
    destruct Hex as (Hex & Hexfin & Hbestfin).
    destruct (fle beta (fmax (fmax alpha0 best) (Fin r))) eqn:Hbreak.
    + destruct (max_all_total ms Hs' (fmax ex (Fin v)) Hex)
        as (V & HV & Hle & _ & Hfin).
      destruct (Hfin (or_introl Hexfin)) as [vz ->].
      exists (fmax best (Fin r)), (Fin vz).
      split; [reflexivity|]. split; [exact HV|].
      split; [|intros _; split; [assumption|eexists; reflexivity]].
      eapply max_state_break; eassumption.
    + rewrite fmax_assoc in Hbreak |- *.
      assert (Hwin' : flt (fmax alpha0 (fmax best (Fin r))) beta = true).
      { unfold fle in Hbreak. now apply negb_false_iff in Hbreak. }
      destruct (IH Hs' alpha0 beta (fmax best (Fin r)) (fmax ex (Fin v)) Hwin')
        as (R & V & HR & HV & Hab & Hfin).
      { eapply max_state_step; eassumption. }
      exists R, V. split; [exact HR|]. split; [exact HV|].
      split; [exact Hab|]. intros _.
      destruct ms as [|m' ms]; [|apply Hfin; congruence].
      cbn in HR, HV. injection HR as <-. injection HV as <-. now split.
Qed.

(** The loop of a minimizing node: pruned against exhaustive. *)
Lemma min_loop_sound (ms : list M) :
  (forall m, m ∈ ms -> child_sound child exact m) ->
  forall alpha beta0 best ex,
    flt alpha (fmin beta0 best) = true ->
    min_state beta0 best ex ->
    exists R V,
      min_loop (child <$> ms) best alpha (fmin beta0 best) = Ok R
      /\ min_all (exact <$> ms) ex = Ok V
      /\ ab_sound alpha beta0 R V
      /\ (ms <> [] -> is_fin R /\ is_fin V).
Proof.
  induction ms as [|m ms IH]; intros Hs alpha beta0 best ex Hwin Hst.
  - exists best, ex. cbn. split; [reflexivity|]. split; [reflexivity|].
    split; [|congruence]. clear Hs. float_solve.
  - pose proof (fun x Hx => Hs x (list_elem_of_further _ _ _ Hx)) as Hs'.
    destruct (Hs m) as (v & Hv & Hchild); [left|].
    destruct (Hchild _ _ Hwin) as (r & Hr & Hsound).
    cbn [fmap list_fmap min_loop min_all]. rewrite Hr, Hv. cbn [bind].
    assert (Hex : fmin ex (Fin v) <> NegInf /\ is_fin (fmin ex (Fin v))
                  /\ is_fin (fmin best (Fin r))).
    { clear -Hst. float_solve. }
    destruct Hex as (Hex & Hexfin & Hbestfin).
    destruct (fle (fmin (fmin beta0 best) (Fin r)) alpha) eqn:Hbreak.
    + destruct (min_all_total ms Hs' (fmin ex (Fin v)) Hex)
        as (V & HV & Hle & _ & Hfin).
      destruct (Hfin (or_introl Hexfin)) as [vz ->].
      exists (fmin best (Fin r)), (Fin vz).
      split; [reflexivity|]. split; [exact HV|].
      split; [|intros _; split; [assumption|eexists; reflexivity]].
      eapply min_state_break; eassumption.
    + rewrite fmin_assoc in Hbreak |- *.
      assert (Hwin' : flt alpha (fmin beta0 (fmin best (Fin r))) = true).
      { unfold fle in Hbreak. now apply negb_false_iff in Hbreak. }
      destruct (IH Hs' alpha beta0 (fmin best (Fin r)) (fmin ex (Fin v)) Hwin')
        as (R & V & HR & HV & Hab & Hfin).
      { eapply min_state_step; eassumption. }
      exists R, V. split; [exact HR|]. split; [exact HV|].
      split; [exact Hab|]. intros _.
      destruct ms as [|m' ms]; [|apply Hfin; congruence].
      cbn in HR, HV. injection HR as <-. injection HV as <-. now split.
Qed.

End Loops.

(** ** Boards stay well formed *)

Lemma setitem_preserves_valid (n : Z) (b b' : Board) (r c v : Z) :
  valid_board n b = true -> valid_cell v = true ->
  setitem b r c v = Ok b' -> valid_board n b' = true.
Proof.
  intros Hb Hv. unfold setitem.
  destruct (norm_index (length b) r) as [i| |] eqn:Hi; try discriminate.
  cbn [bind]. destruct (b !! i) as [row|] eqn:Hrow; [|discriminate].
  destruct (norm_index (length row) c) as [j| |] eqn:Hj; try discriminate.
  cbn [bind]. intros [= <-].
  destruct (valid_board_row _ _ _ _ Hb Hrow) as [Hl Hcells].
  apply valid_board_intro.
  - rewrite length_insert. now apply valid_board_length.
  - intros k r' Hk.
    destruct (decide (k = i)) as [->|Hne].
    + rewrite list_lookup_insert_eq in Hk by (eapply lookup_lt_Some; eassumption).
      injection Hk as <-. split; [now rewrite length_insert|].
      apply forallb_forall.
      intros w [l Hl']%list_elem_of_In%list_elem_of_lookup_1.
      destruct (decide (l = j)) as [->|Hnej].
      * rewrite list_lookup_insert_eq in Hl'
          by (eapply norm_index_lt; eassumption).
        now injection Hl' as <-.
      * rewrite list_lookup_insert_ne in Hl' by congruence.
        rewrite forallb_forall in Hcells. apply Hcells.
        eapply list_elem_of_In, list_elem_of_lookup_2, Hl'.
    + rewrite list_lookup_insert_ne in Hk by congruence.
      eapply valid_board_row; eassumption.
Qed.

Lemma getitem_valid_cell (n : Z) (b : Board) (r c v : Z) :
  valid_board n b = true -> getitem b r c = Ok v -> valid_cell v = true.
Proof.
  intros Hb. unfold getitem.
  destruct (norm_index (length b) r) as [i| |]; try discriminate.
  cbn [bind]. destruct (b !! i) as [row|] eqn:Hrow; [|discriminate].
  destruct (norm_index (length row) c) as [j| |]; try discriminate.
  cbn [bind]. destruct (row !! j) as [w|] eqn:Hw; [|discriminate].
  intros [= <-].
  destruct (valid_board_row _ _ _ _ Hb Hrow) as [_ Hcells].
  rewrite forallb_forall in Hcells. apply Hcells.
  eapply list_elem_of_In, list_elem_of_lookup_2, Hw.
Qed.

(** Whatever move is applied, if nothing is raised the board is well
    formed again. *)
Lemma apply_move_valid (n : Z) (b b' : Board) (m : Move) (player : Z) :
  valid_board n b = true -> apply_move b m player = Ok b' ->
  valid_board n b' = true.
Proof.
  intros Hb H. unfold apply_move in H.
  inv_bind H. rename x into b1.
  assert (Hb1 : valid_board n b1 = true).
  { eapply (foldM_invariant (fun t => valid_board n t = true));
      [|exact Hb|exact E].
    intros t q t' _ Ht Hset.
    eapply (setitem_preserves_valid n t t' q.1 q.2 EMPTY);
      [exact Ht|reflexivity|exact Hset]. }
  inv_bind H. rename x into piece.
  pose proof (getitem_valid_cell _ _ _ _ _ Hb1 E0) as Hpiece.
  inv_bind H. rename x into b2.
  pose proof (setitem_preserves_valid _ _ _ _ _ _ Hb1 Hpiece E1) as Hb2.
  inv_bind H. rename x into b3.
  pose proof (setitem_preserves_valid _ _ _ _ _ EMPTY Hb2 eq_refl E2) as Hb3.
  destruct (promotion m); [|now injection H as <-].
  destruct (player =? 1).
  - eapply (setitem_preserves_valid _ _ _ _ _ PLAYER1_KING);
      [exact Hb3|reflexivity|exact H].
  - eapply (setitem_preserves_valid _ _ _ _ _ PLAYER2_KING);
      [exact Hb3|reflexivity|exact H].
Qed.

(** ** The search on well-formed boards *)

Section Search.

Variable self : HeuristicAgent.

Lemma scan_pieces_total (b : Board) :
  valid_board (board_size (rules self)) b = true ->
  exists flags, scan_pieces (rules self) b = Ok flags.
Proof.
  intros Hb. unfold scan_pieces.
  destruct (foldM_total (fun _ : bool * bool => True)
    (fun (flags : bool * bool) (sq : Pos) =>
       if negb (is_valid_square (rules self) sq.1 sq.2) then Ok flags
       else
         let* piece := getitem b sq.1 sq.2 in
         if piece >? 0 then Ok (true, flags.2)
         else if piece <? 0 then Ok (flags.1, true)
         else Ok flags)
    (squares (rules self)) (false, false)) as (flags & Hf & _);
    [|exact I|eauto].
  intros t sq _ _.
  destruct (is_valid_square (rules self) sq.1 sq.2) eqn:Hv; cbn [negb];
    [|eauto].
  apply is_valid_square_on_board in Hv.
  destruct (getitem_valid _ _ _ _ Hb Hv) as (piece & -> & _). cbn [bind].
  destruct (piece >? 0), (piece <? 0); eauto.
Qed.

Lemma is_terminal_total (b : Board) (player : Z) :
  valid_board (board_size (rules self)) b = true ->
  exists t, is_terminal (rules self) b player = Ok t.
Proof.
  intros Hb. unfold is_terminal.
  destruct (scan_pieces_total b Hb) as [flags ->]. cbn [bind].
  destruct (negb flags.2); [eauto|].
  destruct (negb flags.1); [eauto|].
  destruct (get_legal_moves_total (rules self) b (- player) Hb) as [oms ->].
  cbn [bind]. destruct (bool_decide (oms = [])); [eauto|].
  destruct (get_legal_moves_total (rules self) b player Hb) as [pms ->].
  cbn [bind]. destruct (bool_decide (pms = [])); eauto.
Qed.

Lemma terminal_score_fin (winner : option Z) (d : nat) :
  is_fin (terminal_score winner d).
Proof.
  unfold terminal_score, is_fin.
  destruct (bool_decide (winner = Some 1)); [eauto|].
  destruct (bool_decide (winner = Some (-1))); eauto.
Qed.

Lemma evaluate_board_fin (b : Board) : is_fin (evaluate_board b).
Proof.
  unfold evaluate_board, is_fin.
  destruct (_ && _); [eauto|]. destruct (_ && _); eauto.
Qed.

(** The pruned search is sound for the exhaustive search, at every depth,
    on every well-formed board and for every window. *)
Lemma minimax_sound (d : nat) :
  forall (b : Board) (player : Z),
    valid_board (board_size (rules self)) b = true ->
    exists v,
      minimax_exhaustive self d b player = Ok (Fin v)
      /\ forall alpha beta, flt alpha beta = true ->
           exists r, minimax self d b alpha beta player = Ok (Fin r)
                     /\ ab_sound alpha beta (Fin r) (Fin v).
Proof.
  induction d as [|d IH]; intros b player Hb;
    destruct (is_terminal_total b player Hb) as [t Ht];
    cbn [minimax minimax_exhaustive]; rewrite Ht; cbn [bind].
  - destruct t.1.
    + destruct (terminal_score_fin t.2 0) as [z ->]. exists z.
      split; [reflexivity|]. intros. eexists. split; [reflexivity|].
      apply ab_sound_exact.
    + destruct (evaluate_board_fin b) as [z ->]. exists z.
      split; [reflexivity|]. intros. eexists. split; [reflexivity|].
      apply ab_sound_exact.
  - destruct t.1.
    { destruct (terminal_score_fin t.2 (S d)) as [z ->]. exists z.
      split; [reflexivity|]. intros. eexists. split; [reflexivity|].
      apply ab_sound_exact. }
    destruct (get_legal_moves_total (rules self) b player Hb) as [ms Hms].
    rewrite Hms. cbn [bind].
    pose proof (get_legal_moves_applicable _ _ _ _ Hms) as Happ.
    destruct ms as [|m0 ms0] eqn:Ems.
    { destruct (player =? 1); eexists; (split; [reflexivity|]); intros;
        eexists; (split; [reflexivity|]); apply ab_sound_exact. }
    rewrite <- Ems in *. assert (Hne : ms <> []) by (subst; discriminate).
    clear Ems Hms.
    assert (Hchildren : forall p m, m ∈ ms ->
      child_sound
        (fun move a b' =>
           let* next_board := apply_move b move p in
           minimax self d next_board a b' (- p))
        (fun move =>
           let* next_board := apply_move b move p in
           minimax_exhaustive self d next_board (- p)) m).
    { intros p m Hm. rewrite Forall_forall in Happ.
      destruct (apply_move_total _ b m p Hb (Happ m Hm)) as (nb & Hnb & Hvnb).
      destruct (IH nb (- p) Hvnb) as (v & Hv & Hab).
      exists v. rewrite Hnb. cbn [bind]. split; [exact Hv|]. exact Hab. }
    destruct (player =? 1).
    + destruct (max_loop_sound _ _ ms (Hchildren 1) NegInf PosInf NegInf NegInf
                  eq_refl) as (R0 & V & HR0 & HV & _ & Hfin).
      { unfold max_state. repeat split; intros; try discriminate. }
      destruct (Hfin Hne) as [_ [v Hveq]]. rewrite Hveq in HV. clear Hfin.
      exists v. split; [exact HV|].
      intros alpha beta Hwin.
      destruct (max_loop_sound _ _ ms (Hchildren 1) alpha beta NegInf NegInf)
        as (R & V' & HR & HV' & Hab & Hfin').
      { now rewrite fmax_NegInf_r. }
      { unfold max_state. repeat split; intros; try discriminate. }
      rewrite fmax_NegInf_r in HR.
      destruct (Hfin' Hne) as [[r Hreq] _]. rewrite Hreq in HR, Hab.
      assert (V' = Fin v) as Hv' by congruence. rewrite Hv' in Hab.
      exists r. split; [exact HR|exact Hab].
    + destruct (min_loop_sound _ _ ms (Hchildren (-1)) NegInf PosInf PosInf
                  PosInf eq_refl) as (R0 & V & HR0 & HV & _ & Hfin).
      { unfold min_state. repeat split; intros; try discriminate. }
      destruct (Hfin Hne) as [_ [v Hveq]]. rewrite Hveq in HV. clear Hfin.
      exists v. split; [exact HV|].
      intros alpha beta Hwin.
      destruct (min_loop_sound _ _ ms (Hchildren (-1)) alpha beta PosInf PosInf)
        as (R & V' & HR & HV' & Hab & Hfin').
      { now rewrite fmin_PosInf_r. }
      { unfold min_state. repeat split; intros; try discriminate. }
      rewrite fmin_PosInf_r in HR.
      destruct (Hfin' Hne) as [[r Hreq] _]. rewrite Hreq in HR, Hab.
      assert (V' = Fin v) as Hv' by congruence. rewrite Hv' in Hab.
      exists r. split; [exact HR|exact Hab].
Qed.

(** With the full window the pruned search returns the exact value. *)
Lemma minimax_full_window (d : nat) (b : Board) (player : Z) :
  valid_board (board_size (rules self)) b = true ->
  exists v,
    minimax self d b NegInf PosInf player = Ok (Fin v)
    /\ minimax_exhaustive self d b player = Ok (Fin v).
Proof.
  intros Hb. destruct (minimax_sound d b player Hb) as (v & Hv & Hab).
  destruct (Hab NegInf PosInf eq_refl) as (r & Hr & Hsound).
  apply ab_sound_full_window in Hsound as ->. eauto.
Qed.

End Search.

(** ** The choice at the root *)

Lemma foldM_ext {A S : Type} (f g : S -> A -> result S) (l : list A) :
  (forall s x, x ∈ l -> f s x = g s x) ->
  forall s, foldM f s l = foldM g s l.
Proof.
  induction l as [|x xs IH]; intros Hfg s; [reflexivity|].
  cbn [foldM]. rewrite Hfg by left. destruct (g s x); cbn [bind]; try reflexivity.
  apply IH. intros t y Hy. apply Hfg. now right.
Qed.

Lemma foldM_pure {A S : Type} (body : S -> A -> result S) (f : S -> A -> S)
  (l : list A) :
  (forall s x, x ∈ l -> body s x = Ok (f s x)) ->
  forall s, foldM body s l = Ok (foldl f s l).
Proof.
  induction l as [|x xs IH]; intros Hb s; [reflexivity|].
  cbn [foldM foldl]. rewrite Hb by left. cbn [bind].
  apply IH. intros t y Hy. apply Hb. now right.
Qed.

Section Root.

Variable self : HeuristicAgent.

Lemma search_root_scores (b : Board) (legal : list Action) (player : Z) :
  search_root self b legal player =
  let* first := random_choice legal in
  foldM (fun best a =>
           let* score := action_score self b player a in
           Ok (keep_best player best score a))
    (if player =? 1 then NegInf else PosInf, first) legal.
Proof.
  unfold search_root. destruct (random_choice legal); try reflexivity.
  cbn [bind]. apply foldM_ext. intros s x _. unfold action_score.
  now destruct (apply_move b (dict_to_move x) player).
Qed.

Lemma search_root_exhaustive_scores (b : Board) (legal : list Action)
  (player : Z) :
  search_root_exhaustive self b legal player =
  let* first := random_choice legal in
  foldM (fun best a =>
           let* score := action_score_exhaustive self b player a in
           Ok (keep_best player best score a))
    (if player =? 1 then NegInf else PosInf, first) legal.
Proof.
  unfold search_root_exhaustive. destruct (random_choice legal); try reflexivity.
  cbn [bind]. apply foldM_ext. intros s x _. unfold action_score_exhaustive.
  now destruct (apply_move b (dict_to_move x) player).
Qed.

(** On a well-formed board the two scores of a candidate are the same. *)
Lemma action_score_exact (b : Board) (player : Z) (a : Action) :
  valid_board (board_size (rules self)) b = true ->
  action_score self b player a = action_score_exhaustive self b player a.
Proof.
  intros Hb. unfold action_score, action_score_exhaustive.
  destruct (apply_move b (dict_to_move a) player) as [nb| |] eqn:Hnb;
    try reflexivity.
  cbn [bind]. pose proof (apply_move_valid _ _ _ _ _ Hb Hnb) as Hvnb.
  destruct (minimax_full_window self (depth self - 1) nb (player * -1) Hvnb)
    as (v & -> & ->).
  reflexivity.
Qed.

Lemma action_score_fin (b : Board) (player : Z) (a : Action) :
  valid_board (board_size (rules self)) b = true ->
  applicable (board_size (rules self)) (dict_to_move a) ->
  exists s, action_score self b player a = Ok (Fin s).
Proof.
  intros Hb Ha. unfold action_score.
  destruct (apply_move_total _ b (dict_to_move a) player Hb Ha)
    as (nb & -> & Hvnb).
  cbn [bind].
  destruct (minimax_full_window self (depth self - 1) nb (player * -1) Hvnb)
    as (v & -> & _).
  eauto.
Qed.

End Root.

(** The loop of [select_action] for player +1 keeps the first of the
    highest scores. *)
Lemma fold_keep_best_max (sc : Action -> Z) (player : Z) (l : list Action) :
  (player =? 1) = true ->
  forall st : pyfloat * Action,
    (foldl (fun best a => keep_best player best (Fin (sc a)) a) st l = st
     /\ forall a, a ∈ l -> flt st.1 (Fin (sc a)) = false)
    \/ (exists i a,
          l !! i = Some a
          /\ foldl (fun best a => keep_best player best (Fin (sc a)) a) st l
             = (Fin (sc a), a)
          /\ flt st.1 (Fin (sc a)) = true
          /\ forall j a', l !! j = Some a' ->
               sc a' <= sc a /\ ((j < i)%nat -> sc a' < sc a)).
Proof.
  intros Hp. induction l as [|x l IH]; intros st; cbn [foldl].
  - left. split; [reflexivity|]. intros a Ha. now apply elem_of_nil in Ha.
  - replace (keep_best player st (Fin (sc x)) x)
      with (if flt st.1 (Fin (sc x)) then (Fin (sc x), x) else st)
      by (unfold keep_best; now rewrite Hp).
    destruct (flt st.1 (Fin (sc x))) eqn:Hx.
    + right. destruct (IH (Fin (sc x), x)) as [[Hres Hall]|(i & a & Hi & Hres & Hlt & Hmax)].
      * exists 0%nat, x. split; [reflexivity|]. split; [exact Hres|].
        split; [exact Hx|]. intros [|j] a' Hj; cbn in Hj.
        -- injection Hj as <-. lia.
        -- specialize (Hall a' (list_elem_of_lookup_2 _ _ _ Hj)).
           cbn in Hall. apply Z.ltb_ge in Hall. lia.
      * cbn in Hlt. apply Z.ltb_lt in Hlt.
        exists (S i), a. split; [exact Hi|]. split; [exact Hres|].
        split.
        { destruct st.1; cbn in *; try reflexivity; try discriminate.
          apply Z.ltb_lt in Hx. apply Z.ltb_lt. lia. }
        intros [|j] a' Hj; cbn in Hj.
        -- injection Hj as <-. lia.
        -- destruct (Hmax j a' Hj). split; [assumption|]. intros. lia.
    + destruct (IH st) as [[Hres Hall]|(i & a & Hi & Hres & Hlt & Hmax)].
      * left. split; [exact Hres|].
        intros a [->|Ha]%elem_of_cons; [exact Hx|now apply Hall].
      * right. exists (S i), a. split; [exact Hi|]. split; [exact Hres|].
        split; [exact Hlt|].
        intros [|j] a' Hj; cbn in Hj.
        -- injection Hj as <-.
           destruct st.1; cbn in *; try discriminate.
           apply Z.ltb_ge in Hx. apply Z.ltb_lt in Hlt. lia.
        -- destruct (Hmax j a' Hj). split; [assumption|]. intros. lia.
Qed.

(** For any other player it keeps the first of the lowest scores. *)
Lemma fold_keep_best_min (sc : Action -> Z) (player : Z) (l : list Action) :
  (player =? 1) = false ->
  forall st : pyfloat * Action,
    (foldl (fun best a => keep_best player best (Fin (sc a)) a) st l = st
     /\ forall a, a ∈ l -> flt (Fin (sc a)) st.1 = false)
    \/ (exists i a,
          l !! i = Some a
          /\ foldl (fun best a => keep_best player best (Fin (sc a)) a) st l
             = (Fin (sc a), a)
          /\ flt (Fin (sc a)) st.1 = true
          /\ forall j a', l !! j = Some a' ->
               sc a <= sc a' /\ ((j < i)%nat -> sc a < sc a')).
Proof.
  intros Hp. induction l as [|x l IH]; intros st; cbn [foldl].
  - left. split; [reflexivity|]. intros a Ha. now apply elem_of_nil in Ha.
  - replace (keep_best player st (Fin (sc x)) x)
      with (if flt (Fin (sc x)) st.1 then (Fin (sc x), x) else st)
      by (unfold keep_best; now rewrite Hp).
    destruct (flt (Fin (sc x)) st.1) eqn:Hx.
    + right. destruct (IH (Fin (sc x), x)) as [[Hres Hall]|(i & a & Hi & Hres & Hlt & Hmax)].
      * exists 0%nat, x. split; [reflexivity|]. split; [exact Hres|].
        split; [exact Hx|]. intros [|j] a' Hj; cbn in Hj.
        -- injection Hj as <-. lia.
        -- specialize (Hall a' (list_elem_of_lookup_2 _ _ _ Hj)).
           cbn in Hall. apply Z.ltb_ge in Hall. lia.
      * cbn in Hlt. apply Z.ltb_lt in Hlt.
        exists (S i), a. split; [exact Hi|]. split; [exact Hres|].
        split.
        { destruct st.1; cbn in *; try reflexivity; try discriminate.
          apply Z.ltb_lt in Hx. apply Z.ltb_lt. lia. }
        intros [|j] a' Hj; cbn in Hj.
        -- injection Hj as <-. lia.
        -- destruct (Hmax j a' Hj). split; [assumption|]. intros. lia.
    + destruct (IH st) as [[Hres Hall]|(i & a & Hi & Hres & Hlt & Hmax)].
      * left. split; [exact Hres|].
        intros a [->|Ha]%elem_of_cons; [exact Hx|now apply Hall].
      * right. exists (S i), a. split; [exact Hi|]. split; [exact Hres|].
        split; [exact Hlt|].
        intros [|j] a' Hj; cbn in Hj.
        -- injection Hj as <-.
           destruct st.1; cbn in *; try discriminate.
           apply Z.ltb_ge in Hx. apply Z.ltb_lt in Hlt. lia.
        -- destruct (Hmax j a' Hj). split; [assumption|]. intros. lia.
Qed.

Section RootChoice.

Variable self : HeuristicAgent.

(** The loop of [select_action] ends on the first candidate of extreme
    score, with that score. *)
Lemma search_root_first_extreme (b : Board) (legal : list Action) (player : Z) :
  valid_board (board_size (rules self)) b = true ->
  legal <> [] ->
  Forall (fun a => applicable (board_size (rules self)) (dict_to_move a)) legal ->
  exists (i : nat) (best : Action) (s : Z),
    search_root self b legal player = Ok (Fin s, best)
    /\ legal !! i = Some best
    /\ action_score self b player best = Ok (Fin s)
    /\ forall (j : nat) (a : Action), legal !! j = Some a ->
         exists sj, action_score self b player a = Ok (Fin sj)
           /\ if player =? 1 then sj <= s /\ ((j < i)%nat -> sj < s)
              else s <= sj /\ ((j < i)%nat -> s < sj).
Proof.
  intros Hb Hne Happ.
  set (sc := fun a => match action_score self b player a with
                      | Ok (Fin z) => z
                      | _ => 0
                      end).
  assert (Hsc : forall a, a ∈ legal ->
                  action_score self b player a = Ok (Fin (sc a))).
  { intros a Ha. rewrite Forall_forall in Happ.
    destruct (action_score_fin self b player a Hb (Happ a Ha)) as [s Hs].
    unfold sc. now rewrite Hs. }
  rewrite search_root_scores.
  destruct legal as [|first rest] eqn:El; [congruence|].
  rewrite <- El in *. cbn [random_choice bind].
  replace (random_choice legal) with (Ok first) by (now rewrite El).
  cbn [bind].
  rewrite (foldM_pure _ (fun best a => keep_best player best (Fin (sc a)) a)).
  2:{ intros st a Ha. now rewrite (Hsc a Ha). }
  assert (Hfirst : legal !! 0%nat = Some first) by now rewrite El.
  destruct (player =? 1) eqn:Hp.
  - destruct (fold_keep_best_max sc player legal Hp (NegInf, first))
      as [[_ Hall]|(i & a & Hi & Hres & _ & Hmax)].
    { specialize (Hall first (list_elem_of_lookup_2 _ _ _ Hfirst)).
      discriminate Hall. }
    exists i, a, (sc a). split; [now rewrite Hres|]. split; [exact Hi|].
    split; [apply Hsc; eapply list_elem_of_lookup_2; exact Hi|].
    intros j a' Hj. exists (sc a').
    split; [apply Hsc; eapply list_elem_of_lookup_2; exact Hj|].
    now apply Hmax.
  - destruct (fold_keep_best_min sc player legal Hp (PosInf, first))
      as [[_ Hall]|(i & a & Hi & Hres & _ & Hmax)].
    { specialize (Hall first (list_elem_of_lookup_2 _ _ _ Hfirst)).
      discriminate Hall. }
    exists i, a, (sc a). split; [now rewrite Hres|]. split; [exact Hi|].
    split; [apply Hsc; eapply list_elem_of_lookup_2; exact Hi|].
    intros j a' Hj. exists (sc a').
    split; [apply Hsc; eapply list_elem_of_lookup_2; exact Hj|].
    now apply Hmax.
Qed.

(** The loops of the pruned and of the exhaustive search at the root are
    the same computation. *)
Lemma search_root_exact (b : Board) (legal : list Action) (player : Z) :
  valid_board (board_size (rules self)) b = true ->
  search_root self b legal player = search_root_exhaustive self b legal player.
Proof.
  intros Hb. rewrite search_root_scores, search_root_exhaustive_scores.
  destruct (random_choice legal); try reflexivity. cbn [bind].
  apply foldM_ext. intros s x _. now rewrite action_score_exact.
Qed.

End RootChoice.

(** C9. With two or more candidates [select_action] returns the first
    candidate of the list whose score is extreme among all candidates, the
    highest for player +1, the lowest otherwise. The result is a function of
    the board, the list and the depth: [random_choice] takes the first
    element and nothing is drawn at random. *)
Theorem select_action_first_extreme (self : HeuristicAgent) (b : Board)
  (legal : list Action) (player : Z) :
  valid_board (board_size (rules self)) b = true ->
  (1 <= depth self)%nat ->
  (2 <= length legal)%nat ->
  Forall (fun a => applicable (board_size (rules self)) (dict_to_move a)) legal ->
  exists (i : nat) (best : Action) (s : Z),
    select_action self b legal player = Ok (Some best)
    /\ legal !! i = Some best
    /\ action_score self b player best = Ok (Fin s)
    /\ forall (j : nat) (a : Action), legal !! j = Some a ->
         exists sj, action_score self b player a = Ok (Fin sj)
           /\ if player =? 1 then sj <= s /\ ((j < i)%nat -> sj < s)
              else s <= sj /\ ((j < i)%nat -> s < sj).
Proof.
  intros Hb _ Hlen Happ.
  assert (Hne : legal <> []) by (destruct legal; cbn in Hlen; [lia|discriminate]).
  destruct (search_root_first_extreme self b legal player Hb Hne Happ)
    as (i & best & s & Hroot & Hi & Hs & Hmax).
  exists i, best, s. split; [|auto].
  destruct legal as [|a1 [|a2 rest]]; cbn in Hlen; try lia.
  unfold select_action. now rewrite Hroot.
Qed.

Lemma select_action_first_extreme_witness :
  let legal := [to_dict (mkMove (2, 1) (3, 0) [] false);
                to_dict (mkMove (2, 1) (3, 2) [] false)] in
  exists (i : nat) (best : Action) (s : Z),
    select_action (agent_of_depth 2) board_of_two_choices legal 1
    = Ok (Some best)
    /\ legal !! i = Some best
    /\ action_score (agent_of_depth 2) board_of_two_choices 1 best = Ok (Fin s)
    /\ forall (j : nat) (a : Action), legal !! j = Some a ->
         exists sj,
           action_score (agent_of_depth 2) board_of_two_choices 1 a
           = Ok (Fin sj)
           /\ if 1 =? 1 then sj <= s /\ ((j < i)%nat -> sj < s)
              else s <= sj /\ ((j < i)%nat -> s < sj).
Proof.
  apply (select_action_first_extreme (agent_of_depth 2) board_of_two_choices
           [to_dict (mkMove (2, 1) (3, 0) [] false);
            to_dict (mkMove (2, 1) (3, 2) [] false)] 1).
  - reflexivity.
  - cbn. lia.
  - cbn. lia.
  - repeat constructor; cbn; lia.
Defined.

(** C6. On a well-formed board and for a list of candidates, the search with
    alpha-beta pruning and the exhaustive search to the same depth select
    the same move by the same score. *)
Theorem alpha_beta_equivalence (self : HeuristicAgent) (b : Board)
  (legal : list Action) (player : Z) :
  valid_board (board_size (rules self)) b = true ->
  (1 <= depth self)%nat ->
  legal <> [] ->
  Forall (fun a => applicable (board_size (rules self)) (dict_to_move a)) legal ->
  exists (score : Z) (best : Action),
    search_root self b legal player = Ok (Fin score, best)
    /\ search_root_exhaustive self b legal player = Ok (Fin score, best)
    /\ select_action self b legal player = Ok (Some best)
    /\ select_action_exhaustive self b legal player = Ok (Some best).
Proof.
  intros Hb _ Hne Happ.
  destruct (search_root_first_extreme self b legal player Hb Hne Happ)
    as (i & best & s & Hroot & Hi & _).
  pose proof (search_root_exact self b legal player Hb) as Hex.
  exists s, best. split; [exact Hroot|]. split; [congruence|].
  destruct legal as [|a1 [|a2 rest]]; [congruence| |].
  - destruct i; cbn in Hi; [|discriminate]. injection Hi as <-. split; reflexivity.
  - unfold select_action, select_action_exhaustive.
    rewrite <- Hex, Hroot. split; reflexivity.
Qed.

Lemma alpha_beta_equivalence_witness :
  let legal := [to_dict (mkMove (2, 1) (3, 0) [] false);
                to_dict (mkMove (2, 1) (3, 2) [] false)] in
  exists (score : Z) (best : Action),
    search_root (agent_of_depth 3) board_of_two_choices legal 1
    = Ok (Fin score, best)
    /\ search_root_exhaustive (agent_of_depth 3) board_of_two_choices legal 1
       = Ok (Fin score, best)
    /\ select_action (agent_of_depth 3) board_of_two_choices legal 1
       = Ok (Some best)
    /\ select_action_exhaustive (agent_of_depth 3) board_of_two_choices legal 1
       = Ok (Some best).
Proof.
  apply (alpha_beta_equivalence (agent_of_depth 3) board_of_two_choices
           [to_dict (mkMove (2, 1) (3, 0) [] false);
            to_dict (mkMove (2, 1) (3, 2) [] false)] 1).
  - reflexivity.
  - cbn. lia.
  - discriminate.
  - repeat constructor; cbn; lia.
Defined.

(** * Further properties of the rules *)

(** ** Non-capturing moves *)

Section SimpleMoves.

Variable self : CheckersRules.

Lemma get_move_directions_diagonal (piece : Z) (is_king : bool) (d : Z * Z) :
  d ∈ get_move_directions piece is_king ->
  Z.abs d.1 = 1 /\ Z.abs d.2 = 1
  /\ (is_king = false -> d.1 = if piece >? 0 then 1 else -1).
Proof.
  unfold get_move_directions. destruct is_king; [|destruct (piece >? 0)];
    intros Hd; repeat (apply elem_of_cons in Hd as [->|Hd]);
    try (now apply elem_of_nil in Hd); cbn; repeat split; try lia; discriminate.
Qed.

Lemma get_simple_moves_steps (b : Board) (row col player : Z) (ms : list Move) :
  get_simple_moves self b row col player = Ok ms ->
  Forall (fun m =>
    exists piece d,
      getitem b row col = Ok piece
      /\ d ∈ get_move_directions piece (Z.abs piece =? 2)
      /\ from_pos m = (row, col) /\ to_pos m = (row + d.1, col + d.2)
      /\ captures m = []
      /\ is_valid_square self (row + d.1) (col + d.2) = true
      /\ getitem b (row + d.1) (col + d.2) = Ok 0
      /\ promotion m =
           (if negb (Z.abs piece =? 2) then
              if (player =? 1) && (row + d.1 =? board_size self - 1) then true
              else if (player =? -1) && (row + d.1 =? 0) then true
              else false
            else false)) ms.
Proof.
  unfold get_simple_moves. intros H. inv_bind H. rename x into piece.
  eapply flat_mapM_Forall; [|exact H].
  intros d zs Hd Hzs. cbv beta in Hzs.
  destruct (is_valid_square self (row + d.1) (col + d.2)) eqn:Hv;
    cbn [negb] in Hzs.
  2:{ injection Hzs as <-. constructor. }
  inv_bind Hzs. unfold EMPTY in *.
  destruct (Z.eqb_spec x 0) as [->|].
  2:{ injection Hzs as <-. constructor. }
  injection Hzs as <-. repeat constructor.
  exists piece, d. cbn. repeat split; assumption.
Qed.

Lemma get_simple_moves_simple_step (b : Board) (row col player piece : Z)
  (ms : list Move) :
  is_valid_square self row col = true ->
  getitem b row col = Ok piece ->
  player = 1 /\ piece > 0 \/ player = -1 /\ piece < 0 ->
  get_simple_moves self b row col player = Ok ms ->
  Forall (simple_step self b player) ms.
Proof.
  intros Hv Hpiece Hsign H. apply get_simple_moves_steps in H.
  eapply Forall_impl; [exact H|]. cbn beta.
  intros m (piece' & d & Hp' & Hd & Hfrom & Hto & _ & Hvalid & Hempty & Hpromo).
  assert (piece' = piece) as -> by congruence.
  apply get_move_directions_diagonal in Hd as (Hd1 & Hd2 & Hman).
  exists piece. rewrite Hfrom, Hto. cbn [fst snd].
  replace (row + d.1 - row) with d.1 by lia.
  replace (col + d.2 - col) with d.2 by lia.
  split; [assumption|]. split; [assumption|]. split; [assumption|].
  split; [assumption|]. split; [assumption|]. split; [assumption|].
  split; [assumption|]. split.
  - intros Hk. rewrite Hman by (now apply Z.eqb_neq).
    destruct Hsign as [[-> Hs]|[-> Hs]], (Z.gtb_spec piece 0); lia.
  - rewrite Hpromo.
    destruct (Z.eqb_spec (Z.abs piece) 2) as [Hk|Hk]; cbn [negb].
    { split; [discriminate|tauto]. }
    destruct Hsign as [[-> Hs]|[-> Hs]]; cbn [Z.eqb Pos.eqb andb].
    + destruct (Z.eqb_spec (row + d.1) (board_size self - 1));
        split; try tauto; discriminate.
    + destruct (Z.eqb_spec (row + d.1) 0);
        split; try tauto; discriminate.
Qed.

Lemma collect_moves_simple_step (b : Board) (player : Z)
  (collected : list Move * list Move) :
  collect_moves self b player = Ok collected ->
  Forall (simple_step self b player) collected.1
  /\ Forall (fun m => captures m <> []) collected.2.
Proof.
  intros H. split.
  2:{ destruct (collect_moves_applicable self _ _ _ H) as [_ H2].
      eapply Forall_impl; [exact H2|]. cbn beta. tauto. }
  revert H. unfold collect_moves. intros H.
  eapply (gatherM_Forall (simple_step self b player) (fun _ => True));
    [|exact H].
  intros sq p _ Hp.
  apply piece_moves_Ok in Hp
    as [->|(piece & Hv & Hpiece & Hsign & Hs & _)].
  { split; constructor. }
  split; [|apply Forall_true; auto].
  eapply get_simple_moves_simple_step; eassumption.
Qed.

End SimpleMoves.

(** X1. A legal move without captures starts on a piece of the player, on a
    playable square, and ends on an empty playable square one diagonal step
    away; a man steps forward, towards the opponent's side; the move
    promotes exactly when a man reaches the last row of its direction. *)
Theorem legal_simple_moves_are_steps (self : CheckersRules) (b : Board)
  (player : Z) :
  valid_board (board_size self) b = true ->
  exists ms,
    get_legal_moves self b player = Ok ms
    /\ Forall (fun m => captures m = [] -> simple_step self b player m) ms.
Proof.
  intros Hb. destruct (get_legal_moves_total self b player Hb) as [ms Hms].
  exists ms. split; [exact Hms|].
  apply get_legal_moves_Ok in Hms as (collected & Hc & ->).
  destruct (collect_moves_simple_step self _ _ _ Hc) as [H1 H2].
  assert (H1' : Forall (fun m => captures m = [] -> simple_step self b player m)
                  collected.1)
    by (eapply Forall_impl; [exact H1|]; cbn beta; tauto).
  assert (H2' : Forall (fun m => captures m = [] -> simple_step self b player m)
                  collected.2)
    by (eapply Forall_impl; [exact H2|]; cbn beta; tauto).
  destruct (capture_forced self && _), (prefer_longest_capture self);
    try assumption.
  rewrite Forall_forall in H2' |- *.
  intros m [_ Hm]%list_elem_of_filter. now apply H2'.
Qed.

Lemma legal_simple_moves_are_steps_witness :
  exists ms,
    get_legal_moves default_rules board_of_two_choices 1 = Ok ms
    /\ Forall (fun m => captures m = [] ->
                        simple_step default_rules board_of_two_choices 1 m) ms.
Proof.
  apply (legal_simple_moves_are_steps default_rules board_of_two_choices 1).
  reflexivity.
Defined.

Lemma apply_simple_step (self : CheckersRules) (b : Board) (player : Z)
  (m : Move) :
  valid_board (board_size self) b = true ->
  captures m = [] -> simple_step self b player m ->
  exists piece b',
    getitem b (from_pos m).1 (from_pos m).2 = Ok piece
    /\ apply_move b m player = Ok b'
    /\ valid_board (board_size self) b' = true
    /\ relocated b b' m player piece.
Proof.
  intros Hb Hcap (piece & Hpiece & Hsign & Hfv & Htv & Hempty & _).
  exists piece.
  destruct (from_pos m) as [fr fc] eqn:Efrom, (to_pos m) as [tr tc] eqn:Eto.
  cbn [fst snd] in *.
  pose proof (is_valid_square_on_board _ _ _ Hfv) as Hfo.
  pose proof (is_valid_square_on_board _ _ _ Htv) as Hto.
  destruct (getitem_valid _ _ _ _ Hb Hfo) as (p' & Hp' & Hvp).
  assert (p' = piece) as -> by congruence.
  destruct (setitem_valid _ b tr tc piece Hb Hto Hvp) as (b2 & H2 & Hb2).
  destruct (setitem_valid _ b2 fr fc EMPTY Hb2 Hfo eq_refl) as (b3 & H3 & Hb3).
  destruct Hfo as [Hfr Hfc], Hto as [Htr Htc].
  assert (Hne : ~ (tr = fr /\ tc = fc)).
  { intros [-> ->]. rewrite Hpiece in Hempty. injection Hempty as ->. lia. }
  assert (G3 : forall r c, 0 <= r -> 0 <= c ->
    getitem b3 r c = if decide (fr = r /\ fc = c) then Ok 0
                     else if decide (tr = r /\ tc = c) then Ok piece
                     else getitem b r c).
  { intros r c Hr Hc.
    rewrite (getitem_setitem _ _ _ _ _ _ _ H3) by lia.
    now rewrite (getitem_setitem _ _ _ _ _ _ _ H2) by lia. }
  assert (Hk : king_of player
               = if player =? 1 then PLAYER1_KING else PLAYER2_KING)
    by reflexivity.
  assert (exists b',
    apply_move b m player = Ok b'
    /\ valid_board (board_size self) b' = true
    /\ forall r c, 0 <= r -> 0 <= c ->
         getitem b' r c =
           if decide (tr = r /\ tc = c)
           then Ok (if promotion m then king_of player else piece)
           else getitem b3 r c) as (b' & Hb' & Hvb' & G4).
  { unfold apply_move. rewrite Hcap, Efrom, Eto. cbn [foldM bind fst snd].
    rewrite Hpiece. cbn [bind]. rewrite H2. cbn [bind]. rewrite H3.
    cbn [bind]. destruct (promotion m).
    - destruct (setitem_valid _ b3 tr tc (king_of player) Hb3
                  (conj Htr Htc) (valid_cell_king_of player))
        as (b4 & H4 & Hb4).
      exists b4. split; [unfold king_of in H4; now destruct (player =? 1)|].
      split; [assumption|]. intros r c Hr Hc.
      now rewrite (getitem_setitem _ _ _ _ _ _ _ H4) by lia.
    - exists b3. split; [reflexivity|]. split; [assumption|].
      intros r c Hr Hc. case_decide as Heq; [|reflexivity].
      destruct Heq as [<- <-]. rewrite G3 by lia.
      rewrite decide_False by lia. now rewrite decide_True. }
  exists b'. split; [exact Hpiece|]. split; [exact Hb'|]. split; [exact Hvb'|].
  unfold relocated. rewrite Efrom, Eto. cbn [fst snd].
  split; [|split].
  - rewrite G4 by lia. rewrite decide_False by lia.
    rewrite G3 by lia. now rewrite decide_True.
  - rewrite G4 by lia. now rewrite decide_True.
  - intros r c Hr Hc Hnf Hnt.
    assert (~ (tr = r /\ tc = c)) by (intros [<- <-]; now apply Hnt).
    assert (~ (fr = r /\ fc = c)) by (intros [<- <-]; now apply Hnf).
    rewrite G4 by lia. rewrite decide_False by assumption.
    rewrite G3 by lia. now rewrite !decide_False by assumption.
Qed.

(** X2. Applying a legal move without captures raises nothing, moves the
    piece to its destination, as the king of the player when the move
    promotes, empties the square it left, changes no other cell and leaves
    a well-formed board. *)
Theorem legal_simple_moves_apply (self : CheckersRules) (b : Board)
  (player : Z) :
  valid_board (board_size self) b = true ->
  exists ms,
    get_legal_moves self b player = Ok ms
    /\ Forall (fun m => captures m = [] ->
         exists piece b',
           getitem b (from_pos m).1 (from_pos m).2 = Ok piece
           /\ apply_move b m player = Ok b'
           /\ valid_board (board_size self) b' = true
           /\ relocated b b' m player piece) ms.
Proof.
  intros Hb.
  destruct (get_legal_moves_total self b player Hb) as [ms Hms].
  exists ms. split; [exact Hms|].
  apply get_legal_moves_Ok in Hms as (collected & Hc & ->).
  destruct (collect_moves_simple_step self _ _ _ Hc) as [H1 H2].
  set (good := fun m => captures m = [] ->
         exists piece b',
           getitem b (from_pos m).1 (from_pos m).2 = Ok piece
           /\ apply_move b m player = Ok b'
           /\ valid_board (board_size self) b' = true
           /\ relocated b b' m player piece).
  assert (H1' : Forall good collected.1).
  { eapply Forall_impl; [exact H1|]. intros m Hm Hcap.
    now apply (apply_simple_step self). }
  assert (H2' : Forall good collected.2)
    by (eapply Forall_impl; [exact H2|]; unfold good; cbn beta; tauto).
  destruct (capture_forced self && _), (prefer_longest_capture self);
    try assumption.
  rewrite Forall_forall in H2' |- *.
  intros m [_ Hm]%list_elem_of_filter. now apply H2'.
Qed.

Lemma legal_simple_moves_apply_witness :
  exists ms,
    get_legal_moves default_rules board_of_two_choices 1 = Ok ms
    /\ Forall (fun m => captures m = [] ->
         exists piece b',
           getitem board_of_two_choices (from_pos m).1 (from_pos m).2 = Ok piece
           /\ apply_move board_of_two_choices m 1 = Ok b'
           /\ valid_board (board_size default_rules) b' = true
           /\ relocated board_of_two_choices b' m 1 piece) ms.
Proof.
  apply (legal_simple_moves_apply default_rules board_of_two_choices 1).
  reflexivity.
Defined.

(** ** Capture moves *)

Lemma generate_captures_end_with_jump (self : CheckersRules) (player : Z)
  (fuel : nat) (b : Board) (row col : Z) (caps : list Pos) (ms : list Move) :
  generate_captures_recursive self fuel b row col player caps = Ok ms ->
  Forall (ends_with_jump self) ms.
Proof.
  intros H.
  eapply (generate_captures_ind self player (fun _ _ _ _ => True));
    [|exact I|exact H].
  clear. intros b row col caps d nb promo moving _ _ Hd Hj. split; [exact I|].
  apply get_move_directions_diagonal in Hd as (Hd1 & Hd2 & _).
  destruct Hj as [jumped moving' b1 b2 b3 Hjv _ _ _ Hlv _ _ _ _ _ _ _].
  exists d. cbn. rewrite last_snoc. repeat split; assumption.
Qed.

(** X3. A legal move with captures ends with a jump: its destination lies
    two diagonal steps from its [from_pos], on a playable square, and the
    last captured square is the one between them. For a sequence of several
    jumps [from_pos] is therefore the square the last jump starts from. *)
Theorem legal_capture_moves_end_with_jump (self : CheckersRules) (b : Board)
  (player : Z) :
  valid_board (board_size self) b = true ->
  exists ms,
    get_legal_moves self b player = Ok ms
    /\ Forall (fun m => captures m <> [] -> ends_with_jump self m) ms.
Proof.
  intros Hb.
  destruct (get_legal_moves_total self b player Hb) as [ms Hms].
  exists ms. split; [exact Hms|].
  apply get_legal_moves_Ok in Hms as (collected & Hc & ->).
  assert (Forall (fun m => captures m = []) collected.1
          /\ Forall (ends_with_jump self) collected.2) as [H1 H2].
  { revert Hc. apply gatherM_Forall. intros sq p _ Hp.
    apply piece_moves_Ok in Hp as [->|(piece & _ & _ & _ & Hs & Hcm)];
      [split; constructor|].
    split.
    - apply get_simple_moves_spec in Hs.
      eapply Forall_impl; [exact Hs|]. cbn beta. tauto.
    - eapply generate_captures_end_with_jump. exact Hcm. }
  assert (H1' : Forall (fun m => captures m <> [] -> ends_with_jump self m)
                  collected.1)
    by (eapply Forall_impl; [exact H1|]; cbn beta; tauto).
  assert (H2' : Forall (fun m => captures m <> [] -> ends_with_jump self m)
                  collected.2)
    by (eapply Forall_impl; [exact H2|]; cbn beta; tauto).
  destruct (capture_forced self && _), (prefer_longest_capture self);
    try assumption.
  rewrite Forall_forall in H2' |- *.
  intros m [_ Hm]%list_elem_of_filter. now apply H2'.
Qed.

Lemma legal_capture_moves_end_with_jump_witness :
  exists ms,
    get_legal_moves default_rules board_of_two_jumps 1 = Ok ms
    /\ Forall (fun m => captures m <> [] -> ends_with_jump default_rules m) ms.
Proof.
  apply (legal_capture_moves_end_with_jump default_rules board_of_two_jumps 1).
  reflexivity.
Defined.

(** ** Captures take the opponent's pieces, and only those *)

Lemma filter_length_insert (P : Z -> bool) (row : list Z) (j : nat) (old v : Z) :
  row !! j = Some old ->
  (length (filter (fun v => P v = true) (<[j := v]> row)) + ind (P old)
   = length (filter (fun v => P v = true) row) + ind (P v))%nat.
Proof.
  revert j. induction row as [|w row IH]; intros j Hj; [discriminate|].
  destruct j as [|j]; cbn [insert list_insert] in *.
  - injection Hj as ->. rewrite !filter_cons.
    destruct (P old), (P v); repeat case_decide; cbn; try congruence; lia.
  - specialize (IH j Hj). rewrite !filter_cons.
    case_decide; cbn [length Nat.add]; [f_equal|]; exact IH.
Qed.

Lemma sum_list_fmap_insert (f : list Z -> nat) (b : Board) (i : nat)
  (row row' : list Z) :
  b !! i = Some row ->
  (sum_list (f <$> <[i := row']> b) + f row = sum_list (f <$> b) + f row')%nat.
Proof.
  revert i. induction b as [|r b IH]; intros i Hi; [discriminate|].
  destruct i as [|i]; cbn in *.
  - injection Hi as ->. lia.
  - specialize (IH i Hi). rewrite <- !Nat.add_assoc. f_equal. exact IH.
Qed.

Lemma count_where_setitem (P : Z -> bool) (b b' : Board) (r c v old : Z) :
  setitem b r c v = Ok b' -> getitem b r c = Ok old ->
  (count_where P b' + ind (P old) = count_where P b + ind (P v))%nat.
Proof.
  unfold setitem, getitem. intros H G.
  destruct (norm_index (length b) r) as [i| |]; try discriminate.
  cbn [bind] in *.
  destruct (b !! i) as [row|] eqn:Hrow; [|discriminate].
  destruct (norm_index (length row) c) as [j| |]; try discriminate.
  cbn [bind] in *.
  destruct (row !! j) as [w|] eqn:Hw; [|discriminate].
  injection G as ->. injection H as <-. unfold count_where.
  pose proof (sum_list_fmap_insert
    (fun r : list Z => length (filter (fun v => P v = true) r))
    b i row (<[j := v]> row) Hrow) as E1.
  pose proof (filter_length_insert P row j old v Hw) as E2.
  cbv beta in E1. lia.
Qed.

(** The loop of [apply_move] over distinct captured cells that satisfy [P]
    takes just these off the count of [P]. *)
Lemma clear_captures_count (P : Z -> bool) (caps : list Pos) :
  P 0 = false ->
  forall b b1 : Board,
    Forall (fun q : Pos => 0 <= q.1 /\ 0 <= q.2) caps ->
    NoDup caps ->
    Forall (fun q : Pos => exists v, getitem b q.1 q.2 = Ok v /\ P v = true)
      caps ->
    foldM (fun b0 (cap : Pos) => setitem b0 cap.1 cap.2 EMPTY) b caps = Ok b1 ->
    (count_where P b1 + length caps = count_where P b)%nat.
Proof.
  intros HP0. induction caps as [|q caps IH]; intros b b1 Hnn Hnd Hocc H.
  - injection H as <-. cbn. lia.
  - apply Forall_cons in Hnn as [[Hq1 Hq2] Hnn].
    apply NoDup_cons in Hnd as [Hnotin Hnd].
    apply Forall_cons in Hocc as [(v & Hv & HPv) Hocc].
    cbn [foldM] in H. inv_bind H. rename x into b0.
    pose proof (count_where_setitem P _ _ _ _ _ _ E Hv) as C.
    unfold EMPTY in C. rewrite HP0, HPv in C. cbn [ind] in C.
    enough (count_where P b1 + length caps = count_where P b0)%nat
      by (cbn [length]; lia).
    apply (IH b0 b1 Hnn Hnd); [|exact H].
    rewrite Forall_forall in Hocc, Hnn |- *. intros p Hp.
    destruct (Hocc p Hp) as (w & Hw & HPw). exists w. split; [|assumption].
    destruct (Hnn p Hp) as [Hp1 Hp2].
    rewrite (getitem_setitem _ _ _ _ _ _ _ E) by lia.
    rewrite decide_False; [assumption|].
    intros [e1 e2]. apply Hnotin. destruct p, q; cbn in *. now subst.
Qed.

Section CaptureEnds.

Variable self : CheckersRules.

Lemma generate_captures_ends_off_opponent (player : Z) (fuel : nat)
  (b : Board) (row col piece : Z) (ms : list Move) :
  0 <= row -> 0 <= col ->
  getitem b row col = Ok piece -> piece * player > 0 ->
  generate_captures_recursive self fuel b row col player [] = Ok ms ->
  Forall (ends_off_opponent b player) ms.
Proof.
  intros Hrow Hcol Hpiece Hown H.
  eapply (generate_captures_ind self player
    (fun b' r c caps =>
       0 <= r /\ 0 <= c
       /\ (exists mv, getitem b' r c = Ok mv /\ mv * player > 0)
       /\ (forall (q : Pos) v, 0 <= q.1 -> 0 <= q.2 ->
             getitem b q.1 q.2 = Ok v -> v * player < 0 ->
             q ∈ caps \/ getitem b' q.1 q.2 = Ok v)));
    [|split; [exact Hrow|]; split; [exact Hcol|]; split; [eauto|];
      intros; now right
     |exact H].
  clear fuel row col piece ms Hrow Hcol Hpiece Hown H.
  intros b' row col caps d nb promo moving
    (Hrow & Hcol & (mv & Hmv & Hown) & Hkeep) Hm _ Hj.
  assert (mv = moving) as -> by congruence.
  pose proof (jump_getitem self _ _ _ _ _ _ _ _ _ Hj Hm Hrow Hcol) as G.
  destruct Hj as [jumped moving' b1 b2 b3 Hjv Hjp Hnz Hnown Hlv Hl _ _ _ _ Hp _].
  pose proof (is_valid_square_on_board _ _ _ Hjv) as [Hjr Hjc].
  pose proof (is_valid_square_on_board _ _ _ Hlv) as [Hlr Hlc].
  assert (promo = true -> player = 1 \/ player = -1) as Hpl.
  { rewrite Hp. destruct (negb (Z.abs moving =? 2)); [|discriminate].
    destruct (Z.eqb_spec player 1); [now left|].
    destruct (Z.eqb_spec player (-1)); [now right|]. discriminate. }
  clear Hp. split.
  - split; [lia|]. split; [lia|]. split.
    { exists (if promo then king_of player else moving). split.
      - rewrite G by lia. now rewrite decide_True by tauto.
      - destruct promo; [|assumption].
        destruct (Hpl eq_refl) as [-> | ->]; reflexivity. }
    intros [qr qc] v Hqr Hqc Hv Hopp. cbn [fst snd] in *.
    destruct (Hkeep (qr, qc) v Hqr Hqc Hv Hopp) as [Hin|Hsame];
      [left; apply elem_of_app; now left|].
    cbn [fst snd] in Hsame.
    destruct (decide (qr = row + d.1 /\ qc = col + d.2)) as [[-> ->]|Hnj].
    { left. apply elem_of_app. right. now left. }
    right. rewrite G by assumption.
    rewrite decide_False.
    2:{ intros [-> ->]. rewrite Hl in Hsame. injection Hsame as <-. lia. }
    rewrite decide_False by assumption.
    rewrite decide_False; [assumption|].
    intros [-> ->]. rewrite Hm in Hsame. injection Hsame as <-. lia.
  - intros q v Hq Hv Hopp. unfold last_move in *. cbn [from_pos to_pos captures] in *.
    destruct Hq as [->| ->]; cbn [fst snd] in *.
    + destruct (Hkeep (row, col) v Hrow Hcol Hv Hopp) as [Hin|Hsame].
      * apply elem_of_app. now left.
      * cbn [fst snd] in Hsame. rewrite Hm in Hsame. injection Hsame as <-. lia.
    + destruct (Hkeep (row + d.1 + d.1, col + d.2 + d.2) v) as [Hin|Hsame];
        cbn [fst snd]; try lia; try assumption.
      * apply elem_of_app. now left.
      * cbn [fst snd] in Hsame. rewrite Hl in Hsame. injection Hsame as <-. lia.
Qed.

End CaptureEnds.

Lemma apply_move_takes_captures (n : Z) (b : Board) (m : Move) (player : Z) :
  valid_board n b = true -> player = 1 \/ player = -1 ->
  applicable n m -> NoDup (captures m) ->
  Forall (opponent_piece b player) (captures m) ->
  ends_off_opponent b player m ->
  exists b',
    apply_move b m player = Ok b'
    /\ (count_where (is_opponent player) b' + length (captures m)
        = count_where (is_opponent player) b)%nat.
Proof.
  intros Hb Hplayer (Hfrom & Hto & Hcaps) Hnd Hopp Hends.
  assert (Hocc : Forall (fun q : Pos =>
            exists v, getitem b q.1 q.2 = Ok v /\ v <> 0) (captures m)).
  { eapply Forall_impl; [exact Hopp|]. intros q (v & Hv & Hs).
    exists v. split; [assumption|lia]. }
  destruct (clear_captures n _ b Hb Hcaps Hnd Hocc) as (b1 & Hf & Hb1 & _ & G1).
  assert (C1 : (count_where (is_opponent player) b1 + length (captures m)
                = count_where (is_opponent player) b)%nat).
  { apply (clear_captures_count (is_opponent player) (captures m) eq_refl b b1);
      try assumption.
    - eapply Forall_impl; [exact Hcaps|]. intros q [? ?]. lia.
    - eapply Forall_impl; [exact Hopp|]. intros q (v & Hv & Hs).
      exists v. split; [assumption|]. unfold is_opponent. lia. }
  pose proof Hfrom as [Hfr Hfc]. pose proof Hto as [Htr Htc].
  (* after the captures, neither end holds a piece of the opponent *)
  assert (Hoff : forall q v, q = from_pos m \/ q = to_pos m ->
            getitem b1 q.1 q.2 = Ok v -> is_opponent player v = false).
  { intros q v Hq Hv.
    assert (0 <= q.1 /\ 0 <= q.2) as [Hq1 Hq2] by (destruct Hq as [->| ->]; lia).
    rewrite G1 in Hv by assumption.
    unfold is_opponent. apply Z.ltb_ge.
    destruct (decide ((q.1, q.2) ∈ captures m)) as [Hin|Hnin].
    - injection Hv as <-. lia.
    - destruct (Z_lt_dec (v * player) 0) as [Hlt|]; [|lia].
      exfalso. apply Hnin. rewrite <- surjective_pairing.
      exact (Hends q v Hq Hv Hlt). }
  assert (Hking : is_opponent player
            (if player =? 1 then PLAYER1_KING else PLAYER2_KING) = false)
    by (destruct Hplayer as [-> | ->]; reflexivity).
  unfold apply_move. rewrite Hf. cbn [bind].
  destruct (getitem_valid _ _ _ _ Hb1 Hfrom) as (pv & Hpv & Hpvc).
  rewrite Hpv. cbn [bind].
  pose proof (Hoff _ _ (or_introl eq_refl) Hpv) as Opv.
  destruct (getitem_valid _ _ _ _ Hb1 Hto) as (tv & Htv & _).
  pose proof (Hoff _ _ (or_intror eq_refl) Htv) as Otv.
  destruct (setitem_valid _ _ _ _ _ Hb1 Hto Hpvc) as (b2 & H2 & Hb2).
  rewrite H2. cbn [bind].
  pose proof (count_where_setitem (is_opponent player) _ _ _ _ _ _ H2 Htv) as C2.
  rewrite Opv, Otv in C2. cbn [ind] in C2.
  assert (G2 : getitem b2 (from_pos m).1 (from_pos m).2 = Ok pv).
  { rewrite (getitem_setitem _ _ _ _ _ _ _ H2) by lia.
    case_decide; [reflexivity|assumption]. }
  destruct (setitem_valid _ _ _ _ EMPTY Hb2 Hfrom eq_refl) as (b3 & H3 & Hb3).
  rewrite H3. cbn [bind].
  pose proof (count_where_setitem (is_opponent player) _ _ _ _ _ _ H3 G2) as C3.
  rewrite Opv in C3. unfold EMPTY in C3.
  change (is_opponent player 0) with false in C3. cbn [ind] in C3.
  destruct (promotion m).
  - assert (exists tv3, getitem b3 (to_pos m).1 (to_pos m).2 = Ok tv3
                        /\ is_opponent player tv3 = false) as (tv3 & G3 & O3).
    { rewrite (getitem_setitem _ _ _ _ _ _ _ H3) by lia.
      case_decide; [exists EMPTY; split; reflexivity|].
      rewrite (getitem_setitem _ _ _ _ _ _ _ H2) by lia.
      rewrite decide_True by tauto. eauto. }
    assert (valid_cell (if player =? 1 then PLAYER1_KING else PLAYER2_KING)
            = true) as Hkc by (destruct (player =? 1); reflexivity).
    destruct (setitem_valid _ _ _ _ _ Hb3 Hto Hkc) as (b4 & H4 & _).
    pose proof (count_where_setitem (is_opponent player) _ _ _ _ _ _ H4 G3) as C4.
    rewrite O3, Hking in C4. cbn [ind] in C4.
    exists b4. split; [destruct (player =? 1); exact H4|lia].
  - exists b3. split; [reflexivity|lia].
Qed.

Section CaptureCount.

Variable self : CheckersRules.

Lemma collect_moves_ends_off_opponent (b : Board) (player : Z)
  (collected : list Move * list Move) :
  collect_moves self b player = Ok collected ->
  Forall (ends_off_opponent b player) collected.1
  /\ Forall (ends_off_opponent b player) collected.2.
Proof.
  apply gatherM_Forall. intros sq p _ Hp.
  apply piece_moves_Ok in Hp
    as [->|(piece & Hv & Hpiece & Hsign & Hs & Hc)]; [split; constructor|].
  pose proof (is_valid_square_on_board _ _ _ Hv) as [Hr Hcl].
  split.
  - apply get_simple_moves_spec in Hs.
    eapply Forall_impl; [exact Hs|]. cbn beta.
    intros m (Hfrom & _ & _ & Hto & _) q v [->| ->] Hq Hlt; exfalso.
    + rewrite Hfrom in Hq. cbn [fst snd] in Hq. rewrite Hpiece in Hq.
      injection Hq as <-. lia.
    + rewrite Hto in Hq. injection Hq as <-. lia.
  - eapply generate_captures_ends_off_opponent; try exact Hc; try eassumption;
      lia.
Qed.

End CaptureCount.

(** X4. Applying a legal move takes exactly [len(move.captures)] pieces of the
    opponent off the board: however the move was found, none of the
    opponent's other pieces is overwritten and none is created. *)
Theorem legal_moves_take_their_captures (self : CheckersRules) (b : Board)
  (player : Z) :
  valid_board (board_size self) b = true ->
  player = 1 \/ player = -1 ->
  exists ms,
    get_legal_moves self b player = Ok ms
    /\ Forall (fun m => exists b',
         apply_move b m player = Ok b'
         /\ (count_where (is_opponent player) b' + length (captures m)
             = count_where (is_opponent player) b)%nat) ms.
Proof.
  intros Hb Hplayer.
  destruct (get_legal_moves_total self b player Hb) as [ms Hms].
  exists ms. split; [assumption|].
  pose proof (get_legal_moves_applicable self _ _ _ Hms) as Happ.
  apply get_legal_moves_Ok in Hms as (collected & Hc & Hms).
  destruct (collect_moves_distinct self _ _ _ Hplayer Hc) as [D1 D2].
  destruct (collect_moves_ends_off_opponent self _ _ _ Hc) as [E1 E2].
  assert (Hall : Forall (fun m =>
            (NoDup (captures m) /\ Forall (opponent_piece b player) (captures m))
            /\ ends_off_opponent b player m) ms).
  { subst ms.
    destruct (capture_forced self && _), (prefer_longest_capture self);
      try (apply Forall_and; split; assumption).
    rewrite Forall_forall in D2, E2 |- *.
    intros m [_ Hm]%list_elem_of_filter. split; [now apply D2|now apply E2]. }
  rewrite Forall_forall in Hall, Happ |- *. intros m Hm.
  destruct (Hall m Hm) as [[Hnd Hopp] Hends].
  eapply apply_move_takes_captures; eauto.
Qed.

Lemma legal_moves_take_their_captures_witness :
  exists ms,
    get_legal_moves default_rules board_of_two_jumps 1 = Ok ms
    /\ Forall (fun m => exists b',
         apply_move board_of_two_jumps m 1 = Ok b'
         /\ (count_where (is_opponent 1) b' + length (captures m)
             = count_where (is_opponent 1) board_of_two_jumps)%nat) ms.
Proof.
  apply (legal_moves_take_their_captures default_rules board_of_two_jumps 1).
  - reflexivity.
  - left. reflexivity.
Defined.

(** ** Terminal states *)

Section Terminal.

Variable self : CheckersRules.

(** The flags of [scan_pieces] only go up. *)
Lemma scan_pieces_flags_up (b : Board) (l : list Pos) (f0 flags : bool * bool) :
  foldM (fun (flags : bool * bool) (sq : Pos) =>
    if negb (is_valid_square self sq.1 sq.2) then Ok flags
    else
      let* piece := getitem b sq.1 sq.2 in
      if piece >? 0 then Ok (true, flags.2)
      else if piece <? 0 then Ok (flags.1, true)
      else Ok flags) f0 l = Ok flags ->
  (f0.1 = true -> flags.1 = true) /\ (f0.2 = true -> flags.2 = true).
Proof.
  apply (foldM_invariant
    (fun t : bool * bool =>
       (f0.1 = true -> t.1 = true) /\ (f0.2 = true -> t.2 = true)));
    [|tauto].
  intros t sq t' _ [H1 H2] H.
  destruct (negb _); [injection H as <-; tauto|].
  inv_bind H. rename x into piece.
  destruct (piece >? 0); [injection H as <-; cbn; tauto|].
  destruct (piece <? 0); injection H as <-; cbn; tauto.
Qed.

(** A player whose flag stays down has nothing to move. *)
Lemma scan_pieces_no_moves (b : Board) (l : list Pos) :
  forall f0 flags : bool * bool,
  foldM (fun (flags : bool * bool) (sq : Pos) =>
    if negb (is_valid_square self sq.1 sq.2) then Ok flags
    else
      let* piece := getitem b sq.1 sq.2 in
      if piece >? 0 then Ok (true, flags.2)
      else if piece <? 0 then Ok (flags.1, true)
      else Ok flags) f0 l = Ok flags ->
  (flags.1 = false -> gatherM (piece_moves self b 1) l = Ok ([], []))
  /\ (flags.2 = false -> gatherM (piece_moves self b (-1)) l = Ok ([], [])).
Proof.
  induction l as [|sq l IH]; intros f0 flags H; [split; reflexivity|].
  cbn [foldM] in H. inv_bind H. rename x into f1.
  destruct (IH _ _ H) as [IH1 IH2].
  destruct (scan_pieces_flags_up _ _ _ _ H) as [U1 U2].
  cbn [gatherM]. unfold piece_moves at 1 3.
  destruct (negb (is_valid_square self sq.1 sq.2)).
  { cbn [bind]. split; intros Hf; [rewrite IH1|rewrite IH2];
      try assumption; reflexivity. }
  inv_bind E. rename x into piece. rewrite E0. cbn [bind].
  destruct (Z.eqb_spec piece 0) as [->|Hnz].
  { cbn [bind]. split; intros Hf; [rewrite IH1|rewrite IH2];
      try assumption; reflexivity. }
  destruct (Z.gtb_spec piece 0) as [Hpos|Hnpos].
  - injection E as <-. cbn [fst snd] in *.
    destruct (Z.ltb_spec piece 0); [lia|]. cbn.
    split; intros Hf; [rewrite U1 in Hf by reflexivity; discriminate|].
    rewrite IH2 by assumption. reflexivity.
  - destruct (Z.ltb_spec piece 0); [|lia].
    injection E as <-. cbn [fst snd] in *. cbn.
    split; intros Hf; [|rewrite U2 in Hf by reflexivity; discriminate].
    rewrite IH1 by assumption. reflexivity.
Qed.

Lemma get_legal_moves_without_pieces (b : Board) (player : Z) :
  collect_moves self b player = Ok ([], []) ->
  get_legal_moves self b player = Ok [].
Proof.
  intros H. apply get_legal_moves_Ok. eexists. split; [exact H|].
  cbn [fst snd]. rewrite bool_decide_true by reflexivity.
  now rewrite andb_false_r.
Qed.

End Terminal.

(** X5. On a well-formed board, and whoever is to move, [is_terminal] reports
    a terminal state exactly when one of the two players has no legal move.
    A terminal state always has a winner, one of the two players: the draw
    that the docstring mentions (winner 0) is never returned. *)
Theorem is_terminal_iff_no_moves (self : CheckersRules) (b : Board)
  (current_player : Z) :
  valid_board (board_size self) b = true ->
  current_player = 1 \/ current_player = -1 ->
  exists over winner ms1 ms2,
    is_terminal self b current_player = Ok (over, winner)
    /\ get_legal_moves self b 1 = Ok ms1
    /\ get_legal_moves self b (-1) = Ok ms2
    /\ (over = true <-> ms1 = [] \/ ms2 = [])
    /\ (if over then winner = Some 1 \/ winner = Some (-1)
        else winner = None).
Proof.
  intros Hb Hcp.
  destruct (get_legal_moves_total self b 1 Hb) as [ms1 H1].
  destruct (get_legal_moves_total self b (-1) Hb) as [ms2 H2].
  destruct (is_terminal_total (mkAgent self 0) b current_player Hb)
    as [[over winner] Ht].
  cbn [rules] in Ht. exists over, winner, ms1, ms2.
  split; [exact Ht|]. split; [exact H1|]. split; [exact H2|].
  unfold is_terminal in Ht. inv_bind Ht. rename x into flags.
  destruct (scan_pieces_no_moves self b _ _ _ E) as [N1 N2].
  assert (Hw : Some current_player = Some 1 \/ Some current_player = Some (-1))
    by (destruct Hcp as [-> | ->]; tauto).
  assert (Hw' : Some (- current_player) = Some 1
                \/ Some (- current_player) = Some (-1))
    by (destruct Hcp as [-> | ->]; tauto).
  destruct flags as [[|] [|]]; cbn [fst snd negb] in *.
  - assert (exists oms pms,
        get_legal_moves self b (- current_player) = Ok oms
        /\ get_legal_moves self b current_player = Ok pms
        /\ (ms1 = [] \/ ms2 = [] <-> oms = [] \/ pms = []))
      as (oms & pms & Ho & Hp & Hiff).
    { destruct Hcp as [-> | ->]; cbn [Z.opp];
        [exists ms2, ms1|exists ms1, ms2]; tauto. }
    rewrite Ho in Ht. cbn [bind] in Ht.
    destruct (decide (oms = [])) as [->|Hone].
    { rewrite bool_decide_true in Ht by reflexivity.
      injection Ht as <- <-. tauto. }
    rewrite bool_decide_false in Ht by assumption.
    rewrite Hp in Ht. cbn [bind] in Ht.
    destruct (decide (pms = [])) as [->|Hpne].
    { rewrite bool_decide_true in Ht by reflexivity.
      injection Ht as <- <-. tauto. }
    rewrite bool_decide_false in Ht by assumption.
    injection Ht as <- <-. split; [|reflexivity].
    split; [discriminate|]. tauto.
  - injection Ht as <- <-. split; [|assumption]. split; [|reflexivity].
    intros _. right.
    rewrite (get_legal_moves_without_pieces self b (-1) (N2 eq_refl)) in H2.
    congruence.
  - injection Ht as <- <-. split; [|assumption]. split; [|reflexivity].
    intros _. left.
    rewrite (get_legal_moves_without_pieces self b 1 (N1 eq_refl)) in H1.
    congruence.
  - injection Ht as <- <-. split; [|assumption]. split; [|reflexivity].
    intros _. left.
    rewrite (get_legal_moves_without_pieces self b 1 (N1 eq_refl)) in H1.
    congruence.
Qed.

Lemma is_terminal_iff_no_moves_witness :
  exists over winner ms1 ms2,
    is_terminal default_rules board_of_two_choices (-1) = Ok (over, winner)
    /\ get_legal_moves default_rules board_of_two_choices 1 = Ok ms1
    /\ get_legal_moves default_rules board_of_two_choices (-1) = Ok ms2
    /\ (over = true <-> ms1 = [] \/ ms2 = [])
    /\ (if over then winner = Some 1 \/ winner = Some (-1)
        else winner = None).
Proof.
  apply (is_terminal_iff_no_moves default_rules board_of_two_choices (-1)).
  - reflexivity.
  - right. reflexivity.
Defined.

(** X6. The option [king_on_last_row] is stored and never read: two rule sets
    that agree on the other three options give the same legal moves and the
    same terminal test, so a man that reaches the last row is promoted also
    when the option is off. *)
Theorem king_on_last_row_is_ignored (r1 r2 : CheckersRules) (b : Board)
  (player : Z) :
  board_size r1 = board_size r2 ->
  capture_forced r1 = capture_forced r2 ->
  prefer_longest_capture r1 = prefer_longest_capture r2 ->
  get_legal_moves r1 b player = get_legal_moves r2 b player
  /\ is_terminal r1 b player = is_terminal r2 b player.
Proof.
  destruct r1 as [n1 f1 l1 k1], r2 as [n2 f2 l2 k2]. cbn.
  intros -> -> ->. split; reflexivity.
Qed.

Lemma king_on_last_row_is_ignored_witness :
  get_legal_moves (mkRules 8 true true false) board_of_one_jump 1
  = get_legal_moves default_rules board_of_one_jump 1
  /\ is_terminal (mkRules 8 true true false) board_of_one_jump 1
     = is_terminal default_rules board_of_one_jump 1.
Proof.
  apply (king_on_last_row_is_ignored (mkRules 8 true true false) default_rules
           board_of_one_jump 1); reflexivity.
Defined.

(** ** The evaluation *)

Lemma eval_cell_mirror (acc : Z * Z * Z) (r c piece : Z) :
  eval_cell (mirror acc) r c (- piece) = mirror (eval_cell acc r c piece).
Proof.
  unfold eval_cell, piece_score, mirror. rewrite Z.abs_opp.
  destruct (Z.eqb_spec piece 0) as [->|Hnz]; [reflexivity|].
  destruct (Z.eqb_spec (- piece) 0); [lia|].
  destruct (Z.gtb_spec piece 0), (Z.gtb_spec (- piece) 0); try lia;
    cbn [fst snd]; rewrite !pair_equal_spec; lia.
Qed.

Lemma eval_row_mirror (r : Z) (row : list Z) :
  forall c acc,
    eval_row r c (map Z.opp row) (mirror acc) = mirror (eval_row r c row acc).
Proof.
  induction row as [|piece row IH]; intros c acc; [reflexivity|].
  cbn [map eval_row]. rewrite eval_cell_mirror. apply IH.
Qed.

Lemma eval_rows_mirror (b : Board) :
  forall r acc,
    eval_rows r (swap_colours b) (mirror acc) = mirror (eval_rows r b acc).
Proof.
  induction b as [|row b IH]; intros r acc; [reflexivity|].
  cbn [swap_colours map eval_rows]. rewrite eval_row_mirror. apply IH.
Qed.

(** X7. The evaluation is symmetric in the colours: on the board with every
    piece given to the other player ([-board]) it is the negated value, also
    in the saturated cases. *)
Theorem evaluate_board_colour_symmetry (b : Board) :
  exists z,
    evaluate_board b = Fin z /\ evaluate_board (swap_colours b) = Fin (- z).
Proof.
  pose proof (eval_rows_mirror b 0 (0, 0, 0)) as E.
  change (mirror (0, 0, 0)) with ((0, 0, 0) : Z * Z * Z) in E.
  unfold evaluate_board. rewrite E.
  destruct (eval_rows 0 b (0, 0, 0)) as [[s p1] p2]. unfold mirror.
  cbn [fst snd].
  destruct (Z.eqb_spec p1 0), (Z.eqb_spec p2 0), (Z.gtb_spec p1 0),
    (Z.gtb_spec p2 0); try lia; cbn [andb]; eexists; split; reflexivity.
Qed.

(** What the sums of a row are. *)
Lemma eval_row_sums (r : Z) (row : list Z) :
  forall c,
    let t := eval_row r c row (0, 0, 0) in
    t.1.2 = Z.of_nat (length (filter (fun v => is_opponent (-1) v = true) row))
    /\ t.2 = Z.of_nat (length (filter (fun v => is_opponent 1 v = true) row))
    /\ Z.abs t.1.1 <= 16 * (t.1.2 + t.2)
    /\ t.1.2 + t.2 <= Z.of_nat (length row).
Proof.
  induction row as [|piece row IH]; intros c; cbn zeta.
  { cbn. lia. }
  cbn [eval_row]. rewrite eval_row_tadd.
  specialize (IH (c + 1)). cbn zeta in IH.
  destruct (eval_row r (c + 1) row (0, 0, 0)) as [[s p1] p2].
  cbn [fst snd] in IH. destruct IH as (I1 & I2 & I3 & I4).
  assert (E1 : is_opponent (-1) piece = (piece >? 0)).
  { unfold is_opponent.
    destruct (Z.gtb_spec piece 0), (Z.ltb_spec (piece * -1) 0);
      first [reflexivity | lia]. }
  assert (E2 : is_opponent 1 piece = (piece <? 0)).
  { unfold is_opponent.
    destruct (Z.ltb_spec piece 0), (Z.ltb_spec (piece * 1) 0);
      first [reflexivity | lia]. }
  rewrite !filter_cons, E1, E2.
  unfold eval_cell, piece_score, W_KING, W_MAN, W_CENTER, tadd.
  destruct (Z.eqb_spec piece 0) as [->|Hnz].
  { cbn [fst snd]. rewrite !decide_False by discriminate. cbn [length]. lia. }
  destruct (Z.gtb_spec piece 0); destruct (Z.ltb_spec piece 0); try lia.
  - rewrite decide_True by reflexivity. rewrite decide_False by discriminate.
    cbn [fst snd length].
    destruct (Z.abs piece =? 2), (in_center r && in_center c); lia.
  - rewrite decide_False by discriminate. rewrite decide_True by reflexivity.
    cbn [fst snd length].
    destruct (Z.abs piece =? 2), (in_center r && in_center c); lia.
Qed.

Lemma count_where_cons (P : Z -> bool) (row : list Z) (b : Board) :
  count_where P (row :: b)
  = (length (filter (fun v => P v = true) row) + count_where P b)%nat.
Proof. reflexivity. Qed.

(** What the sums of a board are. *)
Lemma eval_rows_sums (b : Board) :
  forall r,
    let t := eval_rows r b (0, 0, 0) in
    t.1.2 = Z.of_nat (count_where (is_opponent (-1)) b)
    /\ t.2 = Z.of_nat (count_where (is_opponent 1) b)
    /\ Z.abs t.1.1 <= 16 * (t.1.2 + t.2)
    /\ t.1.2 + t.2 <= Z.of_nat (sum_list (length <$> b)).
Proof.
  induction b as [|row b IH]; intros r; cbn zeta.
  { cbn. lia. }
  cbn [eval_rows]. rewrite eval_rows_tadd.
  specialize (IH (r + 1)). cbn zeta in IH.
  pose proof (eval_row_sums r row 0) as R. cbn zeta in R.
  destruct (eval_rows (r + 1) b (0, 0, 0)) as [[s p1] p2].
  destruct (eval_row r 0 row (0, 0, 0)) as [[s' p1'] p2'].
  rewrite !count_where_cons.
  replace (sum_list (length <$> row :: b))
    with (length row + sum_list (length <$> b))%nat by reflexivity.
  cbn [fst snd tadd] in *. lia.
Qed.

Lemma valid_board_cells (n : Z) (b : Board) :
  valid_board n b = true -> Z.of_nat (sum_list (length <$> b)) = n * n.
Proof.
  intros Hb. pose proof (valid_board_length _ _ Hb) as Hlen.
  assert (Hrows : forall i row, b !! i = Some row -> Z.of_nat (length row) = n)
    by (intros i row Hi; now apply (valid_board_row _ _ _ _ Hb Hi)).
  clear Hb. rewrite <- Hlen at 1. clear Hlen.
  induction b as [|row b IH]; [reflexivity|].
  replace (sum_list (length <$> row :: b))
    with (length row + sum_list (length <$> b))%nat by reflexivity.
  cbn [length]. pose proof (Hrows 0%nat row eq_refl).
  assert (Z.of_nat (sum_list (length <$> b)) = Z.of_nat (length b) * n)
    by (apply IH; intros i r Hi; exact (Hrows (S i) r Hi)).
  lia.
Qed.

(** X8. On a well-formed board of at most 24 x 24 squares the evaluation stays
    within [-10000.0, 10000.0], and it takes the value [10000.0] only when
    player -1 has no piece left, [-10000.0] only when player +1 has none: a
    count of material never reaches the values that stand for a won or lost
    game. *)
Theorem evaluate_board_range (n : Z) (b : Board) :
  valid_board n b = true -> n <= 24 ->
  exists z,
    evaluate_board b = Fin z
    /\ -10000 <= z <= 10000
    /\ (z = 10000 -> count_where (is_opponent 1) b = 0%nat)
    /\ (z = -10000 -> count_where (is_opponent (-1)) b = 0%nat).
Proof.
  intros Hb Hn. pose proof (valid_board_cells _ _ Hb) as Hcells.
  pose proof (valid_board_length _ _ Hb) as Hlen.
  pose proof (eval_rows_sums b 0) as S. cbn zeta in S.
  unfold evaluate_board.
  destruct (eval_rows 0 b (0, 0, 0)) as [[s p1] p2]. cbn [fst snd] in *.
  destruct S as (S1 & S2 & S3 & S4).
  assert (0 <= n) by lia.
  assert (n * n <= 576) by nia.
  destruct (Z.eqb_spec p1 0), (Z.eqb_spec p2 0), (Z.gtb_spec p1 0),
    (Z.gtb_spec p2 0); try lia; cbn [andb]; eexists;
    (split; [reflexivity|]); lia.
Qed.

Lemma evaluate_board_range_witness :
  exists z,
    evaluate_board board_of_two_jumps = Fin z
    /\ -10000 <= z <= 10000
    /\ (z = 10000 -> count_where (is_opponent 1) board_of_two_jumps = 0%nat)
    /\ (z = -10000 -> count_where (is_opponent (-1)) board_of_two_jumps = 0%nat).
Proof.
  apply (evaluate_board_range 8 board_of_two_jumps).
  - reflexivity.
  - lia.
Defined.

(** ** The search *)

(** X9. The search with a window: on a well-formed board, at every depth and
    for every window [alpha < beta], [minimax] returns a finite value [r]
    that determines the value [v] of the exhaustive search as far as the
    window asks: [r = v] when [r] lies strictly inside the window, [v <= r]
    when [r <= alpha], [r <= v] when [beta <= r]. *)
Theorem minimax_window_sound (self : HeuristicAgent) (d : nat) (b : Board)
  (player alpha beta : Z) :
  valid_board (board_size (rules self)) b = true ->
  alpha < beta ->
  exists r v,
    minimax self d b (Fin alpha) (Fin beta) player = Ok (Fin r)
    /\ minimax_exhaustive self d b player = Ok (Fin v)
    /\ (alpha < r < beta -> r = v)
    /\ (r <= alpha -> v <= r)
    /\ (beta <= r -> r <= v).
Proof.
  intros Hb Hab.
  destruct (minimax_sound self d b player Hb) as (v & Hex & Hsound).
  destruct (Hsound (Fin alpha) (Fin beta)) as (r & Hr & H1 & H2 & H3).
  { cbn. apply Z.ltb_lt. exact Hab. }
  exists r, v. split; [exact Hr|]. split; [exact Hex|].
  cbn [flt] in H1, H2, H3. unfold fle in H2, H3. cbn [flt] in H2, H3.
  repeat split.
  - intros [Ha Hbt]. apply Z.ltb_lt in Ha, Hbt.
    specialize (H1 Ha Hbt). congruence.
  - intros Hle. assert (E : (alpha <? r) = false) by (apply Z.ltb_ge; lia).
    specialize (H2 E). apply negb_true_iff, Z.ltb_ge in H2. exact H2.
  - intros Hle. assert (E : (r <? beta) = false) by (apply Z.ltb_ge; lia).
    specialize (H3 E). apply negb_true_iff, Z.ltb_ge in H3. exact H3.
Qed.

Lemma minimax_window_sound_witness :
  exists r v,
    minimax (agent_of_depth 2) 2 board_of_two_choices (Fin (-5)) (Fin 5) 1
    = Ok (Fin r)
    /\ minimax_exhaustive (agent_of_depth 2) 2 board_of_two_choices 1
       = Ok (Fin v)
    /\ (-5 < r < 5 -> r = v)
    /\ (r <= -5 -> v <= r)
    /\ (5 <= r -> r <= v).
Proof.
  apply (minimax_window_sound (agent_of_depth 2) 2 board_of_two_choices 1
           (-5) 5).
  - reflexivity.
  - lia.
Defined.

Lemma dict_to_move_to_dict (m : Move) : dict_to_move (to_dict m) = m.
Proof. destruct m. reflexivity. Qed.

(** X10. The rules and the agent together: on a well-formed board the agent,
    given the dictionaries of the legal moves, answers [None] when there is
    no legal move and otherwise the dictionary of one of the legal moves; no
    call in between raises. *)
Theorem agent_plays_a_legal_move (self : HeuristicAgent) (b : Board)
  (player : Z) :
  valid_board (board_size (rules self)) b = true ->
  (1 <= depth self)%nat ->
  exists ms,
    get_legal_moves (rules self) b player = Ok ms
    /\ (ms = [] -> select_action self b (to_dict <$> ms) player = Ok None)
    /\ (ms <> [] ->
        exists m, m ∈ ms
          /\ select_action self b (to_dict <$> ms) player
             = Ok (Some (to_dict m))).
Proof.
  intros Hb _.
  destruct (get_legal_moves_total (rules self) b player Hb) as [ms Hms].
  exists ms. split; [exact Hms|].
  split; [intros ->; reflexivity|]. intros Hne.
  pose proof (get_legal_moves_applicable (rules self) _ _ _ Hms) as Happ.
  destruct ms as [|m1 [|m2 rest]]; [congruence| |].
  { exists m1. split; [left|reflexivity]. }
  set (ms := m1 :: m2 :: rest) in *.
  destruct (search_root_first_extreme self b (to_dict <$> ms) player Hb)
    as (i & best & s & Hroot & Hi & _).
  { discriminate. }
  { apply Forall_fmap. eapply Forall_impl; [exact Happ|].
    intros m Hm. cbn. now rewrite dict_to_move_to_dict. }
  rewrite list_lookup_fmap in Hi.
  destruct (ms !! i) as [m|] eqn:Hm; [|discriminate].
  injection Hi as <-. exists m.
  split; [eapply list_elem_of_lookup_2; exact Hm|].
  unfold select_action. subst ms. rewrite !fmap_cons.
  rewrite !fmap_cons in Hroot. now rewrite Hroot.
Qed.

Lemma agent_plays_a_legal_move_witness :
  exists ms,
    get_legal_moves (rules (agent_of_depth 2)) board_of_two_choices 1 = Ok ms
    /\ (ms = [] ->
        select_action (agent_of_depth 2) board_of_two_choices (to_dict <$> ms) 1
        = Ok None)
    /\ (ms <> [] ->
        exists m, m ∈ ms
          /\ select_action (agent_of_depth 2) board_of_two_choices
               (to_dict <$> ms) 1
             = Ok (Some (to_dict m))).
Proof.
  apply (agent_plays_a_legal_move (agent_of_depth 2) board_of_two_choices 1).
  - reflexivity.
  - cbn. lia.
Defined.


(** ** Squares outside the board *)

Lemma norm_index_cases (len : nat) (i : Z) :
  (- Z.of_nat len <= i < Z.of_nat len
   /\ exists k, norm_index len i = Ok k /\ (k < len)%nat)
  \/ (~ (- Z.of_nat len <= i < Z.of_nat len) /\ norm_index len i = IndexError).
Proof.
  unfold norm_index.
  destruct (Z.leb_spec 0 i), (Z.ltb_spec i (Z.of_nat len)),
    (Z.leb_spec (- Z.of_nat len) i), (Z.ltb_spec i 0); cbn [andb];
    first [right; split; [lia|reflexivity]
          |left; split; [lia|eexists; split; [reflexivity|lia]]].
Qed.

Lemma setitem_cases (n : Z) (b : Board) (r c v : Z) :
  valid_board n b = true -> valid_cell v = true ->
  (in_range n (r, c)
   /\ exists b', setitem b r c v = Ok b' /\ valid_board n b' = true)
  \/ (~ in_range n (r, c) /\ setitem b r c v = IndexError).
Proof.
  intros Hb Hv. pose proof (valid_board_length _ _ Hb) as Hlen.
  unfold in_range. cbn [fst snd].
  destruct (setitem b r c v) as [b'| |] eqn:E.
  - left. split; [|exists b'; split;
                    [reflexivity|exact (setitem_preserves_valid _ _ _ _ _ _ Hb Hv E)]].
    unfold setitem in E.
    destruct (norm_index_cases (length b) r) as [[Hr (i & Hi & Hlt)]|[_ Hi]];
      rewrite Hi in E; [|discriminate]. cbn [bind] in E.
    destruct (b !! i) as [row|] eqn:Hrow; [|discriminate].
    destruct (valid_board_row _ _ _ _ Hb Hrow) as [Hrl _].
    destruct (norm_index_cases (length row) c) as [[Hc _]|[_ Hj]];
      [lia|rewrite Hj in E; discriminate].
  - right. split; [|reflexivity]. unfold setitem in E.
    destruct (norm_index_cases (length b) r) as [[Hr (i & Hi & Hlt)]|[Hr _]];
      [|lia].
    rewrite Hi in E. cbn [bind] in E.
    destruct (lookup_lt_is_Some_2 b i Hlt) as [row Hrow]. rewrite Hrow in E.
    destruct (valid_board_row _ _ _ _ Hb Hrow) as [Hrl _].
    destruct (norm_index_cases (length row) c) as [[Hc (j & Hj & _)]|[Hc _]];
      [rewrite Hj in E; discriminate|lia].
  - exfalso. unfold setitem in E.
    destruct (norm_index_cases (length b) r) as [[_ (i & Hi & _)]|[_ Hi]];
      rewrite Hi in E; [|discriminate]. cbn [bind] in E.
    destruct (b !! i) as [row|]; [|discriminate].
    destruct (norm_index_cases (length row) c) as [[_ (j & Hj & _)]|[_ Hj]];
      rewrite Hj in E; discriminate.
Qed.

Lemma getitem_cases (n : Z) (b : Board) (r c : Z) :
  valid_board n b = true ->
  (in_range n (r, c)
   /\ exists v, getitem b r c = Ok v /\ valid_cell v = true)
  \/ (~ in_range n (r, c) /\ getitem b r c = IndexError).
Proof.
  intros Hb. pose proof (valid_board_length _ _ Hb) as Hlen.
  unfold in_range. cbn [fst snd].
  destruct (getitem b r c) as [v| |] eqn:E.
  - left. split; [|exists v; split;
                    [reflexivity|exact (getitem_valid_cell _ _ _ _ _ Hb E)]].
    unfold getitem in E.
    destruct (norm_index_cases (length b) r) as [[Hr (i & Hi & Hlt)]|[_ Hi]];
      rewrite Hi in E; [|discriminate]. cbn [bind] in E.
    destruct (b !! i) as [row|] eqn:Hrow; [|discriminate].
    destruct (valid_board_row _ _ _ _ Hb Hrow) as [Hrl _].
    destruct (norm_index_cases (length row) c) as [[Hc _]|[_ Hj]];
      [lia|rewrite Hj in E; discriminate].
  - right. split; [|reflexivity]. unfold getitem in E.
    destruct (norm_index_cases (length b) r) as [[Hr (i & Hi & Hlt)]|[Hr _]];
      [|lia].
    rewrite Hi in E. cbn [bind] in E.
    destruct (lookup_lt_is_Some_2 b i Hlt) as [row Hrow]. rewrite Hrow in E.
    destruct (valid_board_row _ _ _ _ Hb Hrow) as [Hrl _].
    destruct (norm_index_cases (length row) c) as [[Hc (j & Hj & Hjl)]|[Hc _]];
      [|lia].
    rewrite Hj in E. cbn [bind] in E.
    destruct (lookup_lt_is_Some_2 row j Hjl) as [w Hw]. rewrite Hw in E.
    discriminate.
  - exfalso. unfold getitem in E.
    destruct (norm_index_cases (length b) r) as [[_ (i & Hi & _)]|[_ Hi]];
      rewrite Hi in E; [|discriminate]. cbn [bind] in E.
    destruct (b !! i) as [row|]; [|discriminate].
    destruct (norm_index_cases (length row) c) as [[_ (j & Hj & _)]|[_ Hj]];
      rewrite Hj in E; [|discriminate]. cbn [bind] in E.
    destruct (row !! j); discriminate.
Qed.

(** The loop of [apply_move] over the captures, whatever the squares. *)
Lemma clear_captures_cases (n : Z) (caps : list Pos) :
  forall b : Board,
    valid_board n b = true ->
    (Forall (in_range n) caps
     /\ exists b1,
          foldM (fun b0 (cap : Pos) => setitem b0 cap.1 cap.2 EMPTY) b caps
          = Ok b1
          /\ valid_board n b1 = true)
    \/ (~ Forall (in_range n) caps
        /\ foldM (fun b0 (cap : Pos) => setitem b0 cap.1 cap.2 EMPTY) b caps
           = IndexError).
Proof.
  induction caps as [|q caps IH]; intros b Hb.
  { left. split; [constructor|]. exists b. split; [reflexivity|assumption]. }
  cbn [foldM].
  destruct (setitem_cases n b q.1 q.2 EMPTY Hb eq_refl)
    as [[Hq (b0 & -> & Hb0)]|[Hq ->]]; cbn [bind].
  - rewrite <- surjective_pairing in Hq.
    destruct (IH b0 Hb0) as [[Hall Hex]|[Hnot Herr]].
    + left. split; [now constructor|exact Hex].
    + right. split; [|exact Herr]. intros H. apply Hnot.
      now apply Forall_cons in H as [_ H].
  - rewrite <- surjective_pairing in Hq.
    right. split; [|reflexivity]. intros H. apply Hq.
    now apply Forall_cons in H as [H _].
Qed.

(** X12. [apply_move] checks nothing but what the array checks. On a
    well-formed board it returns a well-formed board when every square of
    the move is an index pair that the array accepts, negative indices
    counted from the end included, and it raises [IndexError] otherwise. *)
Theorem apply_move_index_error (n : Z) (b : Board) (m : Move) (player : Z) :
  valid_board n b = true ->
  (Forall (in_range n) (from_pos m :: to_pos m :: captures m)
   /\ exists b', apply_move b m player = Ok b' /\ valid_board n b' = true)
  \/ (~ Forall (in_range n) (from_pos m :: to_pos m :: captures m)
      /\ apply_move b m player = IndexError).
Proof.
  intros Hb. unfold apply_move.
  destruct (clear_captures_cases n (captures m) b Hb)
    as [[Hcaps (b1 & -> & Hb1)]|[Hcaps ->]]; cbn [bind].
  2:{ right. split; [|reflexivity]. intros H. apply Hcaps.
      apply Forall_cons in H as [_ H]. now apply Forall_cons in H as [_ H]. }
  destruct (getitem_cases n b1 (from_pos m).1 (from_pos m).2 Hb1)
    as [[Hfrom (pv & -> & Hpv)]|[Hfrom ->]]; cbn [bind];
    rewrite <- surjective_pairing in Hfrom.
  2:{ right. split; [|reflexivity]. intros H. apply Hfrom.
      now apply Forall_cons in H as [H _]. }
  destruct (setitem_cases n b1 (to_pos m).1 (to_pos m).2 pv Hb1 Hpv)
    as [[Hto (b2 & -> & Hb2)]|[Hto ->]]; cbn [bind];
    rewrite <- surjective_pairing in Hto.
  2:{ right. split; [|reflexivity]. intros H. apply Hto.
      apply Forall_cons in H as [_ H]. now apply Forall_cons in H as [H _]. }
  destruct (setitem_cases n b2 (from_pos m).1 (from_pos m).2 EMPTY Hb2 eq_refl)
    as [[_ (b3 & -> & Hb3)]|[Hfrom' _]]; cbn [bind];
    [|rewrite <- surjective_pairing in Hfrom'; contradiction].
  left. split; [now repeat (apply Forall_cons; split; [assumption|])|].
  destruct (promotion m); [|eauto].
  assert (valid_cell (if player =? 1 then PLAYER1_KING else PLAYER2_KING)
          = true) as Hk by (destruct (player =? 1); reflexivity).
  destruct (setitem_cases n b3 (to_pos m).1 (to_pos m).2 _ Hb3 Hk)
    as [[_ (b4 & H4 & Hb4)]|[Hto' _]];
    [|rewrite <- surjective_pairing in Hto'; contradiction].
  exists b4. split; [destruct (player =? 1); exact H4|exact Hb4].
Qed.

Lemma apply_move_index_error_witness :
  (Forall (in_range 8) [(2, 1); (-5, -6)]
   /\ exists b', apply_move board_of_one_jump (mkMove (2, 1) (-5, -6) [] false) 1
                 = Ok b'
                 /\ valid_board 8 b' = true)
  \/ (~ Forall (in_range 8) [(2, 1); (-5, -6)]
      /\ apply_move board_of_one_jump (mkMove (2, 1) (-5, -6) [] false) 1
         = IndexError).
Proof.
  apply (apply_move_index_error 8 board_of_one_jump
           (mkMove (2, 1) (-5, -6) [] false) 1).
  reflexivity.
Defined.

(** ** Moves that keep the player's pieces *)

(** The loop of [apply_move] over captured cells that do not satisfy [P]
    leaves the count of [P]. *)
Lemma clear_captures_keep (P : Z -> bool) (caps : list Pos) :
  P 0 = false ->
  forall b b1 : Board,
    Forall (fun q : Pos => 0 <= q.1 /\ 0 <= q.2) caps ->
    NoDup caps ->
    Forall (fun q : Pos => exists v, getitem b q.1 q.2 = Ok v /\ P v = false)
      caps ->
    foldM (fun b0 (cap : Pos) => setitem b0 cap.1 cap.2 EMPTY) b caps = Ok b1 ->
    count_where P b1 = count_where P b.
Proof.
  intros HP0. induction caps as [|q caps IH]; intros b b1 Hnn Hnd Hocc H.
  - now injection H as <-.
  - apply Forall_cons in Hnn as [[Hq1 Hq2] Hnn].
    apply NoDup_cons in Hnd as [Hnotin Hnd].
    apply Forall_cons in Hocc as [(v & Hv & HPv) Hocc].
    cbn [foldM] in H. inv_bind H. rename x into b0.
    pose proof (count_where_setitem P _ _ _ _ _ _ E Hv) as C.
    unfold EMPTY in C. rewrite HP0, HPv in C. cbn [ind] in C.
    enough (count_where P b1 = count_where P b0) by lia.
    apply (IH b0 b1 Hnn Hnd); [|exact H].
    rewrite Forall_forall in Hocc, Hnn |- *. intros p Hp.
    destruct (Hocc p Hp) as (w & Hw & HPw). exists w. split; [|assumption].
    destruct (Hnn p Hp) as [Hp1 Hp2].
    rewrite (getitem_setitem _ _ _ _ _ _ _ E) by lia.
    rewrite decide_False; [assumption|].
    intros [e1 e2]. apply Hnotin. destruct p, q; cbn in *. now subst.
Qed.

Lemma apply_move_keeps_own (n : Z) (b : Board) (m : Move) (player : Z) :
  valid_board n b = true -> player = 1 \/ player = -1 ->
  applicable n m -> NoDup (captures m) ->
  Forall (opponent_piece b player) (captures m) ->
  starts_on_own_piece b player m ->
  exists b',
    apply_move b m player = Ok b'
    /\ count_where (is_own player) b' = count_where (is_own player) b.
Proof.
  intros Hb Hplayer (Hfrom & Hto & Hcaps) Hnd Hopp (piece & Hpiece & Hown & Hempty).
  assert (Hocc : Forall (fun q : Pos =>
            exists v, getitem b q.1 q.2 = Ok v /\ v <> 0) (captures m)).
  { eapply Forall_impl; [exact Hopp|]. intros q (v & Hv & Hs).
    exists v. split; [assumption|lia]. }
  destruct (clear_captures n _ b Hb Hcaps Hnd Hocc) as (b1 & Hf & Hb1 & _ & G1).
  assert (C1 : count_where (is_own player) b1 = count_where (is_own player) b).
  { apply (clear_captures_keep (is_own player) (captures m) eq_refl b b1);
      try assumption.
    - eapply Forall_impl; [exact Hcaps|]. intros q [? ?]. lia.
    - eapply Forall_impl; [exact Hopp|]. intros q (v & Hv & Hs).
      exists v. split; [assumption|]. unfold is_own.
      destruct (Z.gtb_spec (v * player) 0); [lia|reflexivity]. }
  pose proof Hfrom as [Hfr Hfc]. pose proof Hto as [Htr Htc].
  assert (Hfrom_caps : ((from_pos m).1, (from_pos m).2) ∉ captures m).
  { intros Hin. rewrite Forall_forall in Hopp.
    destruct (Hopp _ Hin) as (v & Hv & Hs). cbn [fst snd] in Hv.
    rewrite Hpiece in Hv. injection Hv as <-. lia. }
  assert (Hto_caps : ((to_pos m).1, (to_pos m).2) ∉ captures m).
  { intros Hin. rewrite Forall_forall in Hopp.
    destruct (Hopp _ Hin) as (v & Hv & Hs). cbn [fst snd] in Hv.
    rewrite Hempty in Hv. injection Hv as <-. lia. }
  assert (Hne : ~ ((to_pos m).1 = (from_pos m).1 /\ (to_pos m).2 = (from_pos m).2)).
  { intros [e1 e2]. rewrite e1, e2 in Hempty. rewrite Hpiece in Hempty.
    injection Hempty as ->. lia. }
  assert (Opiece : is_own player piece = true)
    by (unfold is_own; apply Z.gtb_lt; lia).
  assert (Oking : is_own player
            (if player =? 1 then PLAYER1_KING else PLAYER2_KING) = true)
    by (destruct Hplayer as [-> | ->]; reflexivity).
  assert (G1from : getitem b1 (from_pos m).1 (from_pos m).2 = Ok piece)
    by (rewrite G1 by lia; now rewrite decide_False by assumption).
  assert (G1to : getitem b1 (to_pos m).1 (to_pos m).2 = Ok 0)
    by (rewrite G1 by lia; now rewrite decide_False by assumption).
  unfold apply_move. rewrite Hf. cbn [bind]. rewrite G1from. cbn [bind].
  pose proof (getitem_valid_cell _ _ _ _ _ Hb Hpiece) as Hpc.
  destruct (setitem_valid _ _ _ _ _ Hb1 Hto Hpc) as (b2 & H2 & Hb2).
  rewrite H2. cbn [bind].
  pose proof (count_where_setitem (is_own player) _ _ _ _ _ _ H2 G1to) as C2.
  rewrite Opiece in C2. change (is_own player 0) with false in C2.
  cbn [ind] in C2.
  assert (G2 : getitem b2 (from_pos m).1 (from_pos m).2 = Ok piece).
  { rewrite (getitem_setitem _ _ _ _ _ _ _ H2) by lia.
    now rewrite decide_False by assumption. }
  destruct (setitem_valid _ _ _ _ EMPTY Hb2 Hfrom eq_refl) as (b3 & H3 & Hb3).
  rewrite H3. cbn [bind].
  pose proof (count_where_setitem (is_own player) _ _ _ _ _ _ H3 G2) as C3.
  rewrite Opiece in C3. unfold EMPTY in C3.
  change (is_own player 0) with false in C3. cbn [ind] in C3.
  destruct (promotion m).
  - assert (G3 : getitem b3 (to_pos m).1 (to_pos m).2 = Ok piece).
    { rewrite (getitem_setitem _ _ _ _ _ _ _ H3) by lia.
      rewrite decide_False
        by (intros [e1 e2]; apply Hne; split; symmetry; assumption).
      rewrite (getitem_setitem _ _ _ _ _ _ _ H2) by lia.
      now rewrite decide_True by tauto. }
    assert (valid_cell (if player =? 1 then PLAYER1_KING else PLAYER2_KING)
            = true) as Hkc by (destruct (player =? 1); reflexivity).
    destruct (setitem_valid _ _ _ _ _ Hb3 Hto Hkc) as (b4 & H4 & _).
    pose proof (count_where_setitem (is_own player) _ _ _ _ _ _ H4 G3) as C4.
    rewrite Opiece, Oking in C4. cbn [ind] in C4.
    exists b4. split; [destruct (player =? 1); exact H4|lia].
  - exists b3. split; [reflexivity|lia].
Qed.

Section FirstJump.

Variable self : CheckersRules.

(** The moves of one jump are built at the first level of the search: they
    start on the square of the piece. *)
Lemma generate_captures_first_jump (player : Z) (fuel : nat)
  (b : Board) (row col piece : Z) (ms : list Move) :
  getitem b row col = Ok piece -> piece * player > 0 ->
  generate_captures_recursive self fuel b row col player [] = Ok ms ->
  Forall (fun m => length (captures m) = 1%nat ->
                   starts_on_own_piece b player m) ms.
Proof.
  intros Hpiece Hown H.
  eapply (generate_captures_ind self player
    (fun b' r c caps => caps = [] -> b' = b /\ r = row /\ c = col));
    [|intros _; tauto|exact H].
  clear fuel ms H.
  intros b' r c caps d nb promo moving Hinv Hm _ Hj. split.
  - intros Hnil. now apply app_nil in Hnil as [_ Hnil].
  - unfold last_move. cbn [captures from_pos to_pos fst snd].
    rewrite length_app. cbn [length]. intros Hlen.
    assert (caps = []) as -> by (destruct caps; [reflexivity|cbn in Hlen; lia]).
    destruct (Hinv eq_refl) as (-> & -> & ->).
    destruct Hj as [jumped moving' b1 b2 b3 _ _ _ _ _ Hl _ _ _ _ _ _].
    exists piece. split; [exact Hpiece|]. split; [exact Hown|exact Hl].
Qed.

Lemma collect_moves_start_on_own_piece (b : Board) (player : Z)
  (collected : list Move * list Move) :
  collect_moves self b player = Ok collected ->
  let good m := (length (captures m) <= 1)%nat ->
                starts_on_own_piece b player m in
  Forall good collected.1 /\ Forall good collected.2.
Proof.
  intros H good. revert H.
  apply gatherM_Forall. intros sq p _ Hp.
  apply piece_moves_Ok in Hp
    as [->|(piece & Hv & Hpiece & Hsign & Hs & Hc)]; [split; constructor|].
  assert (Hown : piece * player > 0) by lia.
  split.
  - apply get_simple_moves_spec in Hs.
    eapply Forall_impl; [exact Hs|]. cbn beta.
    intros m (Hfrom & _ & _ & Hto & _) _. exists piece.
    rewrite Hfrom. cbn [fst snd]. tauto.
  - assert (Hne : Forall (fun m => captures m <> []) p.2).
    { unfold get_capture_moves in Hc.
      eapply (generate_captures_ind self player
                (fun _ _ _ _ => True) (fun m => captures m <> []));
        [|exact I|exact Hc].
      intros. split; [exact I|]. unfold last_move. cbn [captures].
      intros Hnil. now apply app_nil in Hnil as [_ Hnil]. }
    pose proof (generate_captures_first_jump _ _ _ _ _ _ _ Hpiece Hown Hc) as H1.
    rewrite Forall_forall in Hne, H1 |- *. intros m Hm Hlen.
    apply (H1 m Hm). specialize (Hne m Hm).
    destruct (captures m) as [|? [|? ?]]; cbn in *; [congruence|reflexivity|lia].
Qed.

End FirstJump.

(** X13. Applying a legal move with at most one capture leaves the player as
    many pieces as before: such a move starts on a piece of the player and
    ends on an empty square. (The legal moves of two or more captures do
    not start on the piece that moves.) *)
Theorem short_legal_moves_keep_own_pieces (self : CheckersRules) (b : Board)
  (player : Z) :
  valid_board (board_size self) b = true ->
  player = 1 \/ player = -1 ->
  exists ms,
    get_legal_moves self b player = Ok ms
    /\ Forall (fun m => (length (captures m) <= 1)%nat ->
         starts_on_own_piece b player m
         /\ exists b',
              apply_move b m player = Ok b'
              /\ count_where (is_own player) b'
                 = count_where (is_own player) b) ms.
Proof.
  intros Hb Hplayer.
  destruct (get_legal_moves_total self b player Hb) as [ms Hms].
  exists ms. split; [assumption|].
  pose proof (get_legal_moves_applicable self _ _ _ Hms) as Happ.
  apply get_legal_moves_Ok in Hms as (collected & Hc & Hms).
  destruct (collect_moves_distinct self _ _ _ Hplayer Hc) as [D1 D2].
  destruct (collect_moves_start_on_own_piece self _ _ _ Hc) as [E1 E2].
  assert (Hall : Forall (fun m =>
            (NoDup (captures m) /\ Forall (opponent_piece b player) (captures m))
            /\ ((length (captures m) <= 1)%nat ->
                starts_on_own_piece b player m)) ms).
  { subst ms.
    destruct (capture_forced self && _), (prefer_longest_capture self);
      try (apply Forall_and; split; assumption).
    rewrite Forall_forall in D2, E2 |- *.
    intros m [_ Hm]%list_elem_of_filter. split; [now apply D2|now apply E2]. }
  rewrite Forall_forall in Hall, Happ |- *. intros m Hm Hlen.
  destruct (Hall m Hm) as [[Hnd Hopp] Hstart].
  split; [now apply Hstart|].
  eapply apply_move_keeps_own; eauto.
Qed.

Lemma short_legal_moves_keep_own_pieces_witness :
  exists ms,
    get_legal_moves default_rules board_of_one_jump 1 = Ok ms
    /\ Forall (fun m => (length (captures m) <= 1)%nat ->
         starts_on_own_piece board_of_one_jump 1 m
         /\ exists b',
              apply_move board_of_one_jump m 1 = Ok b'
              /\ count_where (is_own 1) b'
                 = count_where (is_own 1) board_of_one_jump) ms.
Proof.
  apply (short_legal_moves_keep_own_pieces default_rules board_of_one_jump 1).
  - reflexivity.
  - left. reflexivity.
Defined.

Lemma gatherM_nothing {A B C : Type} (f : A -> result (list B * list C))
  (l : list A) :
  (forall x, x ∈ l -> f x = Ok ([], [])) -> gatherM f l = Ok ([], []).
Proof.
  induction l as [|x l IH]; intros H; [reflexivity|].
  cbn [gatherM]. rewrite (H x) by left. cbn [bind].
  rewrite IH by (intros y Hy; apply H; now right). reflexivity.
Qed.

(** X14. A player value other than 1 and -1 owns no piece: on a well-formed
    board [get_legal_moves] returns the empty list for it, without raising. *)
Theorem get_legal_moves_unknown_player (self : CheckersRules) (b : Board)
  (player : Z) :
  valid_board (board_size self) b = true ->
  player <> 1 -> player <> -1 ->
  get_legal_moves self b player = Ok [].
Proof.
  intros Hb H1 H2. apply get_legal_moves_Ok. exists ([], []). split.
  - apply gatherM_nothing. intros sq _.
    destruct (piece_moves_total self b player sq Hb) as [p Hp].
    rewrite Hp. f_equal.
    apply piece_moves_Ok in Hp as [->|(piece & _ & _ & Hsign & _)];
      [reflexivity|lia].
  - cbn [fst snd]. rewrite bool_decide_true by reflexivity.
    now rewrite andb_false_r.
Qed.

Lemma get_legal_moves_unknown_player_witness :
  get_legal_moves default_rules board_of_two_jumps 0 = Ok [].
Proof.
  apply (get_legal_moves_unknown_player default_rules board_of_two_jumps 0).
  - reflexivity.
  - lia.
  - lia.
Defined.

(** ** Which moves are offered *)

Lemma flat_mapM_elem {A B : Type} (f : A -> result (list B)) (l : list A)
  (ys : list B) (x : A) :
  flat_mapM f l = Ok ys -> x ∈ l ->
  exists zs, f x = Ok zs /\ forall z, z ∈ zs -> z ∈ ys.
Proof.
  revert ys. induction l as [|a l IH]; intros ys H Hx.
  - now apply elem_of_nil in Hx.
  - cbn [flat_mapM] in H. inv_bind H. inv_bind H. injection H as <-.
    apply elem_of_cons in Hx as [->|Hx].
    + eexists. split; [eassumption|]. intros z Hz. apply elem_of_app. now left.
    + destruct (IH _ E0 Hx) as (zs & Hzs & Hsub).
      exists zs. split; [assumption|]. intros z Hz. apply elem_of_app.
      right. now apply Hsub.
Qed.

Lemma gatherM_elem {A B C : Type} (f : A -> result (list B * list C))
  (l : list A) (r : list B * list C) (x : A) :
  gatherM f l = Ok r -> x ∈ l ->
  exists p, f x = Ok p /\ forall y, y ∈ p.1 -> y ∈ r.1.
Proof.
  revert r. induction l as [|a l IH]; intros r H Hx.
  - now apply elem_of_nil in Hx.
  - cbn [gatherM] in H. inv_bind H. inv_bind H. injection H as <-.
    cbn [fst]. apply elem_of_cons in Hx as [->|Hx].
    + eexists. split; [eassumption|]. intros z Hz. apply elem_of_app. now left.
    + destruct (IH _ E0 Hx) as (p & Hp & Hsub).
      exists p. split; [assumption|]. intros z Hz. apply elem_of_app.
      right. now apply Hsub.
Qed.

Section Offered.

Variable self : CheckersRules.

Lemma elem_of_squares (r c : Z) :
  (r, c) ∈ squares self <-> on_board (board_size self) r c.
Proof.
  unfold squares, range, on_board. rewrite list_elem_of_bind. split.
  - intros (r' & Hin & Hr). apply list_elem_of_bind in Hin as (c' & Hin & Hc).
    apply list_elem_of_singleton in Hin. injection Hin as -> ->.
    apply elem_of_seqZ in Hr, Hc. lia.
  - intros [Hr Hc]. exists r. split; [|apply elem_of_seqZ; lia].
    apply list_elem_of_bind. exists c.
    split; [now apply list_elem_of_singleton|apply elem_of_seqZ; lia].
Qed.

Lemma simple_step_collected (b : Board) (player : Z) (m : Move)
  (collected : list Move * list Move) :
  collect_moves self b player = Ok collected ->
  captures m = [] -> simple_step self b player m -> m ∈ collected.1.
Proof.
  intros Hc Hcap
    (piece & Hpiece & Hsign & Hfv & Htv & Hempty & Hdr & Hdc & Hman & Hpromo).
  destruct m as [[fr fc] [tr tc] caps promo].
  cbn [from_pos to_pos captures promotion fst snd] in *. subst caps.
  pose proof (is_valid_square_on_board _ _ _ Hfv) as Hon.
  unfold collect_moves in Hc.
  destruct (gatherM_elem _ _ _ (fr, fc) Hc) as (p & Hp & Hsub);
    [now apply elem_of_squares|].
  apply Hsub. clear Hsub Hc.
  unfold piece_moves in Hp. cbn [fst snd] in Hp. rewrite Hfv in Hp.
  cbn [negb] in Hp. rewrite Hpiece in Hp. cbn [bind] in Hp.
  destruct (Z.eqb_spec piece 0); [lia|].
  replace ((player =? 1) && (piece >? 0) || (player =? -1) && (piece <? 0))
    with true in Hp.
  2:{ destruct Hsign as [[-> Hs]|[-> Hs]]; cbn.
      - destruct (Z.gtb_spec piece 0); [reflexivity|lia].
      - destruct (Z.ltb_spec piece 0); [reflexivity|lia]. }
  inv_bind Hp. rename x into simple. inv_bind Hp. injection Hp as <-.
  cbn [fst]. clear E0.
  unfold get_simple_moves in E. rewrite Hpiece in E. cbn [bind] in E.
  set (d := (tr - fr, tc - fc)).
  destruct (flat_mapM_elem _ _ _ d E) as (zs & Hzs & Hsub).
  { unfold get_move_directions, d.
    destruct (Z.eqb_spec (Z.abs piece) 2) as [Hk|Hk].
    - assert ((tr - fr = -1 \/ tr - fr = 1) /\ (tc - fc = -1 \/ tc - fc = 1))
        as [[-> | ->] [-> | ->]] by lia;
        repeat first [now left | right].
    - specialize (Hman Hk).
      destruct Hsign as [[-> Hs]|[-> Hs]]; rewrite Hman.
      + destruct (Z.gtb_spec piece 0); [|lia].
        assert (tc - fc = -1 \/ tc - fc = 1) as [-> | ->] by lia;
          repeat first [now left | right].
      + destruct (Z.gtb_spec piece 0); [lia|].
        assert (tc - fc = -1 \/ tc - fc = 1) as [-> | ->] by lia;
          repeat first [now left | right]. }
  apply Hsub. clear Hsub E.
  unfold d in Hzs. cbn [fst snd] in Hzs.
  replace (fr + (tr - fr)) with tr in Hzs by lia.
  replace (fc + (tc - fc)) with tc in Hzs by lia.
  rewrite Htv in Hzs. cbn [negb] in Hzs. rewrite Hempty in Hzs.
  cbn [bind] in Hzs. change (0 =? EMPTY) with true in Hzs.
  injection Hzs as <-. apply list_elem_of_singleton. f_equal.
  (* the promotion flag *)
  destruct promo.
  - destruct Hpromo as [Hp _]. destruct (Hp eq_refl) as [Hk Hrow].
    destruct (Z.eqb_spec (Z.abs piece) 2); [contradiction|]. cbn [negb].
    destruct Hsign as [[-> _]|[-> _]]; cbn in Hrow |- *.
    + destruct (Z.eqb_spec tr (board_size self - 1)); [reflexivity|lia].
    + destruct (Z.eqb_spec tr 0); [reflexivity|lia].
  - destruct (Z.eqb_spec (Z.abs piece) 2) as [Hk|Hk]; [reflexivity|].
    cbn [negb].
    destruct Hsign as [[-> _]|[-> _]]; cbn in Hpromo |- *.
    + destruct (Z.eqb_spec tr (board_size self - 1)) as [Hrow|];
        [|reflexivity].
      destruct Hpromo as [_ Hp]. apply Hp. split; assumption.
    + destruct (Z.eqb_spec tr 0) as [Hrow|]; [|reflexivity].
      destruct Hpromo as [_ Hp]. apply Hp. split; assumption.
Qed.

End Offered.

(** X15. The list of legal moves is never mixed: it holds moves without
    captures only, or capture moves only, and capture moves only under
    [capture_forced]. With [capture_forced] off no capture is ever offered:
    [all_moves] collects the simple moves alone. *)
Theorem legal_moves_never_mix (self : CheckersRules) (b : Board) (player : Z) :
  valid_board (board_size self) b = true ->
  exists ms,
    get_legal_moves self b player = Ok ms
    /\ (Forall (fun m => captures m = []) ms
        \/ capture_forced self = true
           /\ ms <> [] /\ Forall (fun m => captures m <> []) ms).
Proof.
  intros Hb. destruct (get_legal_moves_total self b player Hb) as [ms Hms].
  exists ms. split; [exact Hms|].
  apply get_legal_moves_Ok in Hms as (collected & Hc & ->).
  destruct (collect_moves_applicable self _ _ _ Hc) as [H1 H2].
  assert (H1' : Forall (fun m => captures m = []) collected.1)
    by (eapply Forall_impl; [exact H1|]; cbn beta; tauto).
  assert (H2' : Forall (fun m => captures m <> []) collected.2)
    by (eapply Forall_impl; [exact H2|]; cbn beta; tauto).
  destruct (capture_forced self); cbn [andb]; [|now left].
  destruct (decide (collected.2 = [])) as [Hnil|Hne].
  { rewrite bool_decide_true by assumption. now left. }
  rewrite bool_decide_false by assumption. cbn [negb].
  right. split; [reflexivity|].
  destruct (prefer_longest_capture self); [|split; assumption].
  split.
  - destruct (max_captures_attained _ Hne) as (m & Hm & Hmax).
    intros Hnil.
    assert (Hin : m ∈ filter
              (fun m => capture_count m = max_captures collected.2) collected.2)
      by (apply list_elem_of_filter; split; assumption).
    rewrite Hnil in Hin. now apply elem_of_nil in Hin.
  - rewrite Forall_forall in H2' |- *.
    intros m [_ Hm]%list_elem_of_filter. now apply H2'.
Qed.

Lemma legal_moves_never_mix_witness :
  exists ms,
    get_legal_moves (mkRules 8 false true true) board_of_one_jump 1 = Ok ms
    /\ (Forall (fun m => captures m = []) ms
        \/ capture_forced (mkRules 8 false true true) = true
           /\ ms <> [] /\ Forall (fun m => captures m <> []) ms).
Proof.
  apply (legal_moves_never_mix (mkRules 8 false true true) board_of_one_jump 1).
  reflexivity.
Defined.

(** X16. No step is left out: a diagonal step of a piece of the player onto
    an empty playable square, forward for a man, with the promotion flag of
    a man that reaches its last row, is among the legal moves, unless the
    legal moves are forced captures. *)
Theorem simple_steps_are_legal (self : CheckersRules) (b : Board)
  (player : Z) (m : Move) :
  valid_board (board_size self) b = true ->
  captures m = [] ->
  simple_step self b player m ->
  exists ms,
    get_legal_moves self b player = Ok ms
    /\ (m ∈ ms
        \/ capture_forced self = true
           /\ ms <> [] /\ Forall (fun m' => captures m' <> []) ms).
Proof.
  intros Hb Hcap Hstep.
  destruct (get_legal_moves_total self b player Hb) as [ms Hms].
  exists ms. split; [exact Hms|].
  apply get_legal_moves_Ok in Hms as (collected & Hc & ->).
  pose proof (simple_step_collected self _ _ _ _ Hc Hcap Hstep) as Hin.
  destruct (collect_moves_applicable self _ _ _ Hc) as [_ H2].
  assert (H2' : Forall (fun m => captures m <> []) collected.2)
    by (eapply Forall_impl; [exact H2|]; cbn beta; tauto).
  destruct (capture_forced self); cbn [andb]; [|now left].
  destruct (decide (collected.2 = [])) as [Hnil|Hne].
  { rewrite bool_decide_true by assumption. now left. }
  rewrite bool_decide_false by assumption. cbn [negb].
  right. split; [reflexivity|].
  destruct (prefer_longest_capture self); [|split; assumption].
  split.
  - destruct (max_captures_attained _ Hne) as (m0 & Hm0 & Hmax).
    intros Hnil.
    assert (Hin0 : m0 ∈ filter
              (fun m => capture_count m = max_captures collected.2) collected.2)
      by (apply list_elem_of_filter; split; assumption).
    rewrite Hnil in Hin0. now apply elem_of_nil in Hin0.
  - rewrite Forall_forall in H2' |- *.
    intros m0 [_ Hm0]%list_elem_of_filter. now apply H2'.
Qed.

Lemma simple_steps_are_legal_witness :
  exists ms,
    get_legal_moves default_rules board_of_two_choices 1 = Ok ms
    /\ (mkMove (2, 1) (3, 2) [] false ∈ ms
        \/ capture_forced default_rules = true
           /\ ms <> [] /\ Forall (fun m' => captures m' <> []) ms).
Proof.
  apply (simple_steps_are_legal default_rules board_of_two_choices 1
           (mkMove (2, 1) (3, 2) [] false)).
  - reflexivity.
  - reflexivity.
  - exists 1. cbn. repeat split; try reflexivity; try lia; try discriminate.
Defined.

(** ** The captures as a set *)

(** The loop of [apply_move] over captures on the board: the cells of the
    result. *)
Lemma clear_captures_cells (n : Z) (caps : list Pos) :
  forall b : Board,
    valid_board n b = true ->
    Forall (fun q : Pos => on_board n q.1 q.2) caps ->
    exists b1,
      foldM (fun b0 (cap : Pos) => setitem b0 cap.1 cap.2 EMPTY) b caps = Ok b1
      /\ valid_board n b1 = true
      /\ forall r c, 0 <= r -> 0 <= c ->
           getitem b1 r c = if decide ((r, c) ∈ caps) then Ok 0
                            else getitem b r c.
Proof.
  induction caps as [|q caps IH]; intros b Hb Hcaps.
  { exists b. split; [reflexivity|]. split; [assumption|].
    intros r c _ _. rewrite decide_False; [reflexivity|].
    intros H. now apply elem_of_nil in H. }
  apply Forall_cons in Hcaps as [Hq Hcaps].
  destruct (setitem_valid _ _ _ _ EMPTY Hb Hq eq_refl) as (b0 & H0 & Hb0).
  destruct (IH b0 Hb0 Hcaps) as (b1 & H1 & Hb1 & G1).
  exists b1. cbn [foldM]. rewrite H0. cbn [bind].
  split; [exact H1|]. split; [exact Hb1|].
  intros r c Hr Hc. rewrite G1 by assumption.
  destruct Hq as [Hq1 Hq2].
  rewrite (getitem_setitem _ _ _ _ _ _ _ H0) by lia.
  destruct (decide ((r, c) ∈ caps)) as [Hin|Hnin].
  - rewrite decide_True; [reflexivity|now right].
  - destruct (decide (q.1 = r /\ q.2 = c)) as [[e1 e2]|Hne].
    + rewrite decide_True; [reflexivity|].
      apply elem_of_cons. left. destruct q; cbn in *. now subst.
    + rewrite decide_False; [reflexivity|].
      intros [Heq|Hin]%elem_of_cons; [|contradiction].
      apply Hne. subst q. now split.
Qed.

(** Two well-formed boards with the same cells are the same board. *)
Lemma valid_board_ext (n : Z) (b1 b2 : Board) :
  valid_board n b1 = true -> valid_board n b2 = true ->
  (forall r c, on_board n r c -> getitem b1 r c = getitem b2 r c) ->
  b1 = b2.
Proof.
  intros H1 H2 Hcells.
  pose proof (valid_board_length _ _ H1) as L1.
  pose proof (valid_board_length _ _ H2) as L2.
  apply list_eq. intros i.
  destruct (b1 !! i) as [r1|] eqn:E1.
  - pose proof (lookup_lt_Some _ _ _ E1) as Hi.
    destruct (lookup_lt_is_Some_2 b2 i) as [r2 E2]; [lia|].
    rewrite E2. f_equal.
    destruct (valid_board_row _ _ _ _ H1 E1) as [R1 _].
    destruct (valid_board_row _ _ _ _ H2 E2) as [R2 _].
    apply list_eq. intros j.
    destruct (r1 !! j) as [v1|] eqn:F1.
    + pose proof (lookup_lt_Some _ _ _ F1) as Hj.
      destruct (lookup_lt_is_Some_2 r2 j) as [v2 F2]; [lia|].
      rewrite F2. f_equal.
      pose proof (getitem_lookup _ _ _ _ _ E1 F1) as G1.
      pose proof (getitem_lookup _ _ _ _ _ E2 F2) as G2.
      rewrite Hcells in G1 by (unfold on_board; lia). congruence.
    + symmetry. apply lookup_ge_None. apply lookup_ge_None in F1. lia.
  - symmetry. apply lookup_ge_None. apply lookup_ge_None in E1. lia.
Qed.

(** X17. [apply_move] uses the captures of a move as a set: on a well-formed
    board, a move with captures on the board and the move with the same
    squares captured in another order, or listed more than once, give the
    same board. This is what lets the environment rebuild the move from
    [set(captures)]. *)
Theorem apply_move_captures_as_set (n : Z) (b : Board) (m : Move)
  (caps' : list Pos) (player : Z) :
  valid_board n b = true ->
  Forall (fun q : Pos => on_board n q.1 q.2) (captures m) ->
  (forall q, q ∈ caps' <-> q ∈ captures m) ->
  apply_move b (mkMove (from_pos m) (to_pos m) caps' (promotion m)) player
  = apply_move b m player.
Proof.
  intros Hb Hcaps Hsame.
  assert (Hcaps' : Forall (fun q : Pos => on_board n q.1 q.2) caps').
  { rewrite Forall_forall in Hcaps |- *. intros q Hq.
    apply Hcaps. now apply Hsame. }
  destruct (clear_captures_cells n _ b Hb Hcaps) as (b1 & H1 & Hb1 & G1).
  destruct (clear_captures_cells n _ b Hb Hcaps') as (b1' & H1' & Hb1' & G1').
  assert (b1' = b1) as ->.
  { apply (valid_board_ext n); try assumption.
    intros r c [Hr Hc]. rewrite G1, G1' by lia.
    destruct (decide ((r, c) ∈ caps')) as [Hin|Hnin].
    - rewrite decide_True; [reflexivity|now apply Hsame].
    - rewrite decide_False; [reflexivity|]. intros Hin. apply Hnin.
      now apply Hsame. }
  unfold apply_move. cbn [from_pos to_pos captures promotion].
  now rewrite H1, H1'.
Qed.

Lemma apply_move_captures_as_set_witness :
  apply_move board_of_two_jumps
    (mkMove (4, 3) (6, 5) [(5, 4); (3, 2); (5, 4)] false) 1
  = apply_move board_of_two_jumps
      (mkMove (4, 3) (6, 5) [(3, 2); (5, 4)] false) 1.
Proof.
  apply (apply_move_captures_as_set 8 board_of_two_jumps
           (mkMove (4, 3) (6, 5) [(3, 2); (5, 4)] false)
           [(5, 4); (3, 2); (5, 4)] 1).
  - reflexivity.
  - cbn. repeat (apply Forall_cons; split; [unfold on_board; cbn; lia|]).
    apply Forall_nil. exact I.
  - intros q. cbn. rewrite !elem_of_cons. tauto.
Defined.

(** ** When a capture is forced *)

Lemma gatherM_elem_snd {A B C : Type} (f : A -> result (list B * list C))
  (l : list A) (r : list B * list C) (x : A) :
  gatherM f l = Ok r -> x ∈ l ->
  exists p, f x = Ok p /\ forall y, y ∈ p.2 -> y ∈ r.2.
Proof.
  revert r. induction l as [|a l IH]; intros r H Hx.
  - now apply elem_of_nil in Hx.
  - cbn [gatherM] in H. inv_bind H. inv_bind H. injection H as <-.
    cbn [snd]. apply elem_of_cons in Hx as [->|Hx].
    + eexists. split; [eassumption|]. intros z Hz. apply elem_of_app. now left.
    + destruct (IH _ E0 Hx) as (p & Hp & Hsub).
      exists p. split; [assumption|]. intros z Hz. apply elem_of_app.
      right. now apply Hsub.
Qed.

Lemma direction_of_piece (piece player : Z) (d : Z * Z) :
  player = 1 /\ piece > 0 \/ player = -1 /\ piece < 0 ->
  Z.abs d.1 = 1 -> Z.abs d.2 = 1 ->
  (Z.abs piece <> 2 -> d.1 = player) ->
  d ∈ get_move_directions piece (Z.abs piece =? 2).
Proof.
  intros Hsign H1 H2 Hman. destruct d as [d1 d2]. cbn [fst snd] in *.
  unfold get_move_directions.
  destruct (Z.eqb_spec (Z.abs piece) 2) as [Hk|Hk].
  - assert ((d1 = -1 \/ d1 = 1) /\ (d2 = -1 \/ d2 = 1))
      as [[-> | ->] [-> | ->]] by lia;
      repeat first [now left | right].
  - specialize (Hman Hk).
    destruct Hsign as [[-> Hs]|[-> Hs]]; rewrite Hman.
    + destruct (Z.gtb_spec piece 0); [|lia].
      assert (d2 = -1 \/ d2 = 1) as [-> | ->] by lia;
        repeat first [now left | right].
    + destruct (Z.gtb_spec piece 0); [lia|].
      assert (d2 = -1 \/ d2 = 1) as [-> | ->] by lia;
        repeat first [now left | right].
Qed.

Section Forced.

Variable self : CheckersRules.

Lemma can_jump_collected (b : Board) (player : Z) (q : Pos) (d : Z * Z)
  (collected : list Move * list Move) :
  collect_moves self b player = Ok collected ->
  can_jump self b player q d -> collected.2 <> [].
Proof.
  intros Hc (piece & jumped & Hqv & Hpiece & Hsign & Hd1 & Hd2 & Hman
             & Hjv & Hjumped & Hopp & Hlv & Hland).
  destruct q as [row col]. cbn [fst snd] in *.
  pose proof (is_valid_square_on_board _ _ _ Hqv) as Hon.
  unfold collect_moves in Hc.
  destruct (gatherM_elem_snd _ _ _ (row, col) Hc) as (p & Hp & Hsub);
    [now apply elem_of_squares|].
  enough (exists m, m ∈ p.2) as (m & Hm).
  { intros Hnil. apply Hsub in Hm. rewrite Hnil in Hm.
    now apply elem_of_nil in Hm. }
  clear Hsub Hc.
  unfold piece_moves in Hp. cbn [fst snd] in Hp. rewrite Hqv in Hp.
  cbn [negb] in Hp. rewrite Hpiece in Hp. cbn [bind] in Hp.
  destruct (Z.eqb_spec piece 0); [lia|].
  replace ((player =? 1) && (piece >? 0) || (player =? -1) && (piece <? 0))
    with true in Hp.
  2:{ destruct Hsign as [[-> Hs]|[-> Hs]]; cbn.
      - destruct (Z.gtb_spec piece 0); [reflexivity|lia].
      - destruct (Z.ltb_spec piece 0); [reflexivity|lia]. }
  inv_bind Hp. inv_bind Hp. rename x0 into caps. injection Hp as <-.
  cbn [snd]. clear E.
  unfold get_capture_moves in E0. cbn [generate_captures_recursive] in E0.
  rewrite Hpiece in E0. cbn [bind] in E0.
  destruct (flat_mapM_elem _ _ _ d E0) as (zs & Hzs & Hsub);
    [now apply direction_of_piece with player|].
  enough (exists m, m ∈ zs) as (m & Hm) by (exists m; now apply Hsub).
  clear Hsub E0.
  unfold capture_step in Hzs.
  rewrite Hjv in Hzs. cbn [negb] in Hzs.
  rewrite Hjumped in Hzs. cbn [bind] in Hzs.
  replace ((jumped =? EMPTY) || (jumped * player >? 0)) with false in Hzs.
  2:{ unfold EMPTY. destruct (Z.eqb_spec jumped 0); [lia|].
      destruct (Z.gtb_spec (jumped * player) 0); [lia|reflexivity]. }
  rewrite Hlv in Hzs. cbn [negb] in Hzs.
  rewrite Hland in Hzs. cbn [bind] in Hzs.
  change (negb (0 =? EMPTY)) with false in Hzs. cbv iota in Hzs.
  rewrite Hpiece in Hzs. cbn [bind] in Hzs.
  inv_bind Hzs. inv_bind Hzs. inv_bind Hzs. inv_bind Hzs. inv_bind Hzs.
  destruct x4 as [|m more]; injection Hzs as <-; eexists; left.
Qed.

End Forced.

(** X18. A jump that is there is found: when a piece of the player can jump
    over a piece of the opponent onto an empty playable square and captures
    are forced, the legal moves are a non-empty list of capture moves
    only. *)
Theorem available_jump_forces_capture (self : CheckersRules) (b : Board)
  (player : Z) (q : Pos) (d : Z * Z) :
  valid_board (board_size self) b = true ->
  capture_forced self = true ->
  can_jump self b player q d ->
  exists ms,
    get_legal_moves self b player = Ok ms
    /\ ms <> []
    /\ Forall (fun m => captures m <> []) ms.
Proof.
  intros Hb Hforced Hjump.
  destruct (collect_moves_total self b player Hb) as [[simple caps] Hc].
  pose proof (can_jump_collected self _ _ _ _ _ Hc Hjump) as Hne.
  exact (forced_capture_policy self b player simple caps Hforced Hc Hne).
Qed.

Lemma available_jump_forces_capture_witness :
  exists ms,
    get_legal_moves default_rules board_of_one_jump 1 = Ok ms
    /\ ms <> []
    /\ Forall (fun m => captures m <> []) ms.
Proof.
  apply (available_jump_forces_capture default_rules board_of_one_jump 1
           (2, 1) (1, 1)).
  - reflexivity.
  - reflexivity.
  - exists 1, (-1). cbn. repeat split; try reflexivity; try lia.
Defined.

(** ** Play stays on well-formed boards *)

Lemma count_pieces_le_cells (b : Board) :
  (count_pieces b <= sum_list (length <$> b))%nat.
Proof.
  unfold count_pieces. induction b as [|row b IH]; [reflexivity|].
  replace (sum_list (count_row <$> row :: b))
    with (count_row row + sum_list (count_row <$> b))%nat by reflexivity.
  replace (sum_list (length <$> row :: b))
    with (length row + sum_list (length <$> b))%nat by reflexivity.
  assert (count_row row <= length row)%nat by apply length_filter.
  lia.
Qed.

(** X19. On a well-formed board of at most 8 x 8 squares the rules do not
    raise. The board holds at most 64 pieces and the capture search nests
    at most one call more than there are pieces: with room for 65 nested
    calls or more it returns, and always the same list. So
    [get_legal_moves] and [is_terminal] return, and [apply_move] of every
    legal move returns a well-formed board again: the well-formed boards of
    this size are closed under legal play. *)
Theorem legal_play_keeps_boards_well_formed (self : CheckersRules) (b : Board)
  (player : Z) :
  valid_board (board_size self) b = true ->
  board_size self <= 8 ->
  (count_pieces b <= 64)%nat
  /\ (forall (p row col : Z), on_board (board_size self) row col ->
        exists caps,
          get_capture_moves self b row col p = Ok caps
          /\ forall fuel, (64 < fuel)%nat ->
               generate_captures_recursive self fuel b row col p [] = Ok caps)
  /\ exists ms over winner,
       get_legal_moves self b player = Ok ms
       /\ is_terminal self b player = Ok (over, winner)
       /\ Forall (fun m => exists b',
            apply_move b m player = Ok b'
            /\ valid_board (board_size self) b' = true) ms.
Proof.
  intros Hb Hsize.
  assert (Hcount : (count_pieces b <= 64)%nat).
  { pose proof (count_pieces_le_cells b) as Hle.
    pose proof (valid_board_cells _ _ Hb) as Hcells.
    pose proof (valid_board_length _ _ Hb) as Hlen.
    assert (0 <= board_size self) by lia.
    assert (board_size self * board_size self <= 64) by nia.
    lia. }
  split; [exact Hcount|]. split.
  - intros p row col Hon.
    destruct (capture_fuel_sufficient self b row col p Hb Hon)
      as (caps & Hcaps & Hfuel).
    exists caps. split; [exact Hcaps|].
    intros fuel Hlt. apply Hfuel. lia.
  - destruct (get_legal_moves_total self b player Hb) as [ms Hms].
    destruct (is_terminal_total (mkAgent self 0) b player Hb)
      as [[over winner] Ht].
    exists ms, over, winner. split; [exact Hms|]. split; [exact Ht|].
    pose proof (get_legal_moves_applicable self _ _ _ Hms) as Happ.
    eapply Forall_impl; [exact Happ|]. intros m Hm.
    now apply apply_move_total.
Qed.

Lemma legal_play_keeps_boards_well_formed_witness :
  (count_pieces board_of_promoting_jumps <= 64)%nat
  /\ (forall (p row col : Z), on_board (board_size default_rules) row col ->
        exists caps,
          get_capture_moves default_rules board_of_promoting_jumps row col p
          = Ok caps
          /\ forall fuel, (64 < fuel)%nat ->
               generate_captures_recursive default_rules fuel
                 board_of_promoting_jumps row col p [] = Ok caps)
  /\ exists ms over winner,
       get_legal_moves default_rules board_of_promoting_jumps 1 = Ok ms
       /\ is_terminal default_rules board_of_promoting_jumps 1
          = Ok (over, winner)
       /\ Forall (fun m => exists b',
            apply_move board_of_promoting_jumps m 1 = Ok b'
            /\ valid_board (board_size default_rules) b' = true) ms.
Proof.
  apply (legal_play_keeps_boards_well_formed default_rules
           board_of_promoting_jumps 1).
  - reflexivity.
  - cbn. lia.
Defined.

(** ** The observation *)

Lemma observe_cell_channel (board : Board) (current_player : Z)
  (obs : list Board) (sq : Pos) (piece : Z) :
  getitem board sq.1 sq.2 = Ok piece ->
  observe_cell board current_player obs sq
  = match channel_of current_player piece with
    | Some ch => setitem3 obs ch sq.1 sq.2 1
    | None => Ok obs
    end.
Proof.
  intros Hp. unfold observe_cell, channel_of. rewrite Hp. cbn [bind].
  destruct (Z.eqb_spec current_player 1) as [_|_].
  - change (2 * 1) with 2. change (- (1)) with (-1). change (-2 * 1) with (-2).
    destruct (Z.eqb_spec piece 0) as [->|]; [reflexivity|].
    destruct (piece =? 1); [reflexivity|].
    destruct (piece =? 2); [reflexivity|].
    destruct (piece =? -1); [reflexivity|].
    destruct (piece =? -2); reflexivity.
  - change (2 * -1) with (-2). change (- (-1)) with 1.
    change (-2 * -1) with 2.
    destruct (Z.eqb_spec piece 0) as [->|]; [reflexivity|].
    destruct (piece =? -1); [reflexivity|].
    destruct (piece =? -2); [reflexivity|].
    destruct (piece =? 1); [reflexivity|].
    destruct (piece =? 2); reflexivity.
Qed.

Lemma channel_of_lt (current_player piece : Z) (ch : nat) :
  channel_of current_player piece = Some ch -> (ch < 4)%nat.
Proof.
  unfold channel_of.
  repeat (destruct (_ =? _); [intros [= <-]; lia|]). discriminate.
Qed.

Lemma observed_step (board : Board) (current_player : Z) (done : list Pos)
  (obs : list Board) (sq : Pos) :
  valid_board 8 board = true -> on_board 8 sq.1 sq.2 ->
  observed board current_player done obs ->
  exists obs',
    observe_cell board current_player obs sq = Ok obs'
    /\ observed board current_player (done ++ [sq]) obs'.
Proof.
  intros Hb Hsq (Hlen & Hplanes & Hcells).
  destruct (getitem_valid _ _ _ _ Hb Hsq) as (piece & Hpiece & _).
  rewrite (observe_cell_channel _ _ _ _ _ Hpiece).
  destruct (channel_of current_player piece) as [k|] eqn:Hk.
  - pose proof (channel_of_lt _ _ _ Hk) as Hk4.
    destruct (lookup_lt_is_Some_2 obs k) as [plane Hplane]; [lia|].
    pose proof (proj1 (Forall_lookup _ _) Hplanes k plane Hplane) as Hpv.
    destruct (setitem_valid _ _ _ _ 1 Hpv Hsq eq_refl) as (plane' & Hset & Hpv').
    unfold setitem3. rewrite Hplane, Hset. cbn [bind].
    eexists. split; [reflexivity|].
    split; [now rewrite length_insert|].
    split.
    { apply Forall_insert; assumption. }
    intros ch r c v Hch Hrc Hv.
    specialize (Hcells ch r c v Hch Hrc Hv).
    unfold getitem3 in *.
    destruct Hsq as [Hs1 Hs2]. destruct Hrc as [Hr Hc].
    destruct (decide (ch = k)) as [->|Hne].
    + rewrite list_lookup_insert_eq by lia. rewrite Hplane in Hcells.
      rewrite (getitem_setitem _ _ _ _ _ _ _ Hset) by lia.
      destruct (decide (sq.1 = r /\ sq.2 = c)) as [[e1 e2]|Hother].
      * assert (v = piece) as -> by (rewrite <- e1, <- e2 in Hv; congruence).
        rewrite decide_True; [reflexivity|].
        split; [|assumption]. apply elem_of_app. right.
        apply list_elem_of_singleton. destruct sq; cbn in *. now subst.
      * rewrite Hcells. f_equal.
        destruct (decide ((r, c) ∈ done /\ channel_of current_player v = Some k))
          as [[Hin Hc']|Hno].
        -- rewrite decide_True; [reflexivity|].
           split; [apply elem_of_app; now left|assumption].
        -- rewrite decide_False; [reflexivity|].
           intros [[Hin|Hin]%elem_of_app Hc']; [tauto|].
           apply list_elem_of_singleton in Hin. subst sq. cbn in Hother. tauto.
    + rewrite list_lookup_insert_ne by congruence. rewrite Hcells. f_equal.
      destruct (decide ((r, c) ∈ done /\ channel_of current_player v = Some ch))
        as [[Hin Hc']|Hno].
      * rewrite decide_True; [reflexivity|].
        split; [apply elem_of_app; now left|assumption].
      * rewrite decide_False; [reflexivity|].
        intros [[Hin|Hin]%elem_of_app Hc']; [tauto|].
        apply list_elem_of_singleton in Hin. subst sq. cbn [fst snd] in *.
        assert (v = piece) as -> by congruence. congruence.
  - exists obs. split; [reflexivity|].
    split; [assumption|]. split; [assumption|].
    intros ch r c v Hch Hrc Hv. rewrite (Hcells ch r c v Hch Hrc Hv). f_equal.
    destruct (decide ((r, c) ∈ done /\ channel_of current_player v = Some ch))
      as [[Hin Hc']|Hno].
    + rewrite decide_True; [reflexivity|].
      split; [apply elem_of_app; now left|assumption].
    + rewrite decide_False; [reflexivity|].
      intros [[Hin|Hin]%elem_of_app Hc']; [tauto|].
      apply list_elem_of_singleton in Hin. subst sq. cbn [fst snd] in *.
      assert (v = piece) as -> by congruence. congruence.
Qed.

Lemma observed_loop (board : Board) (current_player : Z) (todo : list Pos) :
  valid_board 8 board = true ->
  forall (done : list Pos) (obs : list Board),
    Forall (fun q : Pos => on_board 8 q.1 q.2) todo ->
    observed board current_player done obs ->
    exists obs',
      foldM (observe_cell board current_player) obs todo = Ok obs'
      /\ observed board current_player (done ++ todo) obs'.
Proof.
  intros Hb. induction todo as [|sq todo IH]; intros done obs Htodo Hobs.
  - exists obs. split; [reflexivity|]. now rewrite app_nil_r.
  - apply Forall_cons in Htodo as [Hsq Htodo].
    destruct (observed_step _ _ _ _ _ Hb Hsq Hobs) as (obs1 & H1 & Hobs1).
    destruct (IH _ _ Htodo Hobs1) as (obs' & H' & Hobs').
    exists obs'. cbn [foldM]. rewrite H1. cbn [bind].
    split; [exact H'|]. now rewrite <- app_assoc in Hobs'.
Qed.

Lemma elem_of_squares8 (r c : Z) : (r, c) ∈ squares8 <-> on_board 8 r c.
Proof.
  unfold squares8, range, on_board. rewrite list_elem_of_bind. split.
  - intros (r' & Hin & Hr). apply list_elem_of_bind in Hin as (c' & Hin & Hc).
    apply list_elem_of_singleton in Hin. injection Hin as -> ->.
    apply elem_of_seqZ in Hr, Hc. lia.
  - intros [Hr Hc]. exists r. split; [|apply elem_of_seqZ; lia].
    apply list_elem_of_bind. exists c.
    split; [now apply list_elem_of_singleton|apply elem_of_seqZ; lia].
Qed.

(** X20. The observation of a well-formed 8 x 8 board is a tensor of four
    planes that holds, for each square, [1.0] in the channel of the piece
    on it and [0.0] elsewhere: channel 0 for the men of the player who
    looks, 1 for its kings, 2 for the opponent's men, 3 for the opponent's
    kings, no channel for an empty square. *)
Theorem board_to_observation_channels (board : Board) (current_player : Z) :
  valid_board 8 board = true ->
  exists obs,
    board_to_observation board current_player = Ok obs
    /\ length obs = 4%nat
    /\ forall (ch : nat) r c, (ch < 4)%nat -> on_board 8 r c ->
         exists piece,
           getitem board r c = Ok piece
           /\ getitem3 obs ch r c
              = Ok (if decide (channel_of current_player piece = Some ch)
                    then 1 else 0).
Proof.
  intros Hb. unfold board_to_observation.
  destruct (observed_loop board current_player squares8 Hb [] zeros_4_8_8)
    as (obs & Hobs & Hlen & _ & Hcells).
  { rewrite Forall_forall. intros [r c] Hq. now apply elem_of_squares8. }
  { split; [reflexivity|]. split; [repeat constructor|].
    intros ch r c piece Hch [Hr Hc] _.
    rewrite decide_False by (intros [H _]; now apply elem_of_nil in H).
    assert (ch = 0 \/ ch = 1 \/ ch = 2 \/ ch = 3)%nat
      as [->|[->|[->| ->]]] by lia;
    assert (r = 0 \/ r = 1 \/ r = 2 \/ r = 3 \/ r = 4 \/ r = 5 \/ r = 6 \/ r = 7)
      as [->|[->|[->|[->|[->|[->|[->| ->]]]]]]] by lia;
    assert (c = 0 \/ c = 1 \/ c = 2 \/ c = 3 \/ c = 4 \/ c = 5 \/ c = 6 \/ c = 7)
      as [->|[->|[->|[->|[->|[->|[->| ->]]]]]]] by lia;
    reflexivity. }
  exists obs. split; [exact Hobs|]. split; [exact Hlen|].
  intros ch r c Hch Hrc.
  destruct (getitem_valid _ _ _ _ Hb Hrc) as (piece & Hpiece & _).
  exists piece. split; [exact Hpiece|].
  rewrite (Hcells ch r c piece Hch Hrc Hpiece). f_equal.
  cbn [app].
  destruct (decide (channel_of current_player piece = Some ch)) as [Hc|Hc].
  - rewrite decide_True; [reflexivity|].
    split; [destruct Hrc; now apply elem_of_squares8|assumption].
  - rewrite decide_False; [reflexivity|]. tauto.
Qed.

Lemma board_to_observation_channels_witness :
  exists obs,
    board_to_observation board_of_two_jumps (-1) = Ok obs
    /\ length obs = 4%nat
    /\ forall (ch : nat) r c, (ch < 4)%nat -> on_board 8 r c ->
         exists piece,
           getitem board_of_two_jumps r c = Ok piece
           /\ getitem3 obs ch r c
              = Ok (if decide (channel_of (-1) piece = Some ch) then 1 else 0).
Proof.
  apply (board_to_observation_channels board_of_two_jumps (-1)).
  reflexivity.
Defined.

Lemma getitem_swap_colours (b : Board) (r c : Z) :
  getitem (swap_colours b) r c
  = match getitem b r c with
    | Ok v => Ok (- v)
    | IndexError => IndexError
    | RecursionError => RecursionError
    end.
Proof.
  unfold getitem, swap_colours. rewrite length_map.
  destruct (norm_index (length b) r) as [i| |]; cbn [bind]; try reflexivity.
  change (map (map Z.opp) b) with (map Z.opp <$> b).
  rewrite list_lookup_fmap.
  destruct (b !! i) as [row|]; cbn [fmap option_fmap option_map];
    [|reflexivity].
  rewrite length_map.
  destruct (norm_index (length row) c) as [j| |]; cbn [bind]; try reflexivity.
  change (map Z.opp row) with (Z.opp <$> row). rewrite list_lookup_fmap.
  destruct (row !! j); reflexivity.
Qed.

(** X21. The change of perspective is a change of colours and nothing else:
    what player -1 (or any player value other than 1) observes on a board is
    what player 1 observes on the board with the colours exchanged, square
    by square, with no rotation of the board; errors included. *)
Theorem board_to_observation_perspective (board : Board) (current_player : Z) :
  current_player <> 1 ->
  board_to_observation (swap_colours board) current_player
  = board_to_observation board 1.
Proof.
  intros Hp. unfold board_to_observation. apply foldM_ext.
  intros obs sq _. unfold observe_cell. rewrite getitem_swap_colours.
  destruct (getitem board sq.1 sq.2) as [piece| |]; cbn [bind];
    try reflexivity.
  destruct (Z.eqb_spec current_player 1); [contradiction|].
  change (1 =? 1) with true. cbv iota.
  destruct (Z.eqb_spec piece 0) as [->|Hnz]; [reflexivity|].
  destruct (Z.eqb_spec (- piece) 0); [lia|].
  destruct (Z.eqb_spec piece 1) as [->|]; [reflexivity|].
  destruct (Z.eqb_spec (- piece) (-1)); [lia|].
  destruct (Z.eqb_spec piece 2) as [->|]; [reflexivity|].
  destruct (Z.eqb_spec (- piece) (-2)); [lia|].
  destruct (Z.eqb_spec piece (-1)) as [->|]; [reflexivity|].
  destruct (Z.eqb_spec (- piece) 1); [lia|].
  destruct (Z.eqb_spec piece (-2)) as [->|]; [reflexivity|].
  destruct (Z.eqb_spec (- piece) 2); [lia|]. reflexivity.
Qed.

Lemma board_to_observation_perspective_witness :
  board_to_observation (swap_colours board_of_two_jumps) (-1)
  = board_to_observation board_of_two_jumps 1.
Proof.
  apply (board_to_observation_perspective board_of_two_jumps (-1)). lia.
Defined.
